(** * Freelance marketplace backend: order lifecycle, reviews, messaging,
      authentication and gig images

    A shallow embedding of the Express handlers and Mongoose model methods
    of the marketplace backend, followed by the properties proved about them.

    Conventions of the embedding.
    - A Mongoose collection addressed only by [findById] is a [gmap] from
      the 24-digit hexadecimal text of the document's ObjectId to the
      document; a collection that is also searched with [findOne] or
      [updateMany] is a list of documents in insertion order.
    - A handler [async (req, res) => ...] becomes a function from the parts
      of [req] it reads and the database to the database afterwards and the
      reply it sends.  [new Date()] is the argument [now] (milliseconds),
      the ObjectId minted by [new Model(...)] is the argument [newId].
    - [validationResult(req)] is the list [errors] that the route's
      express-validator chain has collected.
    - JavaScript numbers that count orders or money are integers ([Z]);
      on integral values below 2^53 the additions performed here are exact.
    - A JavaScript string is its UTF-8 encoding; [utf16_length] is its
      [length], and [trim] removes the white space of ECMAScript.
    - A [save()] of a document that satisfies its schema succeeds; a schema
      violation raises a ValidationError, which every handler's [catch]
      turns into a 500 reply.  Loss of the database connection is outside
      the model. *)

From Stdlib Require Import ZArith List String Ascii Bool Lia.
From stdpp Require Import base option list gmap strings.
Import ListNotations.

Local Open Scope string_scope.
Local Open Scope Z_scope.

(** ** JavaScript values that the handlers compare *)

Module Js.

(** The two kinds of value found in [req.user._id] and [req.user.id]: a
    string, or a BSON ObjectId object (carrying its hexadecimal text). *)
Inductive jsval :=
| JString (s : string)
| JObjectId (hex : string).

(** [v.toString()] *)
Definition toString (v : jsval) : string :=
  match v with
  | JString s => s
  | JObjectId hex => hex
  end.

(** [s !== v] where [s] is a string.  Strict inequality performs no
    coercion: a string differs from every object. *)
Definition str_strict_neq (s : string) (v : jsval) : bool :=
  match v with
  | JString t => negb (String.eqb s t)
  | JObjectId _ => true
  end.

(** [s === v] where [s] is a string. *)
Definition str_strict_eq (s : string) (v : jsval) : bool :=
  negb (str_strict_neq s v).

(** A JavaScript string is represented by its UTF-8 encoding. *)
Definition bytes (l : list nat) : string :=
  string_of_list_ascii (List.map ascii_of_nat l).

(** The characters removed by [String.prototype.trim]: the WhiteSpace and
    LineTerminator code points of ECMAScript.  In order: U+0009 to U+000D,
    U+0020, U+00A0, U+1680, U+2000 to U+200A, U+2028, U+2029, U+202F,
    U+205F, U+3000 and U+FEFF. *)
Definition white_space : list string :=
  List.map bytes
    [[9]; [10]; [11]; [12]; [13]; [32]; [194; 160]; [225; 154; 128];
     [226; 128; 128]; [226; 128; 129]; [226; 128; 130]; [226; 128; 131];
     [226; 128; 132]; [226; 128; 133]; [226; 128; 134]; [226; 128; 135];
     [226; 128; 136]; [226; 128; 137]; [226; 128; 138];
     [226; 128; 168]; [226; 128; 169]; [226; 128; 175]; [226; 129; 159];
     [227; 128; 128]; [239; 187; 191]]%nat.

(** The encodings of one, two and three bytes among them. *)
Definition js_space (a : ascii) : bool :=
  bool_decide (String a "" ∈ white_space).

Definition js_space2 (a b : ascii) : bool :=
  bool_decide (String a (String b "") ∈ white_space).

Definition js_space3 (a b c : ascii) : bool :=
  bool_decide (String a (String b (String c "")) ∈ white_space).

Section Strip.

(** Removal of the leading characters recognised by [p1], [p2], [p3]. *)
Variable p1 : ascii -> bool.
Variable p2 : ascii -> ascii -> bool.
Variable p3 : ascii -> ascii -> ascii -> bool.

Fixpoint strip (s : string) : string :=
  match s with
  | EmptyString => EmptyString
  | String a r =>
    if p1 a then strip r
    else
      match r with
      | EmptyString => s
      | String b r2 =>
        if p2 a b then strip r2
        else
          match r2 with
          | EmptyString => s
          | String c r3 => if p3 a b c then strip r3 else s
          end
      end
  end.

End Strip.

(** [s.trimStart()] *)
Definition trimStart (s : string) : string :=
  strip js_space js_space2 js_space3 s.

Definition str_rev (s : string) : string :=
  string_of_list_ascii (rev (list_ascii_of_string s)).

(** [s.trimEnd()]: the same on the reversed bytes. *)
Definition trimEnd (s : string) : string :=
  str_rev
    (strip js_space (fun a b => js_space2 b a) (fun a b c => js_space3 c b a)
       (str_rev s)).

(** [s.trim()] *)
Definition trim (s : string) : string := trimEnd (trimStart s).

(** The UTF-16 code units that the character starting with byte [a]
    takes: none for a continuation byte, two for the first byte of a
    four-byte encoding, one otherwise. *)
Definition units (a : ascii) : nat :=
  let n := nat_of_ascii a in
  if (n <? 128)%nat then 1%nat
  else if (n <? 192)%nat then 0%nat
  else if (n <? 240)%nat then 1%nat
  else 2%nat.

(** [s.length] *)
Fixpoint utf16_length (s : string) : nat :=
  match s with
  | EmptyString => 0%nat
  | String a r => (units a + utf16_length r)%nat
  end.

(** Truthiness of a string: only the empty string is falsy. *)
Definition truthy (s : string) : bool :=
  negb (String.eqb s "").

End Js.

Import Js.

(** ** Replies *)

(** The three shapes of JSON reply the controllers send. *)
Inductive reply (A : Type) :=
| Ok (code : Z) (data : A)             (* res.status(code).json({ success: true, data }) *)
| Fail (code : Z) (message : string)   (* res.status(code).json({ success: false, message }) *)
| Invalid (errors : list string).      (* res.status(400).json({ errors: errors.array() }) *)

Arguments Ok {A} code data.
Arguments Fail {A} code message.
Arguments Invalid {A} errors.

Definition status_of {A} (r : reply A) : Z :=
  match r with
  | Ok code _ => code
  | Fail code _ => code
  | Invalid _ => 400
  end.

Definition succeeded {A} (r : reply A) : bool :=
  match r with
  | Ok _ _ => true
  | _ => false
  end.

(** ** Documents (models/User.js, models/Gig.js, models/Order.js,
       models/Review.js, models/Conversation.js, models/Message.js) *)

Record User := {
  u_name : string;
  u_email : string;
  u_password : string;          (* the bcrypt hash *)
  u_role : string;
  u_profilePicture : string;
  u_totalEarnings : Z;
  u_totalOrders : Z;
  u_isActive : bool;
  u_isSuspended : bool
}.

Record Image := {
  i_url : string;
  i_filename : string;
  i_isPrimary : bool
}.

Inductive GigStatus := g_draft | g_pending | g_active | g_paused | g_rejected.

Record Gig := {
  g_title : string;
  g_seller : string;
  g_status : GigStatus;
  g_images : list Image;
  g_totalOrders : Z;
  g_totalEarnings : Z
}.

(** [orderSchema.status.enum] *)
Inductive OrderStatus :=
| pending | accepted | in_progress | delivered | completed | cancelled | disputed.

Record OrderMessage := {
  om_sender : string;
  om_content : string;
  om_timestamp : Z;
  om_read : bool
}.

Record Order := {
  o_gig : string;
  o_buyer : string;
  o_seller : string;
  o_amount : Z;
  o_status : OrderStatus;
  o_requirements : list string;
  o_deliveryMessage : option string;
  o_deliveryDate : option Z;
  o_completedDate : option Z;
  o_cancelledDate : option Z;
  o_cancelledBy : option string;
  o_cancellationReason : option string;
  o_messages : list OrderMessage
}.

Inductive ReviewStatus := r_pending | r_approved | r_rejected.

Record Review := {
  r_id : string;
  r_order : string;
  r_gig : string;
  r_reviewer : string;
  r_reviewee : string;
  r_rating : Z;
  r_comment : string;
  r_status : ReviewStatus
}.

Inductive ConvStatus := c_active | c_archived | c_blocked.

Record Conversation := {
  c_id : string;
  c_participants : list string;
  c_lastMessage : option string;
  c_lastMessageAt : option Z;
  c_unreadCount : gmap string Z;     (* Map of Number, keyed by user id *)
  c_order : option string;
  c_gig : option string;
  c_status : ConvStatus
}.

Record Message := {
  m_id : string;
  m_conversation : string;
  m_sender : string;
  m_content : string;
  m_messageType : string;
  m_attachments : list string;
  m_read : bool;
  m_readAt : option Z;
  m_deleted : bool
}.

Record DB := {
  users : gmap string User;
  gigs : gmap string Gig;
  orders : gmap string Order;
  reviews : list Review;
  conversations : list Conversation;
  messages : list Message
}.

#[global] Instance OrderStatus_eq_dec : EqDecision OrderStatus.
Proof. solve_decision. Defined.
#[global] Instance GigStatus_eq_dec : EqDecision GigStatus.
Proof. solve_decision. Defined.
#[global] Instance ConvStatus_eq_dec : EqDecision ConvStatus.
Proof. solve_decision. Defined.

Definition set_users (f : gmap string User -> gmap string User) (db : DB) : DB :=
  {| users := f (users db); gigs := gigs db; orders := orders db;
     reviews := reviews db; conversations := conversations db;
     messages := messages db |}.

Definition set_gigs (f : gmap string Gig -> gmap string Gig) (db : DB) : DB :=
  {| users := users db; gigs := f (gigs db); orders := orders db;
     reviews := reviews db; conversations := conversations db;
     messages := messages db |}.

Definition set_orders (f : gmap string Order -> gmap string Order) (db : DB) : DB :=
  {| users := users db; gigs := gigs db; orders := f (orders db);
     reviews := reviews db; conversations := conversations db;
     messages := messages db |}.

Definition set_reviews (f : list Review -> list Review) (db : DB) : DB :=
  {| users := users db; gigs := gigs db; orders := orders db;
     reviews := f (reviews db); conversations := conversations db;
     messages := messages db |}.

Definition set_conversations (f : list Conversation -> list Conversation) (db : DB) : DB :=
  {| users := users db; gigs := gigs db; orders := orders db;
     reviews := reviews db; conversations := f (conversations db);
     messages := messages db |}.

Definition set_messages (f : list Message -> list Message) (db : DB) : DB :=
  {| users := users db; gigs := gigs db; orders := orders db;
     reviews := reviews db; conversations := conversations db;
     messages := f (messages db) |}.

(** [updateOne], [findOneAndUpdate] and [save()] of a loaded document:
    the first document that matches is replaced. *)
Fixpoint update_first {A} (p : A -> bool) (f : A -> A) (l : list A) : list A :=
  match l with
  | [] => []
  | x :: r => if p x then f x :: r else x :: update_first p f r
  end.

(** ** The authenticated caller *)

(** The fields of [req.user] that the handlers read.  For the Mongoose
    document that [protect] attaches, [_id] is an ObjectId object and the
    virtual [id] is its hexadecimal text. *)
Record ReqUser := {
  ru__id : jsval;        (* req.user._id *)
  ru_id : string;        (* req.user.id *)
  ru_role : string;      (* req.user.role *)
  ru_name : string
}.

(** [req.user = user] for the user document stored under [uid]. *)
Definition user_document (uid : string) (u : User) : ReqUser :=
  {| ru__id := JObjectId uid; ru_id := uid; ru_role := u_role u;
     ru_name := u_name u |}.

(** Outcome of an Express middleware: call [next()] or answer. *)
Inductive guard (A : Type) :=
| Next (a : A)
| Reject (code : Z) (message : string).

Arguments Next {A} a.
Arguments Reject {A} code message.

(** ** Authentication (controllers/authController.js, middlewares/auth.js) *)

Module Auth.

(** Idealised jsonwebtoken: a token records its payload, its expiry and
    the secret it was signed with; verification succeeds exactly for an
    unexpired token signed with the verifying secret.  [tk_exp] is the
    claim [exp], a number of seconds, times 1000: the first millisecond at
    which the token is refused. *)
Record Token := {
  tk_id : string;
  tk_role : string;
  tk_exp : Z;
  tk_key : string
}.

Definition one_day : Z := 86400000.

(** [jwt.sign({ id, role }, secret, { expiresIn: '1d' })]: [iat] is
    [Math.floor(Date.now() / 1000)] and [exp] is [iat + 86400]. *)
Definition jwt_sign (id role secret : string) (now : Z) : Token :=
  {| tk_id := id; tk_role := role; tk_exp := 1000 * (now / 1000) + one_day;
     tk_key := secret |}.

(** [jwt.verify(token, secret)]; [None] stands for the thrown error.  The
    token is expired when [Math.floor(Date.now() / 1000) >= exp], that is
    when [now] has reached [tk_exp]. *)
Definition jwt_verify (t : Token) (secret : string) (now : Z) : option (string * string) :=
  if String.eqb (tk_key t) secret && (now <? tk_exp t)
  then Some (tk_id t, tk_role t)
  else None.

Definition generateToken (secret : string) (now : Z) (uid : string) (user : User) : Token :=
  jwt_sign uid (u_role user) secret now.

(** The users whose stored email is [email], as a search of the
    collection finds the first of them. *)
Definition findOne_email (email : string) (us : gmap string User) : option (string * User) :=
  List.find (fun p => String.eqb (u_email (snd p)) email) (map_to_list us).


Record LoginUser := {
  lu__id : string;
  lu_name : string;
  lu_email : string;
  lu_role : string;
  lu_profilePicture : string
}.

Inductive LoginReply :=
| LoginOk (cookie : Token) (user : LoginUser) (token : Token)
                                     (* res.cookie('token', token, ..); res.json({ user, token }) *)
| LoginRejected (code : Z) (message : string)   (* res.status(code).json({ message }) *)
| LoginError (code : Z) (msg : string)          (* res.status(code).json({ msg, error: err.message }) *)
| LoginInvalid (errors : list string).          (* res.status(400).json({ errors }) *)

Section Login.

(** [String.prototype.toLowerCase], [bcrypt.compare(password, hash)] and
    [process.env.JWT_SECRET] *)
Variable toLowerCase : string -> string.
Variable bcrypt_compare : string -> string -> bool.
Variable JWT_SECRET : string.

(** The setters of [UserSchema.email]: [lowercase: true, trim: true]. *)
Definition stored_email (email : string) : string := trim (toLowerCase email).

(** [login]; [password] is [None] when the body has no string under
    [password].  The route has no validator chain: [errors] is empty
    there. *)
Definition login (now : Z) (errors : list string) (email : string)
    (password : option string) (db : DB) : LoginReply :=
  match errors with
  | _ :: _ => LoginInvalid errors
  | [] =>
    (* User.findOne({ email }): the filter is cast with the setters of the
       schema *)
    match findOne_email (stored_email email) (users db) with
    | None => LoginRejected 400 "Invalid credentials"
    | Some (uid, user) =>
      match password with
      | None =>
        (* bcrypt.compare throws 'Illegal arguments'; the catch answers *)
        LoginError 500 "Server error"
      | Some password =>
        let isMatch := bcrypt_compare password (u_password user) in
        if negb isMatch then LoginRejected 400 "Invalid credentials"
        else
          let token := generateToken JWT_SECRET now uid user in
          LoginOk token
            {| lu__id := uid; lu_name := u_name user; lu_email := u_email user;
               lu_role := u_role user; lu_profilePicture := u_profilePicture user |}
            token
      end
    end
  end.

Definition validRoles : list string := ["freelancer"; "client"; "admin"].

(** [protect]: [token] is [req.cookies.token || bearer token]. *)
Definition protect (now : Z) (token : option Token) (db : DB) : guard ReqUser :=
  match token with
  | None => Reject 401 "No token, authorization denied"
  | Some t =>
    match jwt_verify t JWT_SECRET now with
    | None => Reject 401 "Token is not valid"
    | Some (id, _) =>
      match users db !! id with
      | None => Reject 401 "User not found"
      | Some user =>
        if negb (u_isActive user) then Reject 401 "Account is deactivated"
        else if u_isSuspended user then Reject 401 "Account is suspended"
        else if negb (bool_decide (u_role user ∈ validRoles))
             then Reject 401 "Invalid user role"
        else Next (user_document id user)
      end
    end
  end.

End Login.

(** [roles.join(', ')] *)
Fixpoint join (l : list string) : string :=
  match l with
  | [] => ""
  | [x] => x
  | x :: r => x ++ ", " ++ join r
  end.

(** [authorizeRoles(...roles)], after [protect] has set [req.user]. *)
Definition authorizeRoles (roles : list string) (user : ReqUser) : guard unit :=
  if negb (bool_decide (ru_role user ∈ roles))
  then Reject 403
         ("User role '" ++ ru_role user
          ++ "' is not authorized to access this resource. Required roles: "
          ++ join roles)
  else Next tt.

End Auth.

(** ** Order lifecycle (controllers/orderController.js, routes/orders.js) *)

Module Orders.

Definition status_name (s : OrderStatus) : string :=
  match s with
  | pending => "pending"
  | accepted => "accepted"
  | in_progress => "in_progress"
  | delivered => "delivered"
  | completed => "completed"
  | cancelled => "cancelled"
  | disputed => "disputed"
  end.

Definition all_statuses : list OrderStatus :=
  [pending; accepted; in_progress; delivered; completed; cancelled; disputed].

(** The enum validator of [orderSchema.status]: the stored value is one of
    the seven names, anything else makes [save()] throw. *)
Definition parse_status (s : string) : option OrderStatus :=
  List.find (fun v => String.eqb (status_name v) s) all_statuses.

Definition with_status (s : OrderStatus) (o : Order) : Order :=
  {| o_gig := o_gig o; o_buyer := o_buyer o; o_seller := o_seller o;
     o_amount := o_amount o; o_status := s;
     o_requirements := o_requirements o;
     o_deliveryMessage := o_deliveryMessage o;
     o_deliveryDate := o_deliveryDate o;
     o_completedDate := o_completedDate o;
     o_cancelledDate := o_cancelledDate o;
     o_cancelledBy := o_cancelledBy o;
     o_cancellationReason := o_cancellationReason o;
     o_messages := o_messages o |}.

Definition with_completedDate (d : Z) (o : Order) : Order :=
  {| o_gig := o_gig o; o_buyer := o_buyer o; o_seller := o_seller o;
     o_amount := o_amount o; o_status := o_status o;
     o_requirements := o_requirements o;
     o_deliveryMessage := o_deliveryMessage o;
     o_deliveryDate := o_deliveryDate o;
     o_completedDate := Some d;
     o_cancelledDate := o_cancelledDate o;
     o_cancelledBy := o_cancelledBy o;
     o_cancellationReason := o_cancellationReason o;
     o_messages := o_messages o |}.

Definition with_delivery (d : Z) (msg : option string) (o : Order) : Order :=
  {| o_gig := o_gig o; o_buyer := o_buyer o; o_seller := o_seller o;
     o_amount := o_amount o; o_status := o_status o;
     o_requirements := o_requirements o;
     o_deliveryMessage := msg;
     o_deliveryDate := Some d;
     o_completedDate := o_completedDate o;
     o_cancelledDate := o_cancelledDate o;
     o_cancelledBy := o_cancelledBy o;
     o_cancellationReason := o_cancellationReason o;
     o_messages := o_messages o |}.

Definition with_cancellation (d : Z) (who : string) (reason : option string)
    (o : Order) : Order :=
  {| o_gig := o_gig o; o_buyer := o_buyer o; o_seller := o_seller o;
     o_amount := o_amount o; o_status := o_status o;
     o_requirements := o_requirements o;
     o_deliveryMessage := o_deliveryMessage o;
     o_deliveryDate := o_deliveryDate o;
     o_completedDate := o_completedDate o;
     o_cancelledDate := Some d;
     o_cancelledBy := Some who;
     o_cancellationReason := reason;
     o_messages := o_messages o |}.

(** [order.messages.push({ sender: req.user._id, content, timestamp })] *)
Definition push_message (user : ReqUser) (content : string) (now : Z)
    (o : Order) : Order :=
  {| o_gig := o_gig o; o_buyer := o_buyer o; o_seller := o_seller o;
     o_amount := o_amount o; o_status := o_status o;
     o_requirements := o_requirements o;
     o_deliveryMessage := o_deliveryMessage o;
     o_deliveryDate := o_deliveryDate o;
     o_completedDate := o_completedDate o;
     o_cancelledDate := o_cancelledDate o;
     o_cancelledBy := o_cancelledBy o;
     o_cancellationReason := o_cancellationReason o;
     o_messages := o_messages o ++
       [ {| om_sender := toString (ru__id user); om_content := content;
            om_timestamp := now; om_read := false |} ] |}.

(** [message && message.trim() && message.trim().length > 0] *)
Definition has_text (message : option string) : bool :=
  match message with
  | None => false
  | Some m => truthy m && truthy (trim m) && (0 <? Z.of_nat (utf16_length (trim m)))
  end.

Definition text_of (message : option string) : string :=
  match message with
  | None => ""
  | Some m => trim m
  end.

(** [createOrder] *)
Definition createOrder (newId : string) (errors : list string) (user : ReqUser)
    (gigId : string) (requirements : list string) (amount : Z)
    (db : DB) : DB * reply Order :=
  match errors with
  | _ :: _ => (db, Invalid errors)
  | [] =>
    match gigs db !! gigId with
    | None => (db, Fail 404 "Gig not found")
    | Some gig =>
      if negb (bool_decide (g_status gig = g_active))
      then (db, Fail 400 "Gig is not available for orders")
      else if String.eqb (g_seller gig) (toString (ru__id user))
      then (db, Fail 400 "You cannot order your own gig")
      else
        let order :=
          {| o_gig := gigId; o_buyer := toString (ru__id user);
             o_seller := g_seller gig; o_amount := amount;
             o_status := pending; o_requirements := requirements;
             o_deliveryMessage := None; o_deliveryDate := None;
             o_completedDate := None; o_cancelledDate := None;
             o_cancelledBy := None; o_cancellationReason := None;
             o_messages := [] |} in
        (* order.save(): amount has min: 5 *)
        if amount <? 5 then (db, Fail 500 "Server error")
        else (set_orders (insert newId order) db, Ok 201 order)
    end
  end.

(** [updateOrderStatus] *)
Definition updateOrderStatus (now : Z) (errors : list string) (user : ReqUser)
    (id : string) (status : string) (message : option string)
    (db : DB) : DB * reply Order :=
  match errors with
  | _ :: _ => (db, Invalid errors)
  | [] =>
    match orders db !! id with
    | None => (db, Fail 404 "Order not found")
    | Some order =>
      if negb (String.eqb (ru_role user) "admin")
         && negb (String.eqb (o_buyer order) (toString (ru__id user)))
         && negb (String.eqb (o_seller order) (toString (ru__id user)))
      then (db, Fail 403 "Not authorized to update this order")
      else
        let order1 :=
          if has_text message then push_message user (text_of message) now order
          else order in
        (* order.status = status; save() validates it against the enum *)
        match parse_status status with
        | None => (db, Fail 500 "Server error")
        | Some s =>
          let order2 := with_status s order1 in
          let order3 :=
            if String.eqb status "completed" then with_completedDate now order2
            else order2 in
          (set_orders (insert id order3) db, Ok 200 order3)
        end
    end
  end.

(** [submitDelivery] *)
Definition submitDelivery (now : Z) (errors : list string) (user : ReqUser)
    (id : string) (message : option string) (db : DB) : DB * reply Order :=
  match errors with
  | _ :: _ => (db, Invalid errors)
  | [] =>
    match orders db !! id with
    | None => (db, Fail 404 "Order not found")
    | Some order =>
      if str_strict_neq (o_seller order) (ru__id user)
      then (db, Fail 403 "Not authorized to submit delivery for this order")
      else
        let order1 := with_status delivered order in
        let order2 :=
          with_delivery now
            (match message with
             | Some m => if truthy m then Some m else o_deliveryMessage order1
             | None => o_deliveryMessage order1
             end) order1 in
        let content :=
          match message with
          | Some m => if truthy m && truthy (trim m) then trim m
                      else "Delivery submitted"
          | None => "Delivery submitted"
          end in
        let order3 := push_message user content now order2 in
        (set_orders (insert id order3) db, Ok 200 order3)
    end
  end.

(** [completeOrder] *)
Definition completeOrder (now : Z) (user : ReqUser) (id : string)
    (db : DB) : DB * reply Order :=
  match orders db !! id with
  | None => (db, Fail 404 "Order not found")
  | Some order =>
    if str_strict_neq (o_buyer order) (ru__id user)
    then (db, Fail 403 "Not authorized to complete this order")
    else if negb (bool_decide (o_status order = delivered))
    then (db, Fail 400 "Order must be delivered before completion")
    else
      let order' := with_completedDate now (with_status completed order) in
      (* const seller = await User.findById(order.seller) *)
      match users db !! o_seller order with
      | None => (db, Fail 500 "Server error")
      | Some seller =>
        let seller' :=
          {| u_name := u_name seller; u_email := u_email seller;
             u_password := u_password seller; u_role := u_role seller;
             u_profilePicture := u_profilePicture seller;
             u_totalEarnings := u_totalEarnings seller + o_amount order;
             u_totalOrders := u_totalOrders seller + 1;
             u_isActive := u_isActive seller;
             u_isSuspended := u_isSuspended seller |} in
        let db1 := set_users (insert (o_seller order) seller') db in
        (* const gig = await Gig.findById(order.gig) *)
        match gigs db1 !! o_gig order with
        | None => (db1, Fail 500 "Server error")
        | Some gig =>
          let gig' :=
            {| g_title := g_title gig; g_seller := g_seller gig;
               g_status := g_status gig; g_images := g_images gig;
               g_totalOrders := g_totalOrders gig + 1;
               g_totalEarnings := g_totalEarnings gig + o_amount order |} in
          let db2 := set_gigs (insert (o_gig order) gig') db1 in
          (set_orders (insert id order') db2, Ok 200 order')
        end
      end
  end.

(** [cancelOrder] *)
Definition cancelOrder (now : Z) (user : ReqUser) (id : string)
    (reason : option string) (db : DB) : DB * reply Order :=
  match orders db !! id with
  | None => (db, Fail 404 "Order not found")
  | Some order =>
    if negb (String.eqb (ru_role user) "admin")
       && str_strict_neq (o_buyer order) (ru__id user)
       && str_strict_neq (o_seller order) (ru__id user)
    then (db, Fail 403 "Not authorized to cancel this order")
    else
      let who :=
        if String.eqb (ru_role user) "admin" then "admin"
        else if str_strict_eq (o_buyer order) (ru__id user) then "buyer"
        else "seller" in
      let reason' :=
        match reason with
        | Some r => if truthy r then Some r else o_cancellationReason order
        | None => o_cancellationReason order
        end in
      let order' := with_cancellation now who reason' (with_status cancelled order) in
      (set_orders (insert id order') db, Ok 200 order')
  end.

(** The validator chain of [router.patch('/:id/status', ...)]:
    [body('status').isIn([...])]. *)
Definition status_route_values : list string :=
  ["pending"; "accepted"; "in_progress"; "delivered"; "completed"; "cancelled"].

Definition validate_status (status : string) : list string :=
  if bool_decide (status ∈ status_route_values) then [] else ["Invalid status"].

(** [PATCH /api/orders/:id/status] behind [router.use(protect)]: validator
    chain, [authorizeRoles('freelancer', 'client', 'admin')], handler. *)
Definition patch_status (now : Z) (user : ReqUser) (id : string)
    (status : string) (message : option string) (db : DB) : DB * reply Order :=
  let errors := validate_status status in
  match Auth.authorizeRoles ["freelancer"; "client"; "admin"] user with
  | Reject code msg => (db, Fail code msg)
  | Next _ => updateOrderStatus now errors user id status message db
  end.

(** [PATCH /api/orders/:id/complete]: [authorizeRoles('client')], handler. *)
Definition patch_complete (now : Z) (user : ReqUser) (id : string)
    (db : DB) : DB * reply Order :=
  match Auth.authorizeRoles ["client"] user with
  | Reject code msg => (db, Fail code msg)
  | Next _ => completeOrder now user id db
  end.

End Orders.

(** ** Reviews (controllers/reviewController.js) *)

Module Reviews.

(** [Review.findOne({ order: orderId })] *)
Definition findOne_order (orderId : string) (l : list Review) : option Review :=
  List.find (fun r => String.eqb (r_order r) orderId) l.

(** [Review.findById(id)] *)
Definition findById (id : string) (l : list Review) : option Review :=
  List.find (fun r => String.eqb (r_id r) id) l.

(** The validators of [reviewSchema] that [save()] runs on the fields the
    request supplies: rating in 1..5, comment present, at most 1000 long. *)
Definition schema_ok (rating : Z) (comment : string) : bool :=
  (1 <=? rating) && (rating <=? 5) && truthy comment
  && (Z.of_nat (utf16_length comment) <=? 1000).

(** [createReview] *)
Definition createReview (newId : string) (errors : list string) (user : ReqUser)
    (orderId : string) (rating : Z) (comment : string)
    (db : DB) : DB * reply Review :=
  match errors with
  | _ :: _ => (db, Invalid errors)
  | [] =>
    match orders db !! orderId with
    | None => (db, Fail 404 "Order not found")
    | Some order =>
      if negb (String.eqb (o_buyer order) (ru_id user))
      then (db, Fail 403 "Not authorized to review this order")
      else if negb (bool_decide (o_status order = completed))
      then (db, Fail 400 "Order must be completed before reviewing")
      else
        match findOne_order orderId (reviews db) with
        | Some _ => (db, Fail 400 "Review already exists for this order")
        | None =>
          let review :=
            {| r_id := newId; r_order := orderId; r_gig := o_gig order;
               r_reviewer := ru_id user; r_reviewee := o_seller order;
               r_rating := rating; r_comment := comment;
               r_status := r_pending |} in
          if negb (schema_ok rating comment) then (db, Fail 500 "Server error")
          else (set_reviews (fun l => (l ++ [review])%list) db, Ok 201 review)
        end
    end
  end.

(** [deleteReview] *)
Definition deleteReview (user : ReqUser) (id : string) (db : DB) : DB * reply unit :=
  match findById id (reviews db) with
  | None => (db, Fail 404 "Review not found")
  | Some review =>
    if negb (String.eqb (r_reviewer review) (ru_id user))
    then (db, Fail 403 "Not authorized to delete this review")
    else
      (set_reviews (List.filter (fun r => negb (String.eqb (r_id r) id))) db,
       Ok 200 tt)
  end.

(** Number of review records stored for an order. *)
Definition reviews_of (orderId : string) (db : DB) : nat :=
  length (List.filter (fun r => String.eqb (r_order r) orderId) (reviews db)).

End Reviews.

(** ** Conversations (controllers/messageController.js) *)

Module Messaging.

(** [Conversation.findById(id)] *)
Definition findById (id : string) (l : list Conversation) : option Conversation :=
  List.find (fun c => String.eqb (c_id c) id) l.

(** [conversation.save()] of a document loaded from the collection. *)
Definition save (c : Conversation) (l : list Conversation) : list Conversation :=
  update_first (fun x => String.eqb (c_id x) (c_id c)) (fun _ => c) l.

(** [conversation.participants.includes(req.user.id)] on a Mongoose array
    of ObjectIds: membership by hexadecimal text. *)
Definition includes (uid : string) (c : Conversation) : bool :=
  bool_decide (uid ∈ c_participants c).

(** [conv.unreadCount.get(uid) || 0] *)
Definition unread (c : Conversation) (uid : string) : Z :=
  default 0 (c_unreadCount c !! uid).

(** The query [{ participants: { $all: [a, b] }, status: { $ne: 'blocked' } }] *)
Definition between (a b : string) (c : Conversation) : bool :=
  bool_decide (a ∈ c_participants c) && bool_decide (b ∈ c_participants c)
  && negb (bool_decide (c_status c = c_blocked)).

(** [createConversation] *)
Definition createConversation (newId : string) (errors : list string)
    (user : ReqUser) (participantId : string) (orderId gigId : option string)
    (db : DB) : DB * reply Conversation :=
  match errors with
  | _ :: _ => (db, Invalid errors)
  | [] =>
    match users db !! participantId with
    | None => (db, Fail 404 "Participant not found")
    | Some _ =>
      match List.find (between (ru_id user) participantId) (conversations db) with
      | Some existingConversation => (db, Ok 200 existingConversation)
      | None =>
        let conversation :=
          {| c_id := newId; c_participants := [ru_id user; participantId];
             c_lastMessage := None; c_lastMessageAt := None;
             c_unreadCount := ∅; c_order := orderId; c_gig := gigId;
             c_status := c_active |} in
        (set_conversations (fun l => (l ++ [conversation])%list) db, Ok 201 conversation)
      end
    end
  end.

(** The body of the [participants.forEach] callback of [sendMessage]. *)
Definition bump (me : string) (counts : gmap string Z) (participantId : string)
    : gmap string Z :=
  if negb (String.eqb participantId me)
  then
    let currentCount := default 0 (counts !! participantId) in
    <[participantId := currentCount + 1]> counts
  else counts.

Definition messageTypes : list string := ["text"; "image"; "file"; "order_update"].

(** The validators of [messageSchema] run by [message.save()]. *)
Definition message_ok (content messageType : string) : bool :=
  truthy content && (Z.of_nat (utf16_length content) <=? 2000)
  && bool_decide (messageType ∈ messageTypes).

(** [sendMessage] *)
Definition sendMessage (now : Z) (newId : string) (errors : list string)
    (user : ReqUser) (conversationId : string) (content messageType : string)
    (attachments : list string) (db : DB) : DB * reply Message :=
  match errors with
  | _ :: _ => (db, Invalid errors)
  | [] =>
    match findById conversationId (conversations db) with
    | None => (db, Fail 404 "Conversation not found")
    | Some conversation =>
      if negb (includes (ru_id user) conversation)
      then (db, Fail 403 "Not authorized to send messages in this conversation")
      else if bool_decide (c_status conversation = c_blocked)
      then (db, Fail 403 "Conversation is blocked")
      else
        let message :=
          {| m_id := newId; m_conversation := conversationId;
             m_sender := ru_id user; m_content := content;
             m_messageType := messageType; m_attachments := attachments;
             m_read := false; m_readAt := None; m_deleted := false |} in
        if negb (message_ok content messageType) then (db, Fail 500 "Server error")
        else
          let db1 := set_messages (fun l => (l ++ [message])%list) db in
          let conversation' :=
            {| c_id := c_id conversation;
               c_participants := c_participants conversation;
               c_lastMessage := Some newId;
               c_lastMessageAt := Some now;
               c_unreadCount :=
                 fold_left (bump (ru_id user)) (c_participants conversation)
                           (c_unreadCount conversation);
               c_order := c_order conversation; c_gig := c_gig conversation;
               c_status := c_status conversation |} in
          (set_conversations (save conversation') db1, Ok 201 message)
    end
  end.

(** The update of [Message.updateMany] in [markAsRead]. *)
Definition mark (now : Z) (conversationId me : string) (m : Message) : Message :=
  if String.eqb (m_conversation m) conversationId
     && negb (String.eqb (m_sender m) me) && negb (m_read m)
  then
    {| m_id := m_id m; m_conversation := m_conversation m;
       m_sender := m_sender m; m_content := m_content m;
       m_messageType := m_messageType m; m_attachments := m_attachments m;
       m_read := true; m_readAt := Some now; m_deleted := m_deleted m |}
  else m.

(** [markAsRead] *)
Definition markAsRead (now : Z) (user : ReqUser) (conversationId : string)
    (db : DB) : DB * reply string :=
  match findById conversationId (conversations db) with
  | None => (db, Fail 404 "Conversation not found")
  | Some conversation =>
    if negb (includes (ru_id user) conversation)
    then (db, Fail 403 "Not authorized to access this conversation")
    else
      let db1 := set_messages (List.map (mark now conversationId (ru_id user))) db in
      let conversation' :=
        {| c_id := c_id conversation;
           c_participants := c_participants conversation;
           c_lastMessage := c_lastMessage conversation;
           c_lastMessageAt := c_lastMessageAt conversation;
           c_unreadCount := <[ru_id user := 0]> (c_unreadCount conversation);
           c_order := c_order conversation; c_gig := c_gig conversation;
           c_status := c_status conversation |} in
      (set_conversations (save conversation') db1, Ok 200 "Messages marked as read")
  end.

(** The requests that write conversations or messages. *)
Inductive Request :=
| CreateConversation (newId : string) (errors : list string) (user : ReqUser)
    (participantId : string) (orderId gigId : option string)
| SendMessage (now : Z) (newId : string) (errors : list string) (user : ReqUser)
    (conversationId content messageType : string) (attachments : list string)
| MarkAsRead (now : Z) (user : ReqUser) (conversationId : string).

Definition handle (r : Request) (db : DB) : DB :=
  match r with
  | CreateConversation newId errors user participantId orderId gigId =>
      fst (createConversation newId errors user participantId orderId gigId db)
  | SendMessage now newId errors user conversationId content messageType attachments =>
      fst (sendMessage now newId errors user conversationId content messageType
             attachments db)
  | MarkAsRead now user conversationId =>
      fst (markAsRead now user conversationId db)
  end.

(** The unread counter that [getConversations] reports to [uid] for the
    conversation [id] (0 when there is no such conversation). *)
Definition unread_in (db : DB) (id uid : string) : Z :=
  match findById id (conversations db) with
  | Some c => unread c uid
  | None => 0
  end.

(** The conversations that are not blocked and include both [a] and [b]. *)
Definition open_between (a b : string) (db : DB) : list Conversation :=
  List.filter (between a b) (conversations db).

(** No two users share more than one conversation that is not blocked. *)
Definition one_per_pair (db : DB) : Prop :=
  ∀ a b, a ≠ b → (length (open_between a b db) ≤ 1)%nat.

Definition run (reqs : list Request) (db : DB) : DB :=
  fold_left (fun d r => handle r d) reqs db.

(** Every stored conversation has two participant entries. *)
Definition two_entries (db : DB) : Prop :=
  Forall (fun c => length (c_participants c) = 2%nat) (conversations db).

End Messaging.

(** ** Order threads (src/routes/messages.ts, src/models/Conversation.ts,
       src/models/Message.ts)

    The second message stack keeps one conversation per order.  Its
    [unreadCount] is a single number on the conversation.  The router
    writes conversations with [findOneAndUpdate] and [updateOne] only, for
    which the schema's [pre('save')] hook does not run.  The socket
    emission after the writes and the [populate] of the sender are left
    out: they do not touch the stored documents. *)

Module OrderThread.

Record TMessage := {
  tm_id : string;
  tm_content : string;
  tm_sender : string;
  tm_order : string;
  tm_readBy : list string;
  tm_attachments : list string
}.

Record TConversation := {
  tc_order : string;
  tc_participants : list string;
  tc_lastMessage : option string;
  tc_unreadCount : Z;
  tc_updatedAt : Z
}.

Record TDB := {
  t_conversations : list TConversation;
  t_messages : list TMessage
}.

Inductive treply (A : Type) :=
| TOk (code : Z) (data : A)             (* res.status(code).json(data) *)
| TError (code : Z) (message : string). (* res.status(code).json({ message }) *)

Arguments TOk {A} code data.
Arguments TError {A} code message.

(** [$addToSet] of one element *)
Definition addToSet (x : string) (l : list string) : list string :=
  if bool_decide (x ∈ l) then l else (l ++ [x])%list.

Definition for_order (orderId : string) (c : TConversation) : bool :=
  String.eqb (tc_order c) orderId.

(** The update document of the [findOneAndUpdate] in [router.post('/')] *)
Definition on_send (now : Z) (messageId senderId recipientId : string)
    (c : TConversation) : TConversation :=
  {| tc_order := tc_order c;
     tc_participants := addToSet recipientId (addToSet senderId (tc_participants c));
     tc_lastMessage := Some messageId;
     tc_unreadCount := tc_unreadCount c + 1;
     tc_updatedAt := now |}.

(** [findOneAndUpdate(..., { upsert: true, new: true })] *)
Definition upsert_on_send (now : Z) (messageId senderId recipientId orderId : string)
    (l : list TConversation) : list TConversation :=
  match List.find (for_order orderId) l with
  | Some _ => update_first (for_order orderId) (on_send now messageId senderId recipientId) l
  | None =>
    (l ++ [ on_send now messageId senderId recipientId
              {| tc_order := orderId; tc_participants := [];
                 tc_lastMessage := None; tc_unreadCount := 0;
                 tc_updatedAt := now |} ])%list
  end.

(** [router.post('/')]: send a message.  [senderId] is [req.user.id],
    [files] the uploaded attachments, and [recipientId] what the
    [recipientId] of the body casts to: [Some id], or [None] when it does
    not cast to an ObjectId.  The message is saved first (its content
    trimmed by the schema's setter); the conversation is updated
    afterwards, and a recipient that does not cast makes that update throw
    with the message already stored. *)
Definition post_message (now : Z) (newId senderId : string) (content : option string)
    (orderId : string) (recipientId : option string) (files : list string)
    (db : TDB) : TDB * treply TMessage :=
  let no_content :=
    match content with
    | Some s => negb (truthy s)
    | None => true
    end in
  if no_content && bool_decide (files = [])
  then (db, TError 400 "Message content or attachment is required")
  else
    let message :=
      {| tm_id := newId; tm_content := trim (default "" content);
         tm_sender := senderId; tm_order := orderId;
         tm_readBy := [senderId]; tm_attachments := files |} in
    (* await message.save() *)
    let db1 :=
      {| t_conversations := t_conversations db;
         t_messages := (t_messages db ++ [message])%list |} in
    match recipientId with
    | None => (db1, TError 500 "Error sending message")
    | Some recipient =>
      (* await Conversation.findOneAndUpdate(...) *)
      ({| t_conversations :=
            upsert_on_send now newId senderId recipient orderId (t_conversations db1);
          t_messages := t_messages db1 |},
       TOk 201 message)
    end.

(** [msg.readBy.includes(new Types.ObjectId(req.user.id))] on a lean
    document: [Array.prototype.includes] compares objects by identity, and
    the argument is a newly allocated object. *)
Definition includes_new_object (readBy : list string) (uid : string) : bool :=
  false.

(** [(parseInt(page) - 1) * parseInt(limit)], for numbers that are not
    negative; [None] when the product is negative, which [skip] refuses. *)
Definition skip_of (page limit : nat) : option nat :=
  if (page =? 0)%nat && (0 <? limit)%nat then None
  else Some ((page - 1) * limit)%nat.

(** The page of messages that [router.get('/')] loads: newest first,
    [skip] dropped, at most [limit + 1] kept, the extra one popped. *)
Definition page_of (orderId : string) (skip limit : nat) (l : list TMessage)
    : list TMessage * bool :=
  let found :=
    firstn (limit + 1)
      (skipn skip (rev (List.filter (fun m => String.eqb (tm_order m) orderId) l))) in
  let hasMore := (limit <? length found)%nat in
  (if hasMore then removelast found else found, hasMore).

(** The messages of the page that [me] did not send: those whose ids go
    into [unreadMessageIds]. *)
Definition others_of (me : string) (msgs : list TMessage) : list TMessage :=
  List.filter
    (fun msg => negb (includes_new_object (tm_readBy msg) me)
                && negb (String.eqb (tm_sender msg) me))
    msgs.

(** [$addToSet: { readBy: req.user.id }] on one message *)
Definition read_by (me : string) (m : TMessage) : TMessage :=
  {| tm_id := tm_id m; tm_content := tm_content m;
     tm_sender := tm_sender m; tm_order := tm_order m;
     tm_readBy := addToSet me (tm_readBy m);
     tm_attachments := tm_attachments m |}.

(** [router.get('/')]: fetch a page and mark it read.  A negative [skip]
    makes the query fail before anything is written. *)
Definition get_messages (me orderId : string) (page limit : nat)
    (db : TDB) : TDB * treply (list TMessage * bool) :=
  match skip_of page limit with
  | None => (db, TError 500 "Error fetching messages")
  | Some skip =>
    let '(msgs, hasMore) := page_of orderId skip limit (t_messages db) in
    let unreadMessageIds := List.map tm_id (others_of me msgs) in
    let db' :=
      match unreadMessageIds with
      | [] => db
      | _ :: _ =>
        {| t_messages :=
             List.map
               (fun m =>
                  if bool_decide (tm_id m ∈ unreadMessageIds) then read_by me m
                  else m)
               (t_messages db);
           t_conversations :=
             update_first (for_order orderId)
               (fun c =>
                  {| tc_order := tc_order c; tc_participants := tc_participants c;
                     tc_lastMessage := tc_lastMessage c;
                     tc_unreadCount :=
                       tc_unreadCount c - Z.of_nat (length unreadMessageIds);
                     tc_updatedAt := tc_updatedAt c |})
               (t_conversations db) |}
      end in
    (db', TOk 200 (rev msgs, hasMore))
  end.

(** The unread counter that [router.get('/conversations')] projects for
    the caller [uid]: the conversation's one [unreadCount], whoever asks. *)
Definition unread_in (db : TDB) (orderId uid : string) : Z :=
  match List.find (for_order orderId) (t_conversations db) with
  | Some c => tc_unreadCount c
  | None => 0
  end.

Definition participants_of (db : TDB) (orderId : string) : list string :=
  match List.find (for_order orderId) (t_conversations db) with
  | Some c => tc_participants c
  | None => []
  end.

End OrderThread.

(** ** Gig images (models/Gig.js) *)

Module GigImages.

Definition with_images (l : list Image) (g : Gig) : Gig :=
  {| g_title := g_title g; g_seller := g_seller g; g_status := g_status g;
     g_images := l; g_totalOrders := g_totalOrders g;
     g_totalEarnings := g_totalEarnings g |}.

Definition with_isPrimary (b : bool) (img : Image) : Image :=
  {| i_url := i_url img; i_filename := i_filename img; i_isPrimary := b |}.

(** [gigSchema.methods.addImage] *)
Definition addImage (imageData : Image) (g : Gig) : Gig :=
  let imageData' :=
    if (length (g_images g) =? 0)%nat then with_isPrimary true imageData
    else imageData in
  with_images (g_images g ++ [imageData']) g.

(** [this.images.forEach((img, index) => { img.isPrimary = index === imageIndex })] *)
Fixpoint mark_primary (index : Z) (imageIndex : Z) (l : list Image) : list Image :=
  match l with
  | [] => []
  | img :: r =>
    with_isPrimary (index =? imageIndex) img :: mark_primary (index + 1) imageIndex r
  end.

Definition valid_index (imageIndex : Z) (g : Gig) : bool :=
  (0 <=? imageIndex) && (imageIndex <? Z.of_nat (length (g_images g))).

(** [gigSchema.methods.setPrimaryImage]; [None] is the thrown
    'Invalid image index'. *)
Definition setPrimaryImage (imageIndex : Z) (g : Gig) : option Gig :=
  if valid_index imageIndex g
  then Some (with_images (mark_primary 0 imageIndex (g_images g)) g)
  else None.

(** [this.images[0].isPrimary = true] *)
Definition promote_first (l : list Image) : list Image :=
  match l with
  | [] => []
  | img :: r => with_isPrimary true img :: r
  end.

(** [gigSchema.methods.removeImage]; [None] is the thrown
    'Invalid image index'. *)
Definition removeImage (imageIndex : Z) (g : Gig) : option Gig :=
  if valid_index imageIndex g
  then
    let i := Z.to_nat imageIndex in
    match nth_error (g_images g) i with
    | None => None
    | Some removedImage =>
      (* this.images.splice(imageIndex, 1) *)
      let rest := (firstn i (g_images g) ++ skipn (S i) (g_images g))%list in
      let rest' :=
        if i_isPrimary removedImage && (0 <? length rest)%nat
        then promote_first rest
        else rest in
      Some (with_images rest' g)
    end
  else None.

Inductive ImageOp :=
| AddImage (imageData : Image)
| SetPrimaryImage (imageIndex : Z)
| RemoveImage (imageIndex : Z).

(** One call on a gig document; a call that throws leaves it as it was. *)
Definition apply_op (g : Gig) (op : ImageOp) : Gig :=
  match op with
  | AddImage imageData => addImage imageData g
  | SetPrimaryImage imageIndex => default g (setPrimaryImage imageIndex g)
  | RemoveImage imageIndex => default g (removeImage imageIndex g)
  end.

Definition run (ops : list ImageOp) (g : Gig) : Gig :=
  fold_left apply_op ops g.

(** Number of images flagged primary. *)
Definition primaries (l : list Image) : nat :=
  length (List.filter i_isPrimary l).

(** An image as [processUploadedFiles] builds it: [isPrimary: false]. *)
Definition uploaded (imageData : Image) : Prop :=
  i_isPrimary imageData = false.

Definition uploads_only (ops : list ImageOp) : Prop :=
  Forall (fun op => match op with AddImage img => uploaded img | _ => True end) ops.

End GigImages.

(** ** Account deletion (controllers/adminController.js) *)

Module Admin.

(** [Order.countDocuments({ $or: [{ buyer }, { seller }],
      status: { $in: ['pending', 'accepted', 'in_progress', 'delivered'] } })] *)
Definition activeOrders (uid : string) (db : DB) : nat :=
  length
    (List.filter
       (fun p : string * Order =>
          (String.eqb (o_buyer (snd p)) uid || String.eqb (o_seller (snd p)) uid)
          && bool_decide (o_status (snd p) ∈ [pending; accepted; in_progress; delivered]))
       (map_to_list (orders db))).

(** [Gig.countDocuments({ seller, status: 'active' })] *)
Definition activeGigs (uid : string) (db : DB) : nat :=
  length
    (List.filter
       (fun p : string * Gig =>
          String.eqb (g_seller (snd p)) uid
          && bool_decide (g_status (snd p) = g_active))
       (map_to_list (gigs db))).

(** [deleteUser] *)
Definition deleteUser (id : string) (db : DB) : DB * reply string :=
  match users db !! id with
  | None => (db, Fail 404 "User not found")
  | Some _ =>
    if (0 <? activeOrders id db)%nat || (0 <? activeGigs id db)%nat
    then (db, Fail 400 "Cannot delete user with active orders or gigs")
    else (set_users (delete id) db, Ok 200 "User deleted successfully")
  end.

End Admin.

(** ** Messages kept on the order (controllers/orderController.js) *)

Module OrderAccess.

(** The authorization test of [getOrderMessages] and [sendOrderMessage]:
    [req.user.role !== 'admin' && order.buyer.toString() !== req.user._id
     && order.seller.toString() !== req.user._id] *)
Definition refused (user : ReqUser) (order : Order) : bool :=
  negb (String.eqb (ru_role user) "admin")
  && str_strict_neq (o_buyer order) (ru__id user)
  && str_strict_neq (o_seller order) (ru__id user).

(** [getOrderMessages] *)
Definition getOrderMessages (user : ReqUser) (id : string) (db : DB)
    : reply (list OrderMessage) :=
  match orders db !! id with
  | None => Fail 404 "Order not found"
  | Some order =>
    if refused user order then Fail 403 "Not authorized to view this order"
    else Ok 200 (o_messages order)
  end.

(** [!content || content.trim().length === 0] *)
Definition blank (content : option string) : bool :=
  match content with
  | None => true
  | Some c => negb (truthy c) || (utf16_length (trim c) =? 0)%nat
  end.

(** The string is a sequence of white-space characters (possibly none). *)
Definition only_spaces (s : string) : Prop :=
  ∃ ws : list string,
    Forall (fun w => w ∈ white_space) ws ∧ s = fold_right String.append "" ws.

(** [sendOrderMessage]; the reply carries the stored message (the source
    adds the sender's name and picture to it). *)
Definition sendOrderMessage (now : Z) (user : ReqUser) (id : string)
    (content : option string) (db : DB) : DB * reply OrderMessage :=
  if blank content then (db, Fail 400 "Message content is required")
  else
    match orders db !! id with
    | None => (db, Fail 404 "Order not found")
    | Some order =>
      if refused user order
      then (db, Fail 403 "Not authorized to send messages to this order")
      else
        let message :=
          {| om_sender := toString (ru__id user);
             om_content := trim (default "" content);
             om_timestamp := now; om_read := false |} in
        let order' :=
          {| o_gig := o_gig order; o_buyer := o_buyer order;
             o_seller := o_seller order; o_amount := o_amount order;
             o_status := o_status order;
             o_requirements := o_requirements order;
             o_deliveryMessage := o_deliveryMessage order;
             o_deliveryDate := o_deliveryDate order;
             o_completedDate := o_completedDate order;
             o_cancelledDate := o_cancelledDate order;
             o_cancelledBy := o_cancelledBy order;
             o_cancellationReason := o_cancellationReason order;
             o_messages := (o_messages order ++ [message])%list |} in
        (set_orders (insert id order') db, Ok 200 message)
    end.

End OrderAccess.

(** ** Editing a review (controllers/reviewController.js) *)

Module ReviewEdits.

(** [updateReview]: [rating] and [comment] are [None] when the body leaves
    them undefined. *)
Definition updateReview (errors : list string) (user : ReqUser) (id : string)
    (rating : option Z) (comment : option string) (db : DB) : DB * reply Review :=
  match errors with
  | _ :: _ => (db, Invalid errors)
  | [] =>
    match Reviews.findById id (reviews db) with
    | None => (db, Fail 404 "Review not found")
    | Some review =>
      if negb (String.eqb (r_reviewer review) (ru_id user))
      then (db, Fail 403 "Not authorized to update this review")
      else
        let review' :=
          {| r_id := r_id review; r_order := r_order review;
             r_gig := r_gig review; r_reviewer := r_reviewer review;
             r_reviewee := r_reviewee review;
             r_rating := default (r_rating review) rating;
             r_comment := default (r_comment review) comment;
             r_status := r_status review |} in
        (* review.save() runs the schema's validators *)
        if negb (Reviews.schema_ok (r_rating review') (r_comment review'))
        then (db, Fail 500 "Server error")
        else
          (set_reviews
             (update_first (fun r => String.eqb (r_id r) id) (fun _ => review')) db,
           Ok 200 review')
    end
  end.

(** The requests that write reviews. *)
Inductive Request :=
| Create (newId : string) (errors : list string) (user : ReqUser)
    (orderId : string) (rating : Z) (comment : string)
| Update (errors : list string) (user : ReqUser) (id : string)
    (rating : option Z) (comment : option string)
| Delete (user : ReqUser) (id : string).

Definition handle (r : Request) (db : DB) : DB :=
  match r with
  | Create newId errors user orderId rating comment =>
      fst (Reviews.createReview newId errors user orderId rating comment db)
  | Update errors user id rating comment =>
      fst (updateReview errors user id rating comment db)
  | Delete user id => fst (Reviews.deleteReview user id db)
  end.

Definition run (reqs : list Request) (db : DB) : DB :=
  fold_left (fun d r => handle r d) reqs db.

End ReviewEdits.

(** ** Accounts (controllers/authController.js, models/User.js) *)

Module Accounts.

Import Auth.

(** [UserSchema.role.enum] *)
Definition roles : list string := ["client"; "freelancer"; "admin"].

(** No two stored users share an email (the unique index on [email]). *)
Definition emails_unique (us : gmap string User) : Prop :=
  ∀ i j u v, us !! i = Some u → us !! j = Some v → u_email u = u_email v → i = j.

(** The unique index refuses an insert whose email is already stored. *)
Definition email_taken (email : string) (us : gmap string User) : bool :=
  match Auth.findOne_email email us with
  | Some _ => true
  | None => false
  end.

Record Profile := {
  p__id : string;
  p_name : string;
  p_email : string;
  p_role : string
}.

Inductive RegisterReply :=
| Registered (cookie : Auth.Token) (user : Profile)
                      (* res.cookie('token', token, ..); res.status(201).json({ user }) *)
| RegisterRejected (code : Z) (msg : string)   (* res.status(code).json({ msg }) *)
| RegisterInvalid (errors : list string).      (* res.status(400).json({ errors }) *)

Section Passwords.

(** [String.prototype.toLowerCase], [bcrypt.hash(password, 10)] with the
    salt it draws, [bcrypt.compare], [process.env.JWT_SECRET], and whether
    Mongoose applies the schema's setters to the email of a query. *)
Variable toLowerCase : string -> string.
Variable bcrypt_hash : string -> string -> string.
Variable bcrypt_compare : string -> string -> bool.
Variable JWT_SECRET : string.
Variable runSettersOnQuery : bool.

Definition query_email (email : string) : string :=
  if runSettersOnQuery then stored_email toLowerCase email else email.

(** [register] *)
Definition register (now : Z) (newId salt : string) (errors : list string)
    (name email password role : string) (db : DB) : DB * RegisterReply :=
  match errors with
  | _ :: _ => (db, RegisterInvalid errors)
  | [] =>
    match Auth.findOne_email (query_email email) (users db) with
    | Some _ => (db, RegisterRejected 400 "Email already exists")
    | None =>
      (* new User({ name, email, password, role }) applies the setters *)
      let name' := trim name in
      let email' := stored_email toLowerCase email in
      (* user.save(): required fields and the role enum *)
      if negb (truthy name' && truthy email' && truthy password
               && bool_decide (role ∈ roles))
      then (db, RegisterRejected 500 "Server error")
      else
        (* the pre('save') hook hashes the password; the insert then
           meets the unique index *)
        let user :=
          {| u_name := name'; u_email := email';
             u_password := bcrypt_hash salt password; u_role := role;
             u_profilePicture := ""; u_totalEarnings := 0; u_totalOrders := 0;
             u_isActive := true; u_isSuspended := false |} in
        if email_taken email' (users db)
        then (db, RegisterRejected 500 "Server error")
        else
          (set_users (insert newId user) db,
           Registered (Auth.generateToken JWT_SECRET now newId user)
             {| p__id := newId; p_name := name'; p_email := email';
                p_role := role |})
    end
  end.

(** [changePassword]; the reply is the status and the [msg]. *)
Definition changePassword (salt : string) (user : ReqUser)
    (currentPassword newPassword : option string) (db : DB) : DB * (Z * string) :=
  match currentPassword, newPassword with
  | Some current, Some new =>
    if negb (truthy current) || negb (truthy new)
    then (db, (400, "Both current and new password are required"))
    else
      match users db !! ru_id user with
      | None => (db, (404, "User not found"))
      | Some u =>
        if negb (bcrypt_compare current (u_password u))
        then (db, (400, "Current password is incorrect"))
        else
          (* user.password = newPassword; the hook hashes it when the
             field is modified, that is when the value differs *)
          let password' :=
            if String.eqb new (u_password u) then u_password u
            else bcrypt_hash salt new in
          let u' :=
            {| u_name := u_name u; u_email := u_email u;
               u_password := password'; u_role := u_role u;
               u_profilePicture := u_profilePicture u;
               u_totalEarnings := u_totalEarnings u;
               u_totalOrders := u_totalOrders u;
               u_isActive := u_isActive u;
               u_isSuspended := u_isSuspended u |} in
          (set_users (insert (ru_id user) u') db,
           (200, "Password updated successfully"))
      end
  | _, _ => (db, (400, "Both current and new password are required"))
  end.

End Passwords.

End Accounts.

(** ** Rate limiting (middlewares/auth.js) *)

Module Limiter.

(** The key of a request: [req.user ? req.user._id.toString() : req.ip] *)
Definition key_of (user : option ReqUser) (ip : string) : string :=
  match user with
  | Some u => toString (ru__id u)
  | None => ip
  end.

(** One call of the middleware returned by [rateLimit(maxRequests,
    windowMs)]: [requests] is the [Map] of the closure; the boolean tells
    whether [next()] was called (otherwise the reply is 429). *)
Definition rateLimit (maxRequests : nat) (windowMs : Z) (key : string) (now : Z)
    (requests : gmap string (list Z)) : gmap string (list Z) * bool :=
  let windowStart := now - windowMs in
  let requests1 :=
    match requests !! key with
    | Some _ => requests
    | None => <[key := []]> requests
    end in
  let userRequests := default [] (requests1 !! key) in
  let recentRequests := List.filter (fun time => windowStart <? time) userRequests in
  if (maxRequests <=? length recentRequests)%nat
  then (requests1, false)
  else (<[key := (recentRequests ++ [now])%list]> requests1, true).

(** A sequence of requests, each with its key and its time; the result is
    the map afterwards and the requests that were let through, in order. *)
Fixpoint serve (maxRequests : nat) (windowMs : Z) (events : list (string * Z))
    (requests : gmap string (list Z)) (passed : list (string * Z))
    : gmap string (list Z) * list (string * Z) :=
  match events with
  | [] => (requests, passed)
  | (key, now) :: rest =>
    let '(requests', ok) := rateLimit maxRequests windowMs key now requests in
    serve maxRequests windowMs rest requests'
      (if ok then (passed ++ [(key, now)])%list else passed)
  end.

(** The times at which requests of [key] were let through. *)
Definition times_of (key : string) (passed : list (string * Z)) : list Z :=
  List.map snd (List.filter (fun e => String.eqb (fst e) key) passed).

(** How many of the times are later than [now - windowMs]: the length of
    [recentRequests] when [times] is the stored list. *)
Definition recent (windowMs now : Z) (times : list Z) : nat :=
  length (List.filter (fun time => now - windowMs <? time) times).

(** How many of the times lie in the window of length [windowMs] that
    ends at [t]. *)
Definition in_window (windowMs t : Z) (times : list Z) : nat :=
  length (List.filter (fun time => (t - windowMs <? time) && (time <=? t)) times).

(** The stored lists keep what matters of the requests let through: from
    [last] on, the recent entries of a key's list are the recent ones
    among the times at which the key was let through. *)
Definition tracks (windowMs last : Z) (requests : gmap string (list Z))
    (passed : list (string * Z)) : Prop :=
  ∀ key t, last ≤ t →
    List.filter (fun time => t - windowMs <? time) (default [] (requests !! key))
    = List.filter (fun time => t - windowMs <? time) (times_of key passed).

(** The times of the requests do not go backwards. *)
Fixpoint ascending (last : Z) (events : list (string * Z)) : Prop :=
  match events with
  | [] => True
  | (_, now) :: rest => last ≤ now ∧ ascending now rest
  end.

End Limiter.

(** ** Gig image routes (middlewares/auth.js, middlewares/upload.js,
       controllers/gigController.js, models/Gig.js) *)

Module GigRoutes.

(** [canModifyGig] *)
Definition canModifyGig (user : ReqUser) (id : string) (db : DB) : guard Gig :=
  match gigs db !! id with
  | None => Reject 404 "Gig not found"
  | Some gig =>
    if negb (String.eqb (g_seller gig) (toString (ru__id user)))
       && negb (String.eqb (ru_role user) "admin")
    then Reject 403 "Not authorized to modify this gig"
    else Next gig
  end.

(** The ownership test of the image handlers:
    [gig.seller.toString() !== req.user._id && req.user.role !== 'admin'] *)
Definition not_owner (user : ReqUser) (gig : Gig) : bool :=
  str_strict_neq (g_seller gig) (ru__id user)
  && negb (String.eqb (ru_role user) "admin").

(** A file as multer hands it over. *)
Record File := {
  f_filename : string;
  f_originalname : string;
  f_size : Z;
  f_mimetype : string
}.

(** [processUploadedFiles], on the fields that [Image] keeps *)
Definition processUploadedFiles (files : list File) : list Image :=
  List.map
    (fun file =>
       {| i_url := "/uploads/" ++ f_filename file;
          i_filename := f_filename file; i_isPrimary := false |})
    files.

(** [addImages] *)
Definition addImages (user : ReqUser) (id : string) (files : list File)
    (db : DB) : DB * reply (list Image) :=
  match gigs db !! id with
  | None => (db, Fail 404 "Gig not found")
  | Some gig =>
    if not_owner user gig then (db, Fail 403 "Not authorized to modify this gig")
    else
      match files with
      | [] => (db, Fail 400 "No images provided")
      | _ :: _ =>
        let newImages := processUploadedFiles files in
        let gig' := GigImages.with_images (g_images gig ++ newImages) gig in
        (set_gigs (insert id gig') db, Ok 200 (g_images gig'))
      end
  end.

(** [setPrimaryImage]; [imageIndex] is the number in the body, [None] when
    it is undefined. *)
Definition setPrimaryImage (user : ReqUser) (id : string) (imageIndex : option Z)
    (db : DB) : DB * reply (list Image) :=
  match imageIndex with
  | None => (db, Fail 400 "Valid image index required")
  | Some i =>
    if i <? 0 then (db, Fail 400 "Valid image index required")
    else
      match gigs db !! id with
      | None => (db, Fail 404 "Gig not found")
      | Some gig =>
        if not_owner user gig then (db, Fail 403 "Not authorized to modify this gig")
        else if Z.of_nat (length (g_images gig)) <=? i
        then (db, Fail 400 "Invalid image index")
        else
          match GigImages.setPrimaryImage i gig with
          | None => (db, Fail 500 "Server error")
          | Some gig' => (set_gigs (insert id gig') db, Ok 200 (g_images gig'))
          end
      end
  end.

(** [removeImage]; [index] is [parseInt(req.params.imageIndex)], [None]
    when that is NaN.  The deletion of the file from the disk is left out. *)
Definition removeImage (user : ReqUser) (id : string) (index : option Z)
    (db : DB) : DB * reply (list Image) :=
  match index with
  | None => (db, Fail 400 "Valid image index required")
  | Some i =>
    if i <? 0 then (db, Fail 400 "Valid image index required")
    else
      match gigs db !! id with
      | None => (db, Fail 404 "Gig not found")
      | Some gig =>
        if not_owner user gig then (db, Fail 403 "Not authorized to modify this gig")
        else if Z.of_nat (length (g_images gig)) <=? i
        then (db, Fail 400 "Invalid image index")
        else
          match GigImages.removeImage i gig with
          | None => (db, Fail 500 "Server error")
          | Some gig' => (set_gigs (insert id gig') db, Ok 200 (g_images gig'))
          end
      end
  end.

(** [PATCH /api/gigs/:id/images/primary]: [canModifyGig], then the
    handler (the route's validator chain is never consulted). *)
Definition patch_primary (user : ReqUser) (id : string) (imageIndex : option Z)
    (db : DB) : DB * reply (list Image) :=
  match canModifyGig user id db with
  | Reject code msg => (db, Fail code msg)
  | Next _ => setPrimaryImage user id imageIndex db
  end.

(** [DELETE /api/gigs/:id/images/:imageIndex] *)
Definition delete_image (user : ReqUser) (id : string) (index : option Z)
    (db : DB) : DB * reply (list Image) :=
  match canModifyGig user id db with
  | Reject code msg => (db, Fail code msg)
  | Next _ => removeImage user id index db
  end.

(** The virtual [primaryImage]: the url of the first image flagged
    primary, else of the first image, else null. *)
Definition primaryImage (g : Gig) : option string :=
  match List.find i_isPrimary (g_images g) with
  | Some primary => Some (i_url primary)
  | None =>
    match g_images g with
    | img :: _ => Some (i_url img)
    | [] => None
    end
  end.

(** The virtual [imageCount] *)
Definition imageCount (g : Gig) : nat := length (g_images g).

End GigRoutes.

(** ** Marking an order thread as read (src/routes/messages.ts) *)

Module ThreadRead.

Import OrderThread.

(** The filter [{ order: orderId, readBy: { $ne: me }, sender: { $ne: me } }] *)
Definition unread_by (me orderId : string) (m : TMessage) : bool :=
  String.eqb (tm_order m) orderId
  && negb (bool_decide (me ∈ tm_readBy m))
  && negb (String.eqb (tm_sender m) me).

(** [router.post('/mark-as-read')]; [orderId] and [messageIds] are [None]
    when the body leaves them out. *)
Definition mark_as_read (me : string) (orderId : option string)
    (messageIds : option (list string)) (db : TDB) : TDB * treply bool :=
  match orderId, messageIds with
  | Some order, Some (id :: ids) =>
    if negb (truthy order) then (db, TError 400 "Invalid request")
    else
      let messages' :=
        List.map
          (fun m =>
             if bool_decide (tm_id m ∈ id :: ids) && negb (String.eqb (tm_sender m) me)
             then {| tm_id := tm_id m; tm_content := tm_content m;
                     tm_sender := tm_sender m; tm_order := tm_order m;
                     tm_readBy := addToSet me (tm_readBy m);
                     tm_attachments := tm_attachments m |}
             else m)
          (t_messages db) in
      let unreadCount := Z.of_nat (length (List.filter (unread_by me order) messages')) in
      ({| t_messages := messages';
          t_conversations :=
            update_first (for_order order)
              (fun c =>
                 {| tc_order := tc_order c; tc_participants := tc_participants c;
                    tc_lastMessage := tc_lastMessage c;
                    tc_unreadCount := unreadCount;
                    tc_updatedAt := tc_updatedAt c |})
              (t_conversations db) |},
       TOk 200 true)
  | _, _ => (db, TError 400 "Invalid request")
  end.

(** The number of messages of [orderId] on page [page] that [me] did not
    send (pages are numbered from 1). *)
Definition others_on_page (me orderId : string) (page limit : nat) (db : TDB) : nat :=
  length
    (List.filter (fun m => negb (String.eqb (tm_sender m) me))
       (fst (page_of orderId ((page - 1) * limit) limit (t_messages db)))).

(** The requests of the order-thread router that write to the store. *)
Inductive Request :=
| Post (now : Z) (newId senderId : string) (content : option string)
    (orderId : string) (recipientId : option string) (files : list string)
| Fetch (me orderId : string) (page limit : nat)
| MarkRead (me : string) (orderId : option string) (messageIds : option (list string)).

Definition handle (r : Request) (db : TDB) : TDB :=
  match r with
  | Post now newId senderId content orderId recipientId files =>
      fst (post_message now newId senderId content orderId recipientId files db)
  | Fetch me orderId page limit => fst (get_messages me orderId page limit db)
  | MarkRead me orderId messageIds => fst (mark_as_read me orderId messageIds db)
  end.

Definition run (reqs : list Request) (db : TDB) : TDB :=
  fold_left (fun d r => handle r d) reqs db.

(** No order has two conversations, no conversation lists a participant
    twice, and every message has its sender among its readers. *)
Definition well_formed (db : TDB) : Prop :=
  NoDup (List.map tc_order (t_conversations db))
  ∧ Forall (fun c => NoDup (tc_participants c)) (t_conversations db)
  ∧ ∀ m, m ∈ t_messages db → tm_sender m ∈ tm_readBy m.

(** Every message has the conversation of its order, with its sender
    among the participants. *)
Definition threaded (db : TDB) : Prop :=
  ∀ m, m ∈ t_messages db →
    ∃ c, List.find (for_order (tm_order m)) (t_conversations db) = Some c
         ∧ tm_sender m ∈ tc_participants c.

(** The recipient of a post casts to an ObjectId. *)
Definition castable (r : Request) : Prop :=
  match r with
  | Post _ _ _ _ _ recipientId _ => is_Some recipientId
  | _ => True
  end.

End ThreadRead.

(** ** Unread messages of a conversation (controllers/messageController.js) *)

Module Inbox.

Import Messaging.

(** The messages of conversation [cid] that [p] did not send and that are
    not read: what [markAsRead] by [p] would update. *)
Definition unread_messages (db : DB) (cid p : string) : nat :=
  length
    (List.filter
       (fun m => String.eqb (m_conversation m) cid
                 && negb (String.eqb (m_sender m) p) && negb (m_read m))
       (messages db)).

(** Every message belongs to a stored conversation and was sent by one of
    its participants; every conversation has two participant entries, and
    the counter it keeps for a participant is the number of that
    participant's unread messages. *)
Definition consistent (db : DB) : Prop :=
  (∀ m, m ∈ messages db →
     ∃ c, findById (m_conversation m) (conversations db) = Some c
          ∧ m_sender m ∈ c_participants c)
  ∧ (∀ cid c, findById cid (conversations db) = Some c →
       length (c_participants c) = 2%nat
       ∧ ∀ p, p ∈ c_participants c →
           unread c p = Z.of_nat (unread_messages db cid p)).

End Inbox.

(** ** A small marketplace, used to run the handlers on concrete requests *)

Module Sample.

Definition alice : string := "64b0000000000000000000a1".   (* a client *)
Definition bob : string := "64b0000000000000000000b2".     (* a freelancer *)
Definition carol : string := "64b0000000000000000000c3".   (* a suspended client *)
Definition gig1 : string := "64b000000000000000000101".
Definition order1 : string := "64b000000000000000000201".
Definition order2 : string := "64b000000000000000000202".

Definition mk_user (name email hash role : string) (suspended : bool) : User :=
  {| u_name := name; u_email := email; u_password := hash; u_role := role;
     u_profilePicture := ""; u_totalEarnings := 0; u_totalOrders := 0;
     u_isActive := true; u_isSuspended := suspended |}.

Definition alice_doc : User := mk_user "Alice" "alice@example.com" "hash:pw-a" "client" false.
Definition bob_doc : User := mk_user "Bob" "bob@example.com" "hash:pw-b" "freelancer" false.
Definition carol_doc : User := mk_user "Carol" "carol@example.com" "hash:pw-c" "client" true.

Definition logo_gig : Gig :=
  {| g_title := "Logo Design"; g_seller := bob; g_status := g_active;
     g_images := []; g_totalOrders := 0; g_totalEarnings := 0 |}.

Definition mk_order (s : OrderStatus) : Order :=
  {| o_gig := gig1; o_buyer := alice; o_seller := bob; o_amount := 50;
     o_status := s; o_requirements := ["Need a modern logo"];
     o_deliveryMessage := None; o_deliveryDate := None;
     o_completedDate := None; o_cancelledDate := None;
     o_cancelledBy := None; o_cancellationReason := None;
     o_messages := [] |}.

(** [order1] is still pending, [order2] has been delivered. *)
Definition db0 : DB :=
  {| users := <[alice := alice_doc]> (<[bob := bob_doc]> (<[carol := carol_doc]> ∅));
     gigs := <[gig1 := logo_gig]> ∅;
     orders := <[order1 := mk_order pending]> (<[order2 := mk_order delivered]> ∅);
     reviews := []; conversations := []; messages := [] |}.

Definition order3 : string := "64b000000000000000000203".

(** The order that [createOrder] builds when Alice orders [gig1] for 50. *)
Definition new_order : Order :=
  {| o_gig := gig1; o_buyer := alice; o_seller := bob; o_amount := 50;
     o_status := pending; o_requirements := ["A poster"];
     o_deliveryMessage := None; o_deliveryDate := None;
     o_completedDate := None; o_cancelledDate := None;
     o_cancelledBy := None; o_cancellationReason := None;
     o_messages := [] |}.

(** Alice as [protect] attaches her to the request. *)
Definition alice_req : ReqUser := user_document alice alice_doc.
Definition bob_req : ReqUser := user_document bob bob_doc.

(** A caller object whose [_id] is already a string. *)
Definition alice_plain : ReqUser :=
  {| ru__id := JString alice; ru_id := alice; ru_role := "client"; ru_name := "Alice" |}.

(** A stand-in for bcrypt used only to run [login]: the hash of [p] is
    ["hash:" ++ p]. *)
Definition toy_compare (password hash : string) : bool :=
  String.eqb hash ("hash:" ++ password).

Definition secret : string := "s3cr3t".

(** [String.prototype.toLowerCase] for strings whose capital letters are
    ASCII letters, as in the addresses used here. *)
Definition lower_ascii (a : ascii) : ascii :=
  let n := nat_of_ascii a in
  if ((65 <=? n) && (n <=? 90))%nat then ascii_of_nat (n + 32) else a.

Fixpoint toy_lower (s : string) : string :=
  match s with
  | EmptyString => EmptyString
  | String a r => String (lower_ascii a) (toy_lower r)
  end.

(** The matching stand-in for [bcrypt.hash]. *)
Definition toy_hash (salt password : string) : string := "hash:" ++ password.

(** [db0] after Alice has ordered [gig1]. *)
Definition db1 : DB := set_orders (insert order3 new_order) db0.

Definition review1 : string := "64b000000000000000000301".

(** [db0] after [order2] has been completed. *)
Definition db_completed : DB := set_orders (insert order2 (mk_order completed)) db0.

Definition alice_review : Review :=
  {| r_id := review1; r_order := order2; r_gig := gig1; r_reviewer := alice;
     r_reviewee := bob; r_rating := 5; r_comment := "Great work!";
     r_status := r_pending |}.

Definition db_reviewed : DB :=
  set_reviews (fun l => (l ++ [alice_review])%list) db_completed.

Definition chat1 : string := "64b000000000000000000401".
Definition msg1 : string := "64b000000000000000000501".
Definition msg2 : string := "64b000000000000000000502".

(** The conversation that [createConversation] stores when Alice opens a
    conversation with Bob. *)
Definition chat : Conversation :=
  {| c_id := chat1; c_participants := [alice; bob]; c_lastMessage := None;
     c_lastMessageAt := None; c_unreadCount := ∅; c_order := None;
     c_gig := None; c_status := c_active |}.

Definition db_chat : DB := set_conversations (fun l => (l ++ [chat])%list) db0.

(** The second message stack before any message, and after Alice's first
    message to Bob in the thread of [order1]. *)
Definition tdb0 : OrderThread.TDB :=
  {| OrderThread.t_conversations := []; OrderThread.t_messages := [] |}.

Definition tdb1 : OrderThread.TDB :=
  fst (OrderThread.post_message 1000 msg1 alice (Some "Hi Bob") order1 (Some bob) []
         tdb0).

(** Dave, a client without gigs or orders, and the conversation Alice
    opens with him. *)
Definition dave : string := "64b0000000000000000000d4".
Definition dave_doc : User := mk_user "Dave" "dave@example.com" "hash:pw-d" "client" false.
Definition chat2 : string := "64b000000000000000000402".

Definition chat_dave : Conversation :=
  {| c_id := chat2; c_participants := [alice; dave]; c_lastMessage := None;
     c_lastMessageAt := None; c_unreadCount := ∅; c_order := None;
     c_gig := None; c_status := c_active |}.

Definition db_dave : DB := set_users (insert dave dave_doc) db0.

(** [db_dave] after Alice has opened the conversation with Dave and an
    admin has then deleted Dave's account. *)
Definition db_dave_gone : DB :=
  fst (Admin.deleteUser dave
         (fst (Messaging.createConversation chat2 [] alice_req dave None None db_dave))).



(** [tdb0] after Alice has sent two messages in the thread of [order1]. *)
Definition tdb2 : OrderThread.TDB :=
  fst (OrderThread.post_message 1001 msg2 alice (Some "Are you there?") order1
         (Some bob) [] tdb1).

(** Alice reviews [order2], lowers the rating, and asks to review the
    order a second time. *)
Definition review_requests : list ReviewEdits.Request :=
  [ReviewEdits.Create review1 [] alice_req order2 5 "Great work!";
   ReviewEdits.Update [] alice_req review1 (Some 4) None;
   ReviewEdits.Create "64b000000000000000000302" [] alice_req order2 1 "Changed my mind"].

(** Two uploaded files as [processUploadedFiles] describes them. *)
Definition front : Image :=
  {| i_url := "/uploads/front.png"; i_filename := "front.png"; i_isPrimary := false |}.
Definition back : Image :=
  {| i_url := "/uploads/back.png"; i_filename := "back.png"; i_isPrimary := false |}.

Definition image_ops : list GigImages.ImageOp :=
  [GigImages.AddImage front; GigImages.AddImage back;
   GigImages.SetPrimaryImage 1; GigImages.RemoveImage 1].

(** [gig1] with two images, the first one primary. *)
Definition gallery : Gig :=
  GigImages.with_images [GigImages.with_isPrimary true front; back] logo_gig.

Definition db_gallery : DB := set_gigs (insert gig1 gallery) db0.

(** An administrator, as [protect] attaches one. *)
Definition root_req : ReqUser :=
  {| ru__id := JObjectId "64b0000000000000000000f6";
     ru_id := "64b0000000000000000000f6"; ru_role := "admin"; ru_name := "Root" |}.

(** Alice opens a conversation with Bob and writes to him, Bob answers
    and then marks the conversation as read. *)
Definition chat_requests : list Messaging.Request :=
  [Messaging.CreateConversation chat1 [] alice_req bob None None;
   Messaging.SendMessage 1000 msg1 [] alice_req chat1 "Hi Bob" "text" [];
   Messaging.SendMessage 1001 msg2 [] bob_req chat1 "Hello Alice" "text" [];
   Messaging.MarkAsRead 2000 bob_req chat1].

(** Alice writes twice in the thread of [order1], Bob answers, opens the
    thread and marks her first message as read. *)
Definition thread_requests : list ThreadRead.Request :=
  [ThreadRead.Post 1000 msg1 alice (Some "Hi Bob") order1 (Some bob) [];
   ThreadRead.Post 1001 msg2 alice (Some "Are you there?") order1 (Some bob) [];
   ThreadRead.Post 1002 "64b000000000000000000503" bob (Some "Yes") order1 (Some alice) [];
   ThreadRead.Fetch bob order1 1 20;
   ThreadRead.MarkRead bob (Some order1) (Some [msg1])].

(** Two files as multer hands them over. *)
Definition uploads : list GigRoutes.File :=
  [{| GigRoutes.f_filename := "a.png"; GigRoutes.f_originalname := "front.png";
      GigRoutes.f_size := 10; GigRoutes.f_mimetype := "image/png" |};
   {| GigRoutes.f_filename := "b.png"; GigRoutes.f_originalname := "back.png";
      GigRoutes.f_size := 20; GigRoutes.f_mimetype := "image/png" |}].

(** Requests of two callers, with the times at which they arrive. *)
Definition visits : list (string * Z) :=
  [(alice, 0); (alice, 10); (alice, 20); (bob, 30); (alice, 1005); (alice, 1011)].

End Sample.

(** * Properties *)

(** ** Searching and updating collections *)

Section ListFacts.

Context {A : Type}.

Lemma find_None_filter (p : A → bool) (l : list A) :
  List.find p l = None → List.filter p l = [].
Proof.
  induction l as [| x l IH]; cbn; [done |].
  destruct (p x); [done | exact IH].
Qed.

Lemma find_app_Some (p : A → bool) (l k : list A) (x : A) :
  List.find p l = Some x → List.find p (l ++ k) = Some x.
Proof.
  induction l as [| y l IH]; cbn; [done |].
  destruct (p y); [done | exact IH].
Qed.

Lemma find_app_None (p : A → bool) (l k : list A) :
  List.find p l = None → List.find p (l ++ k) = List.find p k.
Proof.
  induction l as [| y l IH]; cbn; [done |].
  destruct (p y); [done | exact IH].
Qed.

(** After the replacement the search finds the replaced document. *)
Lemma find_update_first (p : A → bool) (f : A → A) (l : list A) (x : A) :
  List.find p l = Some x → p (f x) = true →
  List.find p (update_first p f l) = Some (f x).
Proof.
  intros Hf Hp. induction l as [| y l IH]; cbn in *; [done |].
  destruct (p y) eqn:Hy.
  - injection Hf as ->. cbn. by rewrite Hp.
  - cbn. rewrite Hy. by apply IH.
Qed.

(** Replacing the first match by a document on which [q] gives the same
    answer does not change how many documents satisfy [q]. *)
Lemma filter_update_first (p q : A → bool) (f : A → A) (l : list A) :
  (∀ x, List.find p l = Some x → q (f x) = q x) →
  length (List.filter q (update_first p f l)) = length (List.filter q l).
Proof.
  induction l as [| y l IH]; cbn; [done |]. intros Hq.
  destruct (p y) eqn:Hy.
  - cbn. rewrite (Hq y eq_refl). by destruct (q y).
  - cbn. destruct (q y); cbn; rewrite IH; done.
Qed.

(** A property of all documents survives the replacement of the first
    match by a document that has it. *)
Lemma Forall_update_first (P : A → Prop) (p : A → bool) (f : A → A) (l : list A) :
  Forall P l → (∀ x, List.find p l = Some x → P (f x)) →
  Forall P (update_first p f l).
Proof.
  induction l as [| y l IH]; cbn; [done |]. intros Hall Hf.
  apply Forall_cons in Hall as [Hy Hl].
  destruct (p y); apply Forall_cons; split; auto.
Qed.

End ListFacts.

(** ** Order lifecycle *)

Section OrderFacts.

Import Orders.

Lemma parse_status_name (v : OrderStatus) : parse_status (status_name v) = Some v.
Proof. by destruct v. Qed.

Lemma validate_status_name (v : OrderStatus) :
  v ≠ disputed → validate_status (status_name v) = [].
Proof. destruct v; intros H; try done. Qed.

(** The document [protect] attaches never passes a strict comparison of
    its [_id] with a string. *)
Lemma user_document_strict_neq (s uid : string) (u : User) :
  str_strict_neq s (ru__id (user_document uid u)) = true.
Proof. reflexivity. Qed.

(** What [updateOrderStatus] does for a caller that passes its
    authorization check and a status the schema knows. *)
Lemma updateOrderStatus_authorized (now : Z) (user : ReqUser) (id : string)
    (v : OrderStatus) (message : option string) (db : DB) (o : Order) :
  orders db !! id = Some o →
  ru_role user = "admin" ∨ o_buyer o = toString (ru__id user)
    ∨ o_seller o = toString (ru__id user) →
  ∃ o', updateOrderStatus now [] user id (status_name v) message db
          = (set_orders (insert id o') db, Ok 200 o')
        ∧ o_status o' = v.
Proof.
  intros Ho Hauth. unfold updateOrderStatus. rewrite Ho.
  assert (negb (ru_role user =? "admin")%string
          && negb (o_buyer o =? toString (ru__id user))%string
          && negb (o_seller o =? toString (ru__id user))%string = false) as ->.
  { destruct Hauth as [-> | [-> | ->]].
    - reflexivity.
    - rewrite String.eqb_refl. by rewrite andb_false_r.
    - rewrite String.eqb_refl. by rewrite andb_false_r. }
  rewrite parse_status_name. eexists. split; [reflexivity |].
  by destruct (status_name v =? "completed")%string, (has_text message).
Qed.

Lemma authorizeRoles_member (roles : list string) (user : ReqUser) :
  ru_role user ∈ roles → Auth.authorizeRoles roles user = Next tt.
Proof. intros H. unfold Auth.authorizeRoles. by rewrite bool_decide_eq_true_2. Qed.

(** A reply of [completeOrder] other than success leaves the order
    collection as it was. *)
Lemma completeOrder_cases (now : Z) (user : ReqUser) (id : string) (db db' : DB)
    (r : reply Order) (o : Order) :
  orders db !! id = Some o →
  completeOrder now user id db = (db', r) →
  (str_strict_neq (o_buyer o) (ru__id user) = true
     ∧ r = Fail 403 "Not authorized to complete this order" ∧ db' = db)
  ∨ (str_strict_neq (o_buyer o) (ru__id user) = false ∧ o_status o ≠ delivered
     ∧ r = Fail 400 "Order must be delivered before completion" ∧ db' = db)
  ∨ (str_strict_neq (o_buyer o) (ru__id user) = false ∧ o_status o = delivered
     ∧ orders db' = orders db ∧ r = Fail 500 "Server error")
  ∨ (str_strict_neq (o_buyer o) (ru__id user) = false ∧ o_status o = delivered
     ∧ ∃ o', r = Ok 200 o' ∧ o_status o' = completed
             ∧ orders db' = <[id := o']> (orders db)).
Proof.
  intros Ho. unfold completeOrder. rewrite Ho.
  destruct (str_strict_neq (o_buyer o) (ru__id user)) eqn:Hb.
  { intros [= <- <-]. by left. }
  destruct (decide (o_status o = delivered)) as [Hd | Hd].
  2:{ rewrite bool_decide_eq_false_2 by done. intros [= <- <-].
      right; left. done. }
  rewrite bool_decide_eq_true_2 by done. cbn [negb].
  destruct (users db !! o_seller o) as [seller |].
  2:{ intros [= <- <-]. right; right; left. done. }
  match goal with |- context [gigs ?d !! _] => destruct (gigs d !! o_gig o) as [gig |] end.
  - intros [= <- <-]. right; right; right. repeat split; try done.
    eexists. split; [reflexivity |]. split; reflexivity.
  - intros [= <- <-]. right; right; left. done.
Qed.

End OrderFacts.

Section OrderClaims.

Import Orders.

(** C1 (as amended).  Through the dedicated complete endpoint an order
    becomes 'completed' only from 'delivered': a complete request that
    succeeds found the order delivered and stores it as completed, and a
    complete request on an order that is not delivered is rejected (403
    when the buyer check fails, 400 otherwise) and leaves the database
    unchanged.  Delivery submission and cancellation never store
    'completed'.  The generic status-update endpoint is not restricted in
    this way: for a caller it authorizes it stores 'completed' whatever the
    status was before. *)
Theorem completion_requires_delivered (now : Z) (user : ReqUser) (id : string)
    (db db' : DB) (r : reply Order) (o : Order) :
  orders db !! id = Some o →
  completeOrder now user id db = (db', r) →
  (succeeded r = true →
     o_status o = delivered ∧ o_status <$> orders db' !! id = Some completed)
  ∧ (o_status o ≠ delivered →
       db' = db
       ∧ r = if str_strict_neq (o_buyer o) (ru__id user)
             then Fail 403 "Not authorized to complete this order"
             else Fail 400 "Order must be delivered before completion")
  ∧ (∀ errors message db1 r1,
       submitDelivery now errors user id message db = (db1, r1) →
       succeeded r1 = true → o_status <$> orders db1 !! id = Some delivered)
  ∧ (∀ reason db1 r1,
       cancelOrder now user id reason db = (db1, r1) →
       succeeded r1 = true → o_status <$> orders db1 !! id = Some cancelled)
  ∧ (ru_role user ∈ ["freelancer"; "client"; "admin"] →
     ru_role user = "admin" ∨ o_buyer o = toString (ru__id user)
       ∨ o_seller o = toString (ru__id user) →
     ∀ message, ∃ o',
       patch_status now user id "completed" message db
         = (set_orders (insert id o') db, Ok 200 o')
       ∧ o_status o' = completed).
Proof.
  intros Ho Hrun. split; [| split; [| split; [| split]]].
  - intros Hok.
    destruct (completeOrder_cases _ _ _ _ _ _ _ Ho Hrun)
      as [(_ & Hr & _) | [(_ & _ & Hr & _) | [(_ & _ & _ & Hr)
          | (_ & Hs & o' & _ & Ho' & Hdb')]]];
      try (rewrite Hr in Hok; discriminate).
    split; [done |]. rewrite Hdb', lookup_insert_eq. cbn. by rewrite Ho'.
  - intros Hne.
    destruct (completeOrder_cases _ _ _ _ _ _ _ Ho Hrun)
      as [(Hb & Hr & Hdb) | [(Hb & _ & Hr & Hdb) | [(_ & Hs & _)
          | (_ & Hs & _)]]]; try done.
    all: by rewrite Hb.
  - intros errors message db1 r1. unfold submitDelivery. rewrite Ho.
    destruct errors; [| intros [= <- <-]; discriminate].
    destruct (str_strict_neq (o_seller o) (ru__id user));
      intros [= <- <-]; [discriminate |].
    intros _. cbn. by rewrite lookup_insert_eq.
  - intros reason db1 r1. unfold cancelOrder. rewrite Ho.
    destruct (negb (ru_role user =? "admin")%string
              && str_strict_neq (o_buyer o) (ru__id user)
              && str_strict_neq (o_seller o) (ru__id user));
      intros [= <- <-]; [discriminate |].
    intros _. cbn. by rewrite lookup_insert_eq.
  - intros Hrole Hauth message. unfold patch_status.
    rewrite (authorizeRoles_member _ _ Hrole).
    apply (updateOrderStatus_authorized now user id completed message db o Ho Hauth).
Qed.

(** The amended C1 at work: Alice's complete request on the pending
    [order1] is turned down with 400 and changes nothing. *)
Lemma completion_requires_delivered_witness :
  orders Sample.db0 !! Sample.order1 = Some (Sample.mk_order pending)
  ∧ completeOrder 1000 Sample.alice_plain Sample.order1 Sample.db0
    = (Sample.db0, Fail 400 "Order must be delivered before completion")
  ∧ ((pending : OrderStatus) ≠ delivered →
     Sample.db0 = Sample.db0
     ∧ Fail 400 "Order must be delivered before completion"
       = (if str_strict_neq (o_buyer (Sample.mk_order pending))
                (ru__id Sample.alice_plain)
          then Fail 403 "Not authorized to complete this order"
          else Fail 400 "Order must be delivered before completion" : reply Order)).
Proof.
  split; [reflexivity |]. split; [reflexivity |].
  apply (completion_requires_delivered 1000 Sample.alice_plain Sample.order1
           Sample.db0 Sample.db0
           (Fail 400 "Order must be delivered before completion")
           (Sample.mk_order pending));
    reflexivity.
Defined.

(** C1 as stated fails on the generic endpoint: Alice, the buyer, sends
    status 'completed' for [order1], which is pending; the request is
    accepted and the order is stored as completed. *)
Lemma status_update_completes_pending_order :
  o_status <$> orders Sample.db0 !! Sample.order1 = Some pending
  ∧ ∃ db' o',
      patch_status 1000 Sample.alice_req Sample.order1 "completed" None Sample.db0
        = (db', Ok 200 o')
      ∧ o_status <$> orders db' !! Sample.order1 = Some completed.
Proof.
  split; [reflexivity |]. eexists _, _. split; reflexivity.
Qed.

(** [protect] attaches the stored user document itself. *)
Lemma protect_attaches_document (secret : string)
    (now : Z) (token : option Auth.Token) (db : DB) (caller : ReqUser) :
  Auth.protect secret now token db = Next caller →
  ∃ uid u, users db !! uid = Some u ∧ caller = user_document uid u.
Proof.
  unfold Auth.protect. intros H.
  destruct token as [t |]; [| discriminate].
  destruct (Auth.jwt_verify t secret now) as [[uid role] |]; [| discriminate].
  destruct (users db !! uid) as [u |] eqn:Hu; [| discriminate].
  destruct (negb (u_isActive u)); [discriminate |].
  destruct (u_isSuspended u); [discriminate |].
  destruct (negb (bool_decide (u_role u ∈ Auth.validRoles))); [discriminate |].
  injection H as <-. by exists uid, u.
Qed.

(** What [completeOrder] does once its buyer check lets the caller
    through (a caller object whose [_id] is the buyer's id as a string):
    the order is completed and stamped, the seller and the gig gain one
    order and the order's amount. *)
Lemma completeOrder_effects (now : Z) (user : ReqUser) (id : string) (db : DB)
    (o : Order) (seller : User) (gig : Gig) :
  orders db !! id = Some o →
  ru__id user = JString (o_buyer o) →
  o_status o = delivered →
  users db !! o_seller o = Some seller →
  gigs db !! o_gig o = Some gig →
  ∃ db' o' seller' gig',
    completeOrder now user id db = (db', Ok 200 o')
    ∧ orders db' !! id = Some o'
    ∧ o_status o' = completed ∧ o_completedDate o' = Some now
    ∧ users db' !! o_seller o = Some seller'
    ∧ u_totalOrders seller' = u_totalOrders seller + 1
    ∧ u_totalEarnings seller' = u_totalEarnings seller + o_amount o
    ∧ gigs db' !! o_gig o = Some gig'
    ∧ g_totalOrders gig' = g_totalOrders gig + 1
    ∧ g_totalEarnings gig' = g_totalEarnings gig + o_amount o.
Proof.
  intros Ho Hid Hs Hu Hg. unfold completeOrder.
  rewrite Ho, Hid. cbn [str_strict_neq]. rewrite String.eqb_refl. cbn [negb].
  rewrite bool_decide_eq_true_2 by done. cbn [negb]. rewrite Hu. cbn.
  rewrite Hg. eexists _, _, _, _. split; [reflexivity |]. cbn.
  rewrite !lookup_insert_eq. repeat split; reflexivity.
Qed.

(** C2 (the code at the failing input).  For every caller that [protect]
    has authenticated, [completeOrder] answers 403 on every existing
    order and writes nothing, also when the caller is the buyer of a
    delivered order: the buyer check compares the buyer's id as a string
    with the ObjectId object [req.user._id] by [!==]. *)
Theorem completeOrder_rejects_authenticated_buyer (secret : string) (now : Z)
    (token : option Auth.Token) (caller : ReqUser) (id : string) (db : DB)
    (o : Order) :
  Auth.protect secret now token db = Next caller →
  orders db !! id = Some o →
  o_buyer o = ru_id caller →
  o_status o = delivered →
  completeOrder now caller id db
    = (db, Fail 403 "Not authorized to complete this order").
Proof.
  intros Hp Ho _ _.
  destruct (protect_attaches_document _ _ _ _ _ Hp)
    as (uid & u & _ & ->).
  unfold completeOrder. rewrite Ho. by rewrite user_document_strict_neq.
Qed.

(** Alice logs in, the token is accepted by [protect], and her complete
    request on [order2], which she bought and which is delivered, is
    answered with 403. *)
Lemma completeOrder_rejects_authenticated_buyer_witness :
  Auth.protect Sample.secret 2000
    (Some (Auth.jwt_sign Sample.alice "client" Sample.secret 1000)) Sample.db0
    = Next Sample.alice_req
  ∧ orders Sample.db0 !! Sample.order2 = Some (Sample.mk_order delivered)
  ∧ patch_complete 2000 Sample.alice_req Sample.order2 Sample.db0
    = (Sample.db0, Fail 403 "Not authorized to complete this order")
  ∧ completeOrder 2000 Sample.alice_req Sample.order2 Sample.db0
    = (Sample.db0, Fail 403 "Not authorized to complete this order").
Proof.
  split; [reflexivity |]. split; [reflexivity |]. split; [reflexivity |].
  apply (completeOrder_rejects_authenticated_buyer Sample.secret 2000
           (Some (Auth.jwt_sign Sample.alice "client" Sample.secret 1000))
           Sample.alice_req Sample.order2 Sample.db0 (Sample.mk_order delivered));
    reflexivity.
Defined.

(** C3 (as amended).  For each of the six values that the route's
    validator lists (every value of the enum except 'disputed'), every
    order and every caller that is the buyer, the seller or an admin, the
    status-update endpoint accepts the request and the stored status
    afterwards is that value, whatever it was before; a request for
    'disputed' is answered with 400 by the validator and stores nothing. *)
Theorem status_update_sets_listed_status (now : Z) (user : ReqUser) (id : string)
    (v : OrderStatus) (message : option string) (db : DB) (o : Order) :
  orders db !! id = Some o →
  ru_role user ∈ ["freelancer"; "client"; "admin"] →
  ru_role user = "admin" ∨ o_buyer o = toString (ru__id user)
    ∨ o_seller o = toString (ru__id user) →
  (v ≠ disputed →
   ∃ o', patch_status now user id (status_name v) message db
           = (set_orders (insert id o') db, Ok 200 o')
         ∧ orders (set_orders (insert id o') db) !! id = Some o'
         ∧ o_status o' = v)
  ∧ patch_status now user id (status_name disputed) message db
    = (db, Invalid ["Invalid status"]).
Proof.
  intros Ho Hrole Hauth. unfold patch_status.
  rewrite (authorizeRoles_member _ _ Hrole). split.
  - intros Hv. rewrite (validate_status_name v Hv).
    destruct (updateOrderStatus_authorized now user id v message db o Ho Hauth)
      as (o' & Hrun & Hst).
    exists o'. split; [done |]. split; [| done]. cbn. apply lookup_insert_eq.
  - reflexivity.
Qed.

(** Bob, the seller, moves the pending [order1] to 'in_progress'. *)
Lemma status_update_sets_listed_status_witness :
  orders Sample.db0 !! Sample.order1 = Some (Sample.mk_order pending)
  ∧ ((in_progress : OrderStatus) ≠ disputed →
     ∃ o', patch_status 1000 Sample.bob_req Sample.order1 "in_progress" None Sample.db0
             = (set_orders (insert Sample.order1 o') Sample.db0, Ok 200 o')
           ∧ orders (set_orders (insert Sample.order1 o') Sample.db0) !! Sample.order1
             = Some o'
           ∧ o_status o' = in_progress).
Proof.
  split; [reflexivity |].
  apply (status_update_sets_listed_status 1000 Sample.bob_req Sample.order1
           in_progress None Sample.db0 (Sample.mk_order pending)).
  - reflexivity.
  - by apply (bool_decide_unpack _).
  - right; right; reflexivity.
Defined.

(** C3 as stated fails for 'disputed', a value of the enum: Alice, the
    buyer of [order1], asks for it; the reply is 400 and the stored status
    is still 'pending'. *)
Lemma status_update_refuses_disputed :
  parse_status "disputed" = Some disputed
  ∧ ∃ db' r,
      patch_status 1000 Sample.alice_req Sample.order1 "disputed" None Sample.db0
        = (db', r)
      ∧ status_of r = 400
      ∧ o_status <$> orders db' !! Sample.order1 = Some pending.
Proof.
  split; [reflexivity |]. eexists _, _. repeat split; reflexivity.
Qed.

(** C9.  [createOrder] succeeds only for an existing, active gig that the
    caller does not sell, and then stores a pending order with the caller
    as buyer and the gig's seller as seller; a missing gig gives 404, a
    gig that is not active or is the caller's own gives 400, and no reply
    other than success stores anything. *)
Theorem createOrder_checks_gig (newId : string) (errors : list string)
    (user : ReqUser) (gigId : string) (requirements : list string) (amount : Z)
    (db db' : DB) (r : reply Order) :
  createOrder newId errors user gigId requirements amount db = (db', r) →
  (succeeded r = true →
     ∃ gig order,
       gigs db !! gigId = Some gig ∧ g_status gig = g_active
       ∧ g_seller gig ≠ toString (ru__id user)
       ∧ r = Ok 201 order ∧ db' = set_orders (insert newId order) db
       ∧ orders db' !! newId = Some order
       ∧ o_status order = pending ∧ o_buyer order = toString (ru__id user)
       ∧ o_seller order = g_seller gig ∧ o_gig order = gigId)
  ∧ (succeeded r = false → db' = db)
  ∧ (errors = [] → gigs db !! gigId = None → r = Fail 404 "Gig not found")
  ∧ (errors = [] →
     ∀ gig, gigs db !! gigId = Some gig →
       (g_status gig ≠ g_active ∨ g_seller gig = toString (ru__id user) →
        status_of r = 400)
       ∧ (g_status gig = g_active → g_seller gig ≠ toString (ru__id user) →
          5 ≤ amount → succeeded r = true)).
Proof.
  unfold createOrder. intros Hrun.
  destruct errors as [| e errors].
  2:{ injection Hrun as <- <-. split; [done |]. split; [done |]. split; done. }
  destruct (gigs db !! gigId) as [gig |] eqn:Hg.
  2:{ injection Hrun as <- <-. split; [done |]. split; [done |]. split; done. }
  destruct (decide (g_status gig = g_active)) as [Ha | Ha].
  2:{ rewrite bool_decide_eq_false_2 in Hrun by done. injection Hrun as <- <-.
      split; [done |]. split; [done |]. split; [done |].
      intros _ gig' [= <-]. split; [done | done]. }
  rewrite bool_decide_eq_true_2 in Hrun by done. cbn [negb] in Hrun.
  destruct (g_seller gig =? toString (ru__id user))%string eqn:Hs.
  { apply String.eqb_eq in Hs. injection Hrun as <- <-.
    split; [done |]. split; [done |]. split; [done |].
    intros _ gig' [= <-]. split; [done | done]. }
  apply String.eqb_neq in Hs.
  destruct (amount <? 5) eqn:Hamt.
  { apply Z.ltb_lt in Hamt. injection Hrun as <- <-.
    split; [done |]. split; [done |]. split; [done |].
    intros _ gig' [= <-]. split; [intros [? | ?]; done | intros; lia]. }
  injection Hrun as <- <-.
  split; [| split; [done |]; split; [done |]].
  - intros _. exists gig. eexists. repeat split; try done. cbn. apply lookup_insert_eq.
  - intros _ gig' [= <-]. split; [intros [? | ?]; done | done].
Qed.

(** Alice orders Bob's active gig. *)
Lemma createOrder_checks_gig_witness :
  createOrder Sample.order3 [] Sample.alice_req Sample.gig1 ["A poster"] 50 Sample.db0
    = (Sample.db1, Ok 201 Sample.new_order)
  ∧ (succeeded (Ok 201 Sample.new_order) = true →
     ∃ gig order,
       gigs Sample.db0 !! Sample.gig1 = Some gig ∧ g_status gig = g_active
       ∧ g_seller gig ≠ toString (ru__id Sample.alice_req)
       ∧ Ok 201 Sample.new_order = Ok 201 order
       ∧ Sample.db1 = set_orders (insert Sample.order3 order) Sample.db0
       ∧ orders Sample.db1 !! Sample.order3 = Some order
       ∧ o_status order = pending
       ∧ o_buyer order = toString (ru__id Sample.alice_req)
       ∧ o_seller order = g_seller gig ∧ o_gig order = Sample.gig1).
Proof.
  split; [reflexivity |].
  apply (createOrder_checks_gig Sample.order3 [] Sample.alice_req Sample.gig1
           ["A poster"] 50 Sample.db0 Sample.db1 (Ok 201 Sample.new_order)).
  reflexivity.
Defined.

End OrderClaims.

(** ** Reviews *)

Section ReviewClaims.

Import Reviews.

(** Appending a review for an order that has none keeps every order at
    no more than one review. *)
Lemma reviews_of_append (orderId oid : string) (review : Review) (db : DB) :
  r_order review = orderId →
  findOne_order orderId (reviews db) = None →
  (reviews_of oid db ≤ 1)%nat →
  (reviews_of oid (set_reviews (fun l => (l ++ [review])%list) db) ≤ 1)%nat.
Proof.
  intros Hr Hnone Hle. unfold reviews_of in *. cbn [reviews set_reviews].
  rewrite List.filter_app, length_app. cbn [List.filter].
  destruct (r_order review =? oid)%string eqn:He; cbn [length]; [| lia].
  apply String.eqb_eq in He. rewrite Hr in He. subst oid.
  unfold findOne_order in Hnone. rewrite (find_None_filter _ _ Hnone). cbn. lia.
Qed.

(** Deleting a review never adds one. *)
Lemma deleteReview_at_most_one (user : ReqUser) (id oid : string) (db : DB) :
  (reviews_of oid db ≤ 1)%nat →
  (reviews_of oid (fst (deleteReview user id db)) ≤ 1)%nat.
Proof.
  intros Hle. unfold deleteReview.
  destruct (findById id (reviews db)) as [review |]; [| done].
  destruct (negb _); [done |]. cbn [fst]. unfold reviews_of in *.
  cbn [reviews set_reviews].
  etransitivity; [| exact Hle]. clear Hle.
  induction (reviews db) as [| x l IH]; cbn; [lia |].
  destruct (negb (r_id x =? id)%string); cbn;
    destruct (r_order x =? oid)%string; cbn; lia.
Qed.

(** C6.  [createReview] succeeds only for the order's buyer, on a
    completed order that has no review yet; for an existing order, a caller
    who is not the buyer gets 403, the buyer of an order that is not
    completed gets 400, and the buyer of a completed order that already has
    a review gets 400; a request repeated after a success is refused with
    400; no reply other than success stores anything, and no order ever
    gets a second review. *)
Theorem createReview_guards (newId : string) (errors : list string) (user : ReqUser)
    (orderId : string) (rating : Z) (comment : string) (db db' : DB)
    (r : reply Review) :
  createReview newId errors user orderId rating comment db = (db', r) →
  (succeeded r = true →
     ∃ order review,
       orders db !! orderId = Some order ∧ o_buyer order = ru_id user
       ∧ o_status order = completed
       ∧ findOne_order orderId (reviews db) = None
       ∧ r = Ok 201 review ∧ r_order review = orderId
       ∧ reviews db' = (reviews db ++ [review])%list
       ∧ ∀ newId2 rating2 comment2,
           createReview newId2 [] user orderId rating2 comment2 db'
           = (db', Fail 400 "Review already exists for this order"))
  ∧ (succeeded r = false → db' = db)
  ∧ (errors = [] → ∀ order, orders db !! orderId = Some order →
       (o_buyer order ≠ ru_id user →
        r = Fail 403 "Not authorized to review this order")
       ∧ (o_buyer order = ru_id user → o_status order ≠ completed →
          r = Fail 400 "Order must be completed before reviewing")
       ∧ (o_buyer order = ru_id user → o_status order = completed →
          is_Some (findOne_order orderId (reviews db)) →
          r = Fail 400 "Review already exists for this order"))
  ∧ ((∀ oid, (reviews_of oid db ≤ 1)%nat) → ∀ oid, (reviews_of oid db' ≤ 1)%nat).
Proof.
  unfold createReview. intros Hrun.
  destruct errors as [| e errors].
  2:{ injection Hrun as <- <-. split; [done |]. split; [done |]. split; done. }
  destruct (orders db !! orderId) as [order |] eqn:Ho.
  2:{ injection Hrun as <- <-. split; [done |]. split; [done |]. split; done. }
  destruct (o_buyer order =? ru_id user)%string eqn:Hb.
  2:{ apply String.eqb_neq in Hb. injection Hrun as <- <-.
      split; [done |]. split; [done |]. split; [| done].
      intros _ order' [= <-]. split; [done |]. split; done. }
  apply String.eqb_eq in Hb. cbn [negb] in Hrun.
  destruct (decide (o_status order = completed)) as [Hs | Hs].
  2:{ rewrite bool_decide_eq_false_2 in Hrun by done. injection Hrun as <- <-.
      split; [done |]. split; [done |]. split; [| done].
      intros _ order' [= <-]. split; [done |]. split; done. }
  rewrite bool_decide_eq_true_2 in Hrun by done. cbn [negb] in Hrun.
  destruct (findOne_order orderId (reviews db)) as [existing |] eqn:Hf.
  { injection Hrun as <- <-.
    split; [done |]. split; [done |]. split; [| done].
    intros _ order' [= <-]. split; [done |]. split; done. }
  destruct (schema_ok rating comment).
  2:{ injection Hrun as <- <-.
      split; [done |]. split; [done |]. split; [| done].
      intros _ order' [= <-]. split; [done |]. split; [done |].
      intros _ _ [x Hx]. discriminate. }
  cbn [negb] in Hrun. injection Hrun as <- <-.
  split; [| split; [done |]; split].
  - intros _. eexists order, _. repeat split; try done.
    intros newId2 rating2 comment2. cbn [orders set_reviews reviews].
    rewrite Ho, Hb, String.eqb_refl. cbn [negb].
    rewrite bool_decide_eq_true_2 by done. cbn [negb].
    unfold findOne_order in *. rewrite (find_app_None _ _ _ Hf). cbn.
    by rewrite String.eqb_refl.
  - intros _ order' [= <-]. split; [done |]. split; [done |].
    intros _ _ [x Hx]. discriminate.
  - intros Hinv oid. apply (reviews_of_append orderId); [done | done | apply Hinv].
Qed.

(** Alice reviews the completed [order2]; her next request for the same
    order is refused. *)
Lemma createReview_guards_witness :
  createReview Sample.review1 [] Sample.alice_req Sample.order2 5 "Great work!"
    Sample.db_completed
  = (Sample.db_reviewed, Ok 201 Sample.alice_review)
  ∧ ∀ newId2 rating2 comment2,
      createReview newId2 [] Sample.alice_req Sample.order2 rating2 comment2
        Sample.db_reviewed
      = (Sample.db_reviewed, Fail 400 "Review already exists for this order").
Proof.
  assert (createReview Sample.review1 [] Sample.alice_req Sample.order2 5
            "Great work!" Sample.db_completed
          = (Sample.db_reviewed, Ok 201 Sample.alice_review)) as Hrun
    by reflexivity.
  split; [exact Hrun |].
  destruct (createReview_guards _ _ _ _ _ _ _ _ _ Hrun) as (Hok & _).
  destruct (Hok eq_refl) as (order & review & _ & _ & _ & _ & _ & _ & _ & Hagain).
  exact Hagain.
Defined.

End ReviewClaims.

(** ** Conversations and unread counters *)

Section ConversationFacts.

Import Messaging.

Lemma findById_id (id : string) (l : list Conversation) (c : Conversation) :
  findById id l = Some c → c_id c = id.
Proof.
  unfold findById. intros H. apply List.find_some in H as [_ H].
  by apply String.eqb_eq.
Qed.

Lemma findById_save_eq (id : string) (l : list Conversation) (c c' : Conversation) :
  findById id l = Some c → c_id c' = id → findById id (save c' l) = Some c'.
Proof.
  unfold findById, save. intros Hf <-.
  induction l as [| x l IH]; cbn in *; [done |].
  destruct (c_id x =? c_id c')%string eqn:Hx.
  - cbn. by rewrite String.eqb_refl.
  - cbn. rewrite Hx. by apply IH.
Qed.

Lemma findById_save_ne (id : string) (l : list Conversation) (c' : Conversation) :
  id ≠ c_id c' → findById id (save c' l) = findById id l.
Proof.
  unfold findById, save. intros Hne.
  induction l as [| x l IH]; cbn; [done |].
  destruct (c_id x =? c_id c')%string eqn:Hx.
  - apply String.eqb_eq in Hx. cbn.
    assert ((c_id c' =? id)%string = false) as -> by (apply String.eqb_neq; congruence).
    assert ((c_id x =? id)%string = false) as -> by (apply String.eqb_neq; congruence).
    reflexivity.
  - cbn. destruct (c_id x =? id)%string; [done | exact IH].
Qed.

(** The [forEach] of [sendMessage]: the sender's entry is not touched, and
    every other user gains one count per occurrence in the participant
    list. *)
Lemma bump_fold_sender (me : string) (parts : list string) (counts : gmap string Z) :
  fold_left (bump me) parts counts !! me = counts !! me.
Proof.
  revert counts. induction parts as [| q parts IH]; intros counts; cbn; [done |].
  rewrite IH. unfold bump.
  destruct (q =? me)%string eqn:Hq; cbn; [done |].
  apply String.eqb_neq in Hq. by rewrite lookup_insert_ne.
Qed.

Lemma bump_fold_other (me p : string) (parts : list string) (counts : gmap string Z) :
  p ≠ me →
  default 0 (fold_left (bump me) parts counts !! p)
  = default 0 (counts !! p) + Z.of_nat (count_occ string_dec parts p).
Proof.
  intros Hp. revert counts.
  induction parts as [| q parts IH]; intros counts; cbn [fold_left count_occ].
  { cbn. lia. }
  rewrite IH. unfold bump.
  destruct (string_dec q p) as [-> | Hqp].
  - assert ((p =? me)%string = false) as -> by by apply String.eqb_neq.
    cbn [negb]. rewrite lookup_insert_eq. cbn [default]. unfold id. lia.
  - destruct (q =? me)%string; cbn [negb]; [lia |].
    rewrite lookup_insert_ne by done. lia.
Qed.

(** In a participant list of two entries, or without repeated entries, a
    participant other than the sender occurs exactly once. *)
Lemma occurs_once (me p : string) (parts : list string) :
  length parts = 2%nat ∨ NoDup parts → me ∈ parts → p ∈ parts → p ≠ me →
  count_occ string_dec parts p = 1%nat.
Proof.
  intros [Hlen | Hnd] Hme Hp Hne.
  - destruct parts as [| a [| b [| ? ?]]]; try discriminate.
    cbn. apply list_elem_of_In in Hme, Hp. cbn in Hme, Hp.
    destruct (string_dec a p), (string_dec b p); subst; try done.
    + destruct Hme as [? | [? | []]]; congruence.
    + destruct Hp as [? | [? | []]]; congruence.
  - apply NoDup_ListNoDup in Hnd.
    apply (proj1 (NoDup_count_occ' string_dec parts) Hnd).
    by apply list_elem_of_In.
Qed.

(** The two outcomes of [sendMessage]: a refusal that stores nothing, or
    the message appended and the conversation saved with bumped counters. *)
Lemma sendMessage_cases (now : Z) (newId : string) (errors : list string)
    (user : ReqUser) (cid content messageType : string) (attachments : list string)
    (db db' : DB) (r : reply Message) :
  sendMessage now newId errors user cid content messageType attachments db = (db', r) →
  (succeeded r = false ∧ db' = db)
  ∨ (succeeded r = true
     ∧ ∃ c c',
         findById cid (conversations db) = Some c
         ∧ ru_id user ∈ c_participants c
         ∧ conversations db' = save c' (conversations db)
         ∧ c_id c' = c_id c
         ∧ c_participants c' = c_participants c
         ∧ c_status c' = c_status c
         ∧ c_unreadCount c'
           = fold_left (bump (ru_id user)) (c_participants c) (c_unreadCount c)).
Proof.
  unfold sendMessage. intros Hrun.
  destruct errors; [| injection Hrun as <- <-; by left].
  destruct (findById cid (conversations db)) as [c |] eqn:Hc;
    [| injection Hrun as <- <-; by left].
  unfold includes in Hrun.
  destruct (decide (ru_id user ∈ c_participants c)) as [Hin | Hin].
  2:{ rewrite bool_decide_eq_false_2 in Hrun by done.
      injection Hrun as <- <-. by left. }
  rewrite bool_decide_eq_true_2 in Hrun by done. cbn [negb] in Hrun.
  destruct (bool_decide (c_status c = c_blocked));
    [injection Hrun as <- <-; by left |].
  destruct (message_ok content messageType); cbn [negb] in Hrun;
    [| injection Hrun as <- <-; by left].
  injection Hrun as <- <-. right. split; [done |].
  eexists c, _. split; [done |]. split; [done |].
  cbn [conversations set_conversations set_messages]. split; [reflexivity |].
  repeat split; reflexivity.
Qed.

(** The two outcomes of [markAsRead]. *)
Lemma markAsRead_cases (now : Z) (user : ReqUser) (cid : string) (db db' : DB)
    (r : reply string) :
  markAsRead now user cid db = (db', r) →
  (succeeded r = false ∧ db' = db)
  ∨ (succeeded r = true
     ∧ messages db' = List.map (mark now cid (ru_id user)) (messages db)
     ∧ ∃ c c',
         findById cid (conversations db) = Some c
         ∧ ru_id user ∈ c_participants c
         ∧ conversations db' = save c' (conversations db)
         ∧ c_id c' = c_id c
         ∧ c_participants c' = c_participants c
         ∧ c_status c' = c_status c
         ∧ c_unreadCount c' = <[ru_id user := 0]> (c_unreadCount c)).
Proof.
  unfold markAsRead. intros Hrun.
  destruct (findById cid (conversations db)) as [c |] eqn:Hc;
    [| injection Hrun as <- <-; by left].
  unfold includes in Hrun.
  destruct (decide (ru_id user ∈ c_participants c)) as [Hin | Hin].
  2:{ rewrite bool_decide_eq_false_2 in Hrun by done.
      injection Hrun as <- <-. by left. }
  rewrite bool_decide_eq_true_2 in Hrun by done. cbn [negb] in Hrun.
  injection Hrun as <- <-. right. split; [done |]. split; [reflexivity |].
  eexists c, _. split; [done |]. split; [done |].
  cbn [conversations set_conversations set_messages]. split; [reflexivity |].
  repeat split; reflexivity.
Qed.

(** A send on an order thread raises the one counter of the thread by
    one, for whoever reads it. *)
Lemma post_message_unread (now : Z) (newId senderId : string) (content : option string)
    (orderId : string) (recipientId : option string) (files : list string)
    (db db' : OrderThread.TDB) (m : OrderThread.TMessage) (uid : string) :
  OrderThread.post_message now newId senderId content orderId recipientId files db
    = (db', OrderThread.TOk 201 m) →
  OrderThread.unread_in db' orderId uid = OrderThread.unread_in db orderId uid + 1.
Proof.
  unfold OrderThread.post_message.
  destruct (_ && _); [discriminate |].
  destruct recipientId as [recipient |]; [| discriminate]. intros [= <- _].
  unfold OrderThread.unread_in, OrderThread.upsert_on_send. cbn.
  destruct (List.find (OrderThread.for_order orderId) (OrderThread.t_conversations db))
    as [c |] eqn:Hc.
  - rewrite (find_update_first _ _ _ c Hc); [done |].
    apply List.find_some in Hc as [_ Hc]. exact Hc.
  - rewrite (find_app_None _ _ _ Hc). cbn.
    unfold OrderThread.for_order. cbn. by rewrite String.eqb_refl.
Qed.


(** What one request does to the counter shown to [p] for conversation
    [cid]: it is unchanged, or reset to 0 by [p]'s own mark-as-read, or
    raised by a send of somebody else in that conversation. *)
Lemma handle_unread (req : Request) (db : DB) (cid p : string) :
  unread_in (handle req db) cid p = unread_in db cid p
  ∨ unread_in (handle req db) cid p = 0
  ∨ ∃ now newId errors user content messageType attachments,
      req = SendMessage now newId errors user cid content messageType attachments
      ∧ ru_id user ≠ p
      ∧ unread_in db cid p ≤ unread_in (handle req db) cid p.
Proof.
  destruct req as [newId errors user pid orderId gigId
                  | now newId errors user cid0 content mt att
                  | now user cid0]; cbn [handle].
  - unfold createConversation.
    destruct errors; [| by left].
    destruct (users db !! pid); [| by left].
    destruct (List.find _ _); [by left |].
    cbn [fst]. unfold unread_in, findById. cbn [conversations set_conversations].
    destruct (List.find (λ c, (c_id c =? cid)%string) (conversations db)) as [c |] eqn:Hc.
    + left. by rewrite (find_app_Some _ _ _ _ Hc).
    + rewrite (find_app_None _ _ _ Hc). cbn.
      destruct (newId =? cid)%string; right; left; reflexivity.
  - destruct (sendMessage now newId errors user cid0 content mt att db) as [db' r] eqn:Hrun.
    cbn [fst].
    destruct (sendMessage_cases _ _ _ _ _ _ _ _ _ _ _ Hrun)
      as [[_ ->] | (_ & c & c' & Hc & Hin & Hsave & Hid & _ & _ & Hcnt)];
      [by left |].
    pose proof (findById_id _ _ _ Hc) as Hcid.
    unfold unread_in. rewrite Hsave.
    destruct (decide (cid = cid0)) as [-> | Hne].
    + rewrite (findById_save_eq cid0 _ c c' Hc) by congruence. rewrite Hc.
      destruct (decide (ru_id user = p)) as [<- | Hp].
      * left. unfold unread. rewrite Hcnt. by rewrite bump_fold_sender.
      * right; right. eexists _, _, _, _, _, _, _. split; [done |]. split; [done |].
        unfold unread. rewrite Hcnt, (bump_fold_other _ _ _ _ (not_eq_sym Hp)). lia.
    + left. rewrite findById_save_ne; [done | congruence].
  - destruct (markAsRead now user cid0 db) as [db' r] eqn:Hrun. cbn [fst].
    destruct (markAsRead_cases _ _ _ _ _ _ Hrun)
      as [[_ ->] | (_ & _ & c & c' & Hc & Hin & Hsave & Hid & _ & _ & Hcnt)];
      [by left |].
    pose proof (findById_id _ _ _ Hc) as Hcid.
    unfold unread_in. rewrite Hsave.
    destruct (decide (cid = cid0)) as [-> | Hne].
    + rewrite (findById_save_eq cid0 _ c c' Hc) by congruence. rewrite Hc.
      unfold unread. rewrite Hcnt.
      destruct (decide (ru_id user = p)) as [<- | Hp].
      * right; left. by rewrite lookup_insert_eq.
      * left. by rewrite lookup_insert_ne.
    + left. rewrite findById_save_ne; [done | congruence].
Qed.

(** Counters never become negative, so in every state reached from a
    database without conversations they are at least 0. *)
Lemma handle_unread_nonneg (req : Request) (db : DB) (cid p : string) :
  0 ≤ unread_in db cid p → 0 ≤ unread_in (handle req db) cid p.
Proof.
  intros H0.
  destruct (handle_unread req db cid p)
    as [He | [He | (? & ? & ? & ? & ? & ? & ? & _ & _ & Hle)]]; lia.
Qed.

Lemma run_unread_nonneg (reqs : list Request) (db : DB) (cid p : string) :
  conversations db = [] → 0 ≤ unread_in (run reqs db) cid p.
Proof.
  intros Hnil.
  assert (0 ≤ unread_in db cid p) as H0.
  { unfold unread_in, findById. rewrite Hnil. cbn. lia. }
  clear Hnil. unfold run. revert db H0.
  induction reqs as [| req reqs IH]; intros db H0; cbn; [done |].
  apply IH. by apply handle_unread_nonneg.
Qed.

(** The controller only ever stores conversations of two participant
    entries. *)
Lemma handle_two_entries (req : Request) (db : DB) :
  two_entries db → two_entries (handle req db).
Proof.
  unfold two_entries. intros Hinv.
  destruct req as [newId errors user pid orderId gigId
                  | now newId errors user cid content mt att
                  | now user cid]; cbn [handle].
  - unfold createConversation.
    destruct errors; [| done].
    destruct (users db !! pid); [| done].
    destruct (List.find _ _); [done |].
    cbn [fst conversations set_conversations].
    apply Forall_app. split; [done |]. by apply Forall_singleton.
  - destruct (sendMessage now newId errors user cid content mt att db) as [db' r] eqn:Hrun.
    cbn [fst].
    destruct (sendMessage_cases _ _ _ _ _ _ _ _ _ _ _ Hrun)
      as [[_ ->] | (_ & c & c' & Hc & _ & Hsave & Hid & Hparts & _)]; [done |].
    rewrite Hsave. apply Forall_update_first; [done |].
    intros x _. rewrite Hparts.
    apply List.find_some in Hc as [Hin _]. apply list_elem_of_In in Hin.
    by apply (proj1 (Forall_forall _ _) Hinv).
  - destruct (markAsRead now user cid db) as [db' r] eqn:Hrun. cbn [fst].
    destruct (markAsRead_cases _ _ _ _ _ _ Hrun)
      as [[_ ->] | (_ & _ & c & c' & Hc & _ & Hsave & Hid & Hparts & _)]; [done |].
    rewrite Hsave. apply Forall_update_first; [done |].
    intros x _. rewrite Hparts.
    apply List.find_some in Hc as [Hin _]. apply list_elem_of_In in Hin.
    by apply (proj1 (Forall_forall _ _) Hinv).
Qed.

Lemma run_two_entries (reqs : list Request) (db : DB) :
  conversations db = [] → two_entries (run reqs db).
Proof.
  intros Hnil. assert (two_entries db) as Hinv.
  { unfold two_entries. rewrite Hnil. apply Forall_nil_2. }
  clear Hnil. unfold run. revert db Hinv.
  induction reqs as [| req reqs IH]; intros db Hinv; cbn; [done |].
  apply IH. by apply handle_two_entries.
Qed.

Lemma between_sym (a b : string) (c : Conversation) : between a b c = between b a c.
Proof. unfold between. by rewrite (andb_comm (bool_decide (a ∈ _))). Qed.

Lemma between_same (a b : string) (c c' : Conversation) :
  c_participants c' = c_participants c → c_status c' = c_status c →
  between a b c' = between a b c.
Proof. unfold between. by intros -> ->. Qed.

(** A conversation of the participants [u; p] lies between two distinct
    users only if they are [u] and [p]. *)
Lemma between_pair (a b u p : string) (c : Conversation) :
  c_participants c = [u; p] → a ≠ b → between a b c = true →
  (a = u ∧ b = p) ∨ (a = p ∧ b = u).
Proof.
  unfold between. intros -> Hne H.
  apply andb_prop in H as [H _]. apply andb_prop in H as [Ha Hb].
  apply bool_decide_eq_true_1 in Ha, Hb.
  apply list_elem_of_In in Ha, Hb. cbn in Ha, Hb.
  destruct Ha as [<- | [<- | []]], Hb as [<- | [<- | []]]; try done; auto.
Qed.

Lemma createConversation_one_per_pair (newId : string) (errors : list string)
    (user : ReqUser) (pid : string) (orderId gigId : option string) (db : DB) :
  one_per_pair db →
  one_per_pair (fst (createConversation newId errors user pid orderId gigId db)).
Proof.
  intros Hinv. unfold createConversation.
  destruct errors; [| done].
  destruct (users db !! pid); [| done].
  destruct (List.find (between (ru_id user) pid) (conversations db)) eqn:Hf; [done |].
  cbn [fst]. intros a b Hne. specialize (Hinv a b Hne).
  unfold open_between in *. cbn [conversations set_conversations].
  rewrite List.filter_app, length_app. cbn [List.filter].
  match goal with |- context [between a b ?c] => destruct (between a b c) eqn:Hb end;
    cbn [length]; [| lia].
  destruct (λ H, between_pair a b (ru_id user) pid _ H Hne Hb) as [[-> ->] | [-> ->]];
    [reflexivity | |].
  - rewrite (find_None_filter _ _ Hf). cbn. lia.
  - rewrite (List.filter_ext _ _ (between_sym pid (ru_id user))).
    rewrite (find_None_filter _ _ Hf). cbn. lia.
Qed.

Lemma save_one_per_pair (db db' : DB) (cid : string) (c c' : Conversation) :
  findById cid (conversations db) = Some c →
  conversations db' = save c' (conversations db) →
  c_id c' = c_id c → c_participants c' = c_participants c →
  c_status c' = c_status c →
  one_per_pair db → one_per_pair db'.
Proof.
  intros Hc Hsave Hid Hparts Hst Hinv a b Hne. specialize (Hinv a b Hne).
  unfold open_between in *. rewrite Hsave. unfold save.
  rewrite filter_update_first; [done |].
  intros x Hx. apply findById_id in Hc as Hcid.
  unfold findById in Hc. rewrite Hid, Hcid, Hc in Hx. injection Hx as <-.
  by apply between_same.
Qed.

Lemma handle_one_per_pair (req : Request) (db : DB) :
  one_per_pair db → one_per_pair (handle req db).
Proof.
  intros Hinv.
  destruct req as [newId errors user pid orderId gigId
                  | now newId errors user cid content mt att
                  | now user cid]; cbn [handle].
  - by apply createConversation_one_per_pair.
  - destruct (sendMessage now newId errors user cid content mt att db) as [db' r] eqn:Hrun.
    cbn [fst].
    destruct (sendMessage_cases _ _ _ _ _ _ _ _ _ _ _ Hrun)
      as [[_ ->] | (_ & c & c' & Hc & _ & Hsave & Hid & Hparts & Hst & _)];
      [done |].
    by eapply save_one_per_pair.
  - destruct (markAsRead now user cid db) as [db' r] eqn:Hrun. cbn [fst].
    destruct (markAsRead_cases _ _ _ _ _ _ Hrun)
      as [[_ ->] | (_ & _ & c & c' & Hc & _ & Hsave & Hid & Hparts & Hst & _)];
      [done |].
    by eapply save_one_per_pair.
Qed.

Lemma run_one_per_pair (reqs : list Request) (db : DB) :
  one_per_pair db → one_per_pair (run reqs db).
Proof.
  unfold run. revert db.
  induction reqs as [| req reqs IH]; intros db Hinv; cbn; [done |].
  apply IH. by apply handle_one_per_pair.
Qed.

End ConversationFacts.

Section ConversationClaims.

Import Messaging.

(** C4 (as amended).  In the conversation controller, for every
    conversation whose participant list has two entries (the kind
    [createConversation] creates) or no repeated entry, and every
    successful [sendMessage] by a participant, the stored unread counter of
    every participant other than the sender is one greater than before and
    the sender's own entry is unchanged.  On an order thread (the second message stack) there is one
    counter per conversation, and a successful send raises it by one for
    every reader, the sender included. *)
Theorem sendMessage_bumps_others (now : Z) (newId : string) (errors : list string)
    (user : ReqUser) (cid content messageType : string) (attachments : list string)
    (db db' : DB) (r : reply Message) (c : Conversation) :
  findById cid (conversations db) = Some c →
  length (c_participants c) = 2%nat ∨ NoDup (c_participants c) →
  sendMessage now newId errors user cid content messageType attachments db = (db', r) →
  succeeded r = true →
  (∃ c', findById cid (conversations db') = Some c'
         ∧ c_participants c' = c_participants c
         ∧ (∀ p, p ∈ c_participants c → p ≠ ru_id user →
              unread c' p = unread c p + 1)
         ∧ c_unreadCount c' !! ru_id user = c_unreadCount c !! ru_id user)
  ∧ (∀ now' newId' senderId content' orderId recipientId files tdb tdb' m uid,
       OrderThread.post_message now' newId' senderId content' orderId recipientId
         files tdb = (tdb', OrderThread.TOk 201 m) →
       OrderThread.unread_in tdb' orderId uid
       = OrderThread.unread_in tdb orderId uid + 1).
Proof.
  intros Hc Hlen Hrun Hok. split.
  - destruct (sendMessage_cases _ _ _ _ _ _ _ _ _ _ _ Hrun)
      as [[Hr _] | (_ & c0 & c' & Hc0 & Hin & Hsave & Hid & Hparts & _ & Hcnt)];
      [congruence |].
    rewrite Hc in Hc0. injection Hc0 as <-.
    exists c'. split.
    { rewrite Hsave. apply (findById_save_eq cid _ c c' Hc).
      rewrite Hid. by apply findById_id in Hc. }
    split; [done |]. split.
    + intros p Hp Hne. unfold unread. rewrite Hcnt.
      rewrite (bump_fold_other _ _ _ _ Hne).
      by rewrite (occurs_once (ru_id user) p _ Hlen Hin Hp Hne).
    + rewrite Hcnt. apply bump_fold_sender.
  - intros. by eapply post_message_unread.
Qed.

(** Alice writes to Bob in their conversation: Bob's counter goes from 0
    to 1 and Alice's entry stays as it was. *)
Lemma sendMessage_bumps_others_witness :
  findById Sample.chat1 (conversations Sample.db_chat) = Some Sample.chat
  ∧ length (c_participants Sample.chat) = 2%nat
  ∧ ∃ c', findById Sample.chat1
            (conversations
               (fst (sendMessage 1000 Sample.msg1 [] Sample.alice_req Sample.chat1
                       "Hi Bob" "text" [] Sample.db_chat))) = Some c'
          ∧ c_participants c' = c_participants Sample.chat
          ∧ (∀ p, p ∈ c_participants Sample.chat → p ≠ ru_id Sample.alice_req →
               unread c' p = unread Sample.chat p + 1)
          ∧ c_unreadCount c' !! ru_id Sample.alice_req
            = c_unreadCount Sample.chat !! ru_id Sample.alice_req.
Proof.
  split; [reflexivity |]. split; [reflexivity |].
  apply (sendMessage_bumps_others 1000 Sample.msg1 [] Sample.alice_req Sample.chat1
           "Hi Bob" "text" [] Sample.db_chat
           (fst (sendMessage 1000 Sample.msg1 [] Sample.alice_req Sample.chat1
                   "Hi Bob" "text" [] Sample.db_chat))
           (snd (sendMessage 1000 Sample.msg1 [] Sample.alice_req Sample.chat1
                   "Hi Bob" "text" [] Sample.db_chat))
           Sample.chat);
    first [reflexivity | left; reflexivity].
Defined.

(** C4 as stated fails on the order threads: Alice, who has already sent
    one message in the thread of [order1], sends another; the send
    succeeds and the unread counter she is shown goes from 1 to 2. *)
Lemma order_thread_send_counts_for_sender :
  Sample.alice ∈ OrderThread.participants_of Sample.tdb1 Sample.order1
  ∧ ∃ tdb' m,
      OrderThread.post_message 1001 Sample.msg2 Sample.alice (Some "Are you there?")
        Sample.order1 (Some Sample.bob) [] Sample.tdb1 = (tdb', OrderThread.TOk 201 m)
      ∧ OrderThread.unread_in Sample.tdb1 Sample.order1 Sample.alice = 1
      ∧ OrderThread.unread_in tdb' Sample.order1 Sample.alice = 2.
Proof.
  split; [by apply (bool_decide_unpack _) |].
  eexists _, _. split; [reflexivity |]. split; reflexivity.
Qed.




(** C10 (as amended).  If a conversation that is not blocked and includes
    both the caller and the requested participant exists,
    [createConversation] stores nothing, and when the request passes
    validation and the requested participant is a registered user it
    answers with such an existing conversation; the operation therefore
    keeps every pair of distinct users at no more than one conversation
    that is not blocked, and starting without conversations no sequence of
    conversation requests produces a second one for any pair. *)
Theorem createConversation_idempotent :
  (∀ (newId : string) (errors : list string) (user : ReqUser) (pid : string)
     (orderId gigId : option string) (db : DB) (c : Conversation),
     c ∈ conversations db → between (ru_id user) pid c = true →
     fst (createConversation newId errors user pid orderId gigId db) = db
     ∧ (errors = [] → is_Some (users db !! pid) →
        ∃ existing,
          existing ∈ conversations db ∧ between (ru_id user) pid existing = true
          ∧ createConversation newId errors user pid orderId gigId db
            = (db, Ok 200 existing)))
  ∧ (∀ (newId : string) (errors : list string) (user : ReqUser) (pid : string)
       (orderId gigId : option string) (db : DB),
       one_per_pair db →
       one_per_pair (fst (createConversation newId errors user pid orderId gigId db)))
  ∧ (∀ (reqs : list Request) (db : DB),
       conversations db = [] → one_per_pair (run reqs db)).
Proof.
  split; [| split].
  - intros newId errors user pid orderId gigId db c Hin Hb.
    destruct (List.find (between (ru_id user) pid) (conversations db))
      as [existing |] eqn:Hf.
    2:{ apply list_elem_of_In in Hin.
        pose proof (List.find_none _ _ Hf c Hin) as Hnone. congruence. }
    unfold createConversation. rewrite Hf. split.
    + destruct errors; [| done]. by destruct (users db !! pid).
    + intros -> [u ->]. exists existing.
      apply List.find_some in Hf as [Hin' Hb'].
      split; [by apply list_elem_of_In |]. done.
  - intros. by apply createConversation_one_per_pair.
  - intros reqs db Hnil. apply run_one_per_pair.
    intros a b _. unfold open_between. rewrite Hnil. cbn. lia.
Qed.

(** Alice asks again for a conversation with Bob: she gets the one they
    have, and nothing is stored. *)
Lemma createConversation_idempotent_witness :
  Sample.chat ∈ conversations Sample.db_chat
  ∧ between (ru_id Sample.alice_req) Sample.bob Sample.chat = true
  ∧ fst (createConversation Sample.msg2 [] Sample.alice_req Sample.bob None None
           Sample.db_chat) = Sample.db_chat
  ∧ ([] = ([] : list string) → is_Some (users Sample.db_chat !! Sample.bob) →
     ∃ existing,
       existing ∈ conversations Sample.db_chat
       ∧ between (ru_id Sample.alice_req) Sample.bob existing = true
       ∧ createConversation Sample.msg2 [] Sample.alice_req Sample.bob None None
           Sample.db_chat = (Sample.db_chat, Ok 200 existing)).
Proof.
  assert (Sample.chat ∈ conversations Sample.db_chat) as Hin
    by (change (Sample.chat ∈ [Sample.chat]); apply list_elem_of_here).
  split; [exact Hin |]. split; [reflexivity |].
  apply (proj1 createConversation_idempotent Sample.msg2 [] Sample.alice_req
           Sample.bob None None Sample.db_chat Sample.chat Hin).
  reflexivity.
Defined.

(** C10 as stated fails once the other user's account has been deleted:
    Alice opens a conversation with Dave, an admin deletes Dave, who has no
    active order or gig; the conversation is still stored, and Alice's next
    request for a conversation with Dave is answered with 404 instead of
    that conversation. *)
Lemma createConversation_deleted_participant :
  conversations Sample.db_dave_gone = [Sample.chat_dave]
  ∧ between (ru_id Sample.alice_req) Sample.dave Sample.chat_dave = true
  ∧ createConversation Sample.msg2 [] Sample.alice_req Sample.dave None None
      Sample.db_dave_gone
    = (Sample.db_dave_gone, Fail 404 "Participant not found").
Proof. split; [reflexivity |]. split; reflexivity. Qed.

End ConversationClaims.

(** ** Login and the protected endpoints *)

Section AuthClaims.

Import Auth.

Lemma findOne_email_lookup (email : string) (us : gmap string User) (uid : string)
    (user : User) :
  findOne_email email us = Some (uid, user) →
  us !! uid = Some user ∧ u_email user = email.
Proof.
  unfold findOne_email. intros H. apply List.find_some in H as [Hin He].
  split.
  - apply elem_of_map_to_list. by apply list_elem_of_In.
  - by apply String.eqb_eq.
Qed.

Lemma jwt_verify_sign (id role secret : string) (now now' : Z) :
  now' < 1000 * (now / 1000) + one_day →
  jwt_verify (jwt_sign id role secret now) secret now' = Some (id, role).
Proof.
  intros Hlt. unfold jwt_verify, jwt_sign. cbn.
  rewrite String.eqb_refl. cbn.
  by rewrite (proj2 (Z.ltb_lt _ _) Hlt).
Qed.

Lemma jwt_verify_expired (id role secret : string) (now now' : Z) :
  1000 * (now / 1000) + one_day ≤ now' →
  jwt_verify (jwt_sign id role secret now) secret now' = None.
Proof.
  intros Hle. unfold jwt_verify, jwt_sign. cbn.
  rewrite (proj2 (Z.ltb_ge _ _) Hle). by rewrite andb_false_r.
Qed.




End AuthClaims.

(** ** Gig images *)

Section ImageClaims.

Import GigImages.

Lemma primaries_app (l k : list Image) :
  primaries (l ++ k) = (primaries l + primaries k)%nat.
Proof. unfold primaries. by rewrite List.filter_app, length_app. Qed.

(** After the [forEach] of [setPrimaryImage] no image at an index above
    [imageIndex] is flagged, and at most one is flagged overall. *)
Lemma mark_primary_above (index imageIndex : Z) (l : list Image) :
  imageIndex < index → primaries (mark_primary index imageIndex l) = 0%nat.
Proof.
  revert index. induction l as [| img l IH]; intros index Hlt; cbn; [done |].
  unfold primaries in *. cbn.
  assert ((index =? imageIndex) = false) as -> by lia.
  apply IH. lia.
Qed.

Lemma mark_primary_at_most_one (index imageIndex : Z) (l : list Image) :
  (primaries (mark_primary index imageIndex l) ≤ 1)%nat.
Proof.
  revert index. induction l as [| img l IH]; intros index; cbn; [unfold primaries; cbn; lia |].
  unfold primaries in *. cbn.
  destruct (index =? imageIndex) eqn:He; cbn.
  - apply Z.eqb_eq in He. subst.
    pose proof (mark_primary_above (imageIndex + 1) imageIndex l) as H.
    unfold primaries in H. rewrite H; lia.
  - apply IH.
Qed.

Lemma primaries_promote_first (l : list Image) :
  primaries l = 0%nat → (primaries (promote_first l) ≤ 1)%nat.
Proof.
  destruct l as [| img l]; cbn; [lia |].
  unfold primaries. cbn. destruct (i_isPrimary img); cbn; [discriminate |].
  intros ->. lia.
Qed.

(** Splitting the images around the one at position [i]. *)
Lemma primaries_remove (l : list Image) (i : nat) (removed : Image) :
  nth_error l i = Some removed →
  primaries l
  = (primaries (firstn i l ++ skipn (S i) l)
     + (if i_isPrimary removed then 1 else 0))%nat.
Proof.
  intros Hn. apply nth_error_split in Hn as (l1 & l2 & -> & <-).
  rewrite take_app_length.
  change (removed :: l2) with ([removed] ++ l2)%list at 2.
  rewrite (app_assoc l1 [removed] l2).
  rewrite (drop_app_length' (l1 ++ [removed]) l2) by (rewrite length_app; cbn; lia).
  rewrite !primaries_app. unfold primaries. cbn.
  destruct (i_isPrimary removed); cbn; lia.
Qed.

Lemma addImage_at_most_one (imageData : Image) (g : Gig) :
  uploaded imageData → (primaries (g_images g) ≤ 1)%nat →
  (primaries (g_images (addImage imageData g)) ≤ 1)%nat.
Proof.
  unfold uploaded, addImage. intros Hup Hle. cbn [g_images with_images].
  rewrite primaries_app.
  destruct (length (g_images g) =? 0)%nat eqn:Hlen.
  - apply Nat.eqb_eq, nil_length_inv in Hlen. rewrite Hlen.
    unfold primaries. cbn. lia.
  - assert (primaries [imageData] = 0%nat) as ->; [| lia].
    unfold primaries. cbn. by rewrite Hup.
Qed.

Lemma setPrimaryImage_at_most_one (imageIndex : Z) (g g' : Gig) :
  setPrimaryImage imageIndex g = Some g' → (primaries (g_images g') ≤ 1)%nat.
Proof.
  unfold setPrimaryImage. destruct (valid_index imageIndex g); [| discriminate].
  intros [= <-]. apply mark_primary_at_most_one.
Qed.

Lemma removeImage_at_most_one (imageIndex : Z) (g g' : Gig) :
  removeImage imageIndex g = Some g' → (primaries (g_images g) ≤ 1)%nat →
  (primaries (g_images g') ≤ 1)%nat.
Proof.
  unfold removeImage. destruct (valid_index imageIndex g); [| discriminate].
  destruct (nth_error (g_images g) (Z.to_nat imageIndex)) as [removed |] eqn:Hn;
    [| discriminate].
  intros [= <-] Hle. cbn [g_images with_images].
  rewrite (primaries_remove _ _ _ Hn) in Hle.
  destruct (i_isPrimary removed); cbn [andb].
  - destruct (0 <? length _)%nat; [apply primaries_promote_first |]; lia.
  - lia.
Qed.

Lemma apply_op_at_most_one (g : Gig) (op : ImageOp) :
  match op with AddImage img => uploaded img | _ => True end →
  (primaries (g_images g) ≤ 1)%nat →
  (primaries (g_images (apply_op g op)) ≤ 1)%nat.
Proof.
  destruct op as [img | i | i]; cbn [apply_op]; intros Hup Hle.
  - by apply addImage_at_most_one.
  - destruct (setPrimaryImage i g) as [g' |] eqn:Hs; cbn; [| done].
    by eapply setPrimaryImage_at_most_one.
  - destruct (removeImage i g) as [g' |] eqn:Hr; cbn; [| done].
    by eapply removeImage_at_most_one.
Qed.

(** C8 (as amended).  Starting from a gig with at most one primary image,
    any sequence of [addImage], [setPrimaryImage] and [removeImage] in
    which the images handed to [addImage] are not themselves flagged
    primary (as uploaded files are) leaves at most one primary image; and
    when [removeImage] removes a primary image while other images remain,
    the first remaining image is stored as primary. *)
Theorem at_most_one_primary :
  (∀ (ops : list ImageOp) (g : Gig),
     uploads_only ops → (primaries (g_images g) ≤ 1)%nat →
     (primaries (g_images (run ops g)) ≤ 1)%nat)
  ∧ (∀ (imageIndex : Z) (g g' : Gig) (removed first : Image) (rest : list Image),
       removeImage imageIndex g = Some g' →
       nth_error (g_images g) (Z.to_nat imageIndex) = Some removed →
       i_isPrimary removed = true →
       (firstn (Z.to_nat imageIndex) (g_images g)
        ++ skipn (S (Z.to_nat imageIndex)) (g_images g))%list = first :: rest →
       g_images g' = with_isPrimary true first :: rest).
Proof.
  split.
  - intros ops. unfold run, uploads_only.
    induction ops as [| op ops IH]; intros g Hup Hle; cbn; [done |].
    apply Forall_cons in Hup as [Hop Hup].
    apply IH; [done |]. by apply apply_op_at_most_one.
  - intros imageIndex g g' removed first rest Hrun Hn Hp Hrest.
    unfold removeImage in Hrun.
    destruct (valid_index imageIndex g); [| discriminate].
    rewrite Hn, Hp, Hrest in Hrun. cbn in Hrun. by injection Hrun as <-.
Qed.

(** Two uploads, the second made primary and then removed: the first
    image ends up as the one primary image. *)
Lemma at_most_one_primary_witness :
  uploads_only Sample.image_ops
  ∧ (primaries (g_images Sample.logo_gig) ≤ 1)%nat
  ∧ (primaries (g_images (run Sample.image_ops Sample.logo_gig)) ≤ 1)%nat
  ∧ g_images (run Sample.image_ops Sample.logo_gig)
    = [with_isPrimary true Sample.front].
Proof.
  assert (uploads_only Sample.image_ops) as Hup.
  { unfold uploads_only, Sample.image_ops. repeat constructor. }
  assert (primaries (g_images Sample.logo_gig) ≤ 1)%nat as Hle by (cbn; lia).
  split; [exact Hup |]. split; [exact Hle |]. split; [| reflexivity].
  apply (proj1 at_most_one_primary Sample.image_ops Sample.logo_gig Hup Hle).
Defined.

(** C8 as stated fails when [addImage] is handed an image that is
    already flagged primary: after a first image, which the method makes
    primary, the second is stored with its own flag, and the gig has two
    primary images. *)
Lemma addImage_keeps_given_flag :
  primaries (g_images Sample.logo_gig) = 0%nat
  ∧ primaries
      (g_images
         (run [AddImage Sample.front; AddImage (with_isPrimary true Sample.back)]
            Sample.logo_gig)) = 2%nat.
Proof. split; reflexivity. Qed.

End ImageClaims.

(** * Further properties of the handlers *)

(** ** Orders: delivery, cancellation, repeated completion, status updates *)

Section OrderExtras.

Import Orders OrderAccess.

(** X1.  For every caller that [protect] has authenticated, [submitDelivery]
    answers 403 on every existing order and stores nothing, the order's
    seller included: its seller check compares a string with the ObjectId
    [req.user._id] by [!==]. *)
Theorem submitDelivery_rejects_authenticated (secret : string) (now : Z)
    (token : option Auth.Token) (caller : ReqUser) (id : string)
    (message : option string) (db : DB) (o : Order) :
  Auth.protect secret now token db = Next caller →
  orders db !! id = Some o →
  submitDelivery now [] caller id message db
    = (db, Fail 403 "Not authorized to submit delivery for this order").
Proof.
  intros Hp Ho.
  destruct (protect_attaches_document _ _ _ _ _ Hp) as (uid & u & _ & ->).
  unfold submitDelivery. rewrite Ho. by rewrite user_document_strict_neq.
Qed.

Lemma submitDelivery_rejects_authenticated_witness :
  Auth.protect Sample.secret 2000
    (Some (Auth.jwt_sign Sample.bob "freelancer" Sample.secret 1000)) Sample.db0
    = Next Sample.bob_req
  ∧ o_seller (Sample.mk_order pending) = ru_id Sample.bob_req
  ∧ submitDelivery 2000 [] Sample.bob_req Sample.order1 (Some "Here it is")
      Sample.db0
    = (Sample.db0, Fail 403 "Not authorized to submit delivery for this order").
Proof.
  split; [reflexivity |]. split; [reflexivity |].
  apply (submitDelivery_rejects_authenticated Sample.secret 2000
           (Some (Auth.jwt_sign Sample.bob "freelancer" Sample.secret 1000))
           Sample.bob_req Sample.order1 (Some "Here it is") Sample.db0
           (Sample.mk_order pending));
    reflexivity.
Defined.

(** X2.  For a caller that [protect] has authenticated, [cancelOrder] succeeds
    exactly when the caller's role is 'admin': an admin's request stores
    the order as cancelled, stamped with the time of the request and
    [cancelledBy] 'admin'; every other caller, buyer and seller included,
    gets 403 and nothing is stored. *)
Theorem cancelOrder_admin_only (secret : string) (now : Z)
    (token : option Auth.Token) (caller : ReqUser) (id : string)
    (reason : option string) (db : DB) (o : Order) :
  Auth.protect secret now token db = Next caller →
  orders db !! id = Some o →
  (ru_role caller ≠ "admin" →
   cancelOrder now caller id reason db
     = (db, Fail 403 "Not authorized to cancel this order"))
  ∧ (ru_role caller = "admin" →
     ∃ o', cancelOrder now caller id reason db
             = (set_orders (insert id o') db, Ok 200 o')
           ∧ o_status o' = cancelled ∧ o_cancelledDate o' = Some now
           ∧ o_cancelledBy o' = Some "admin"
           ∧ o_buyer o' = o_buyer o ∧ o_seller o' = o_seller o
           ∧ o_amount o' = o_amount o ∧ o_messages o' = o_messages o).
Proof.
  intros Hp Ho.
  destruct (protect_attaches_document _ _ _ _ _ Hp) as (uid & u & _ & ->).
  unfold cancelOrder. rewrite Ho, !user_document_strict_neq. split.
  - intros Hrole. apply String.eqb_neq in Hrole. by rewrite Hrole.
  - intros Hrole. rewrite Hrole. cbn. eexists. split; [reflexivity |].
    repeat split; reflexivity.
Qed.

Lemma cancelOrder_admin_only_witness :
  Auth.protect Sample.secret 2000
    (Some (Auth.jwt_sign Sample.alice "client" Sample.secret 1000)) Sample.db0
    = Next Sample.alice_req
  ∧ o_buyer (Sample.mk_order pending) = ru_id Sample.alice_req
  ∧ cancelOrder 2000 Sample.alice_req Sample.order1 None Sample.db0
    = (Sample.db0, Fail 403 "Not authorized to cancel this order").
Proof.
  split; [reflexivity |]. split; [reflexivity |].
  apply (proj1 (cancelOrder_admin_only Sample.secret 2000
                  (Some (Auth.jwt_sign Sample.alice "client" Sample.secret 1000))
                  Sample.alice_req Sample.order1 None Sample.db0
                  (Sample.mk_order pending) eq_refl eq_refl)).
  discriminate.
Defined.

(** X4.  [updateOrderStatus] touches nothing but the addressed order, and of
    that order only the status, the completion date and the message list,
    to which it appends at most one message of the caller; a caller who is
    neither admin, buyer nor seller gets 403, and no reply other than
    success stores anything. *)
Theorem updateOrderStatus_frame (now : Z) (errors : list string) (user : ReqUser)
    (id status : string) (message : option string) (db db' : DB)
    (r : reply Order) (o : Order) :
  orders db !! id = Some o →
  updateOrderStatus now errors user id status message db = (db', r) →
  users db' = users db ∧ gigs db' = gigs db ∧ reviews db' = reviews db
  ∧ (∀ id', id' ≠ id → orders db' !! id' = orders db !! id')
  ∧ (succeeded r = false → db' = db)
  ∧ (errors = [] → ru_role user ≠ "admin" →
     o_buyer o ≠ toString (ru__id user) → o_seller o ≠ toString (ru__id user) →
     r = Fail 403 "Not authorized to update this order")
  ∧ ∃ o', orders db' !! id = Some o'
          ∧ o_gig o' = o_gig o ∧ o_buyer o' = o_buyer o
          ∧ o_seller o' = o_seller o ∧ o_amount o' = o_amount o
          ∧ o_requirements o' = o_requirements o
          ∧ (o_messages o' = o_messages o
             ∨ ∃ m, o_messages o' = (o_messages o ++ [m])%list
                    ∧ om_sender m = toString (ru__id user)
                    ∧ om_timestamp m = now ∧ om_read m = false).
Proof.
  intros Ho. unfold updateOrderStatus.
  assert (∀ db1, db1 = db →
          users db1 = users db ∧ gigs db1 = gigs db ∧ reviews db1 = reviews db
          ∧ (∀ id', id' ≠ id → orders db1 !! id' = orders db !! id')) as Hsame
    by (by intros ? ->).
  destruct errors as [| e errors].
  2:{ intros [= <- <-]. destruct (Hsame db eq_refl) as (? & ? & ? & ?).
      repeat (split; [done |]). exists o. repeat split; try done. by left. }
  rewrite Ho.
  destruct (negb (ru_role user =? "admin")%string
            && negb (o_buyer o =? toString (ru__id user))%string
            && negb (o_seller o =? toString (ru__id user))%string) eqn:Hauth.
  { intros [= <- <-]. destruct (Hsame db eq_refl) as (? & ? & ? & ?).
    repeat (split; [done |]). exists o. repeat split; try done. by left. }
  assert (ru_role user ≠ "admin" → o_buyer o ≠ toString (ru__id user) →
          o_seller o ≠ toString (ru__id user) → False) as Hno.
  { intros H1 H2 H3. apply String.eqb_neq in H1, H2, H3.
    by rewrite H1, H2, H3 in Hauth. }
  destruct (parse_status status) as [s |].
  2:{ intros [= <- <-]. destruct (Hsame db eq_refl) as (? & ? & ? & ?).
      repeat (split; [done |]). split; [intros; exfalso; auto |].
      exists o. repeat split; try done. by left. }
  intros [= <- <-]. cbn [users gigs reviews orders set_orders].
  repeat (split; [done |]).
  split; [intros id' Hne; by rewrite lookup_insert_ne |].
  split; [done |]. split; [intros; exfalso; auto |].
  rewrite lookup_insert_eq. eexists. split; [reflexivity |].
  destruct (status =? "completed")%string, (has_text message); cbn;
    repeat split; try done; try (by left).
  all: right; eexists; split; [reflexivity |]; done.
Qed.

Lemma updateOrderStatus_frame_witness :
  orders Sample.db0 !! Sample.order1 = Some (Sample.mk_order pending)
  ∧ ∀ id', id' ≠ Sample.order1 →
      orders (fst (updateOrderStatus 1000 [] Sample.bob_req Sample.order1
                     "accepted" (Some " On it ") Sample.db0)) !! id'
      = orders Sample.db0 !! id'.
Proof.
  split; [reflexivity |].
  apply (updateOrderStatus_frame 1000 [] Sample.bob_req Sample.order1 "accepted"
           (Some " On it ") Sample.db0
           (fst (updateOrderStatus 1000 [] Sample.bob_req Sample.order1
                   "accepted" (Some " On it ") Sample.db0))
           (snd (updateOrderStatus 1000 [] Sample.bob_req Sample.order1
                   "accepted" (Some " On it ") Sample.db0))
           (Sample.mk_order pending));
    reflexivity.
Defined.

Lemma trimStart_white_space (w s : string) :
  w ∈ white_space → trimStart (w ++ s) = trimStart s.
Proof.
  intros Hw. unfold white_space in Hw. cbn [List.map] in Hw.
  repeat (apply elem_of_cons in Hw as [-> | Hw]; [reflexivity |]).
  by apply elem_of_nil in Hw.
Qed.

Lemma trim_only_spaces (s : string) : only_spaces s → trim s = "".
Proof.
  intros (ws & Hws & ->).
  assert (trimStart (fold_right String.append "" ws) = "") as Hstart.
  { induction Hws as [| w ws Hw _ IH]; [reflexivity |].
    cbn [fold_right]. by rewrite trimStart_white_space. }
  unfold trim. by rewrite Hstart.
Qed.

(** X5.  [sendOrderMessage] refuses a message without text before it looks at
    anything else: for a missing or empty content, or one made of white
    space only (any of the characters that [trim] removes), the reply is
    400 and nothing is stored, whoever asks and whether or not the order
    exists. *)
Theorem sendOrderMessage_blank (now : Z) (user : ReqUser) (id : string)
    (content : option string) (db : DB) :
  match content with
  | None => True
  | Some c => only_spaces c
  end →
  sendOrderMessage now user id content db
    = (db, Fail 400 "Message content is required").
Proof.
  intros Hc. unfold sendOrderMessage.
  assert (blank content = true) as ->; [| done].
  destruct content as [c |]; cbn; [| done].
  rewrite (trim_only_spaces c Hc). cbn. apply orb_true_r.
Qed.

(** A no-break space followed by a space. *)
Lemma sendOrderMessage_blank_witness :
  only_spaces (bytes [194; 160; 32]%nat)
  ∧ sendOrderMessage 1000 Sample.alice_req Sample.order1
      (Some (bytes [194; 160; 32]%nat)) Sample.db0
    = (Sample.db0, Fail 400 "Message content is required").
Proof.
  assert (only_spaces (bytes [194; 160; 32]%nat)) as Hws.
  { exists [bytes [194; 160]%nat; " "]. split; [| reflexivity].
    apply Forall_cons. split; [by apply (bool_decide_unpack _) |].
    apply Forall_cons. split; [by apply (bool_decide_unpack _) |].
    apply Forall_nil_2. }
  split; [exact Hws |].
  apply (sendOrderMessage_blank 1000 Sample.alice_req Sample.order1
           (Some (bytes [194; 160; 32]%nat)) Sample.db0 Hws).
Defined.

(** X6.  A message sent with [sendOrderMessage] by a caller it lets through is
    what [getOrderMessages] returns last: the earlier messages are kept in
    order, and the new one carries the trimmed, non-empty text, the time of
    the request and [read: false]. *)
Theorem sendOrderMessage_then_get (now : Z) (user : ReqUser) (id : string)
    (content : string) (db : DB) (o : Order) :
  orders db !! id = Some o →
  blank (Some content) = false →
  refused user o = false →
  ∃ db' m,
    sendOrderMessage now user id (Some content) db = (db', Ok 200 m)
    ∧ om_content m = trim content ∧ om_content m ≠ ""
    ∧ om_sender m = toString (ru__id user)
    ∧ om_timestamp m = now ∧ om_read m = false
    ∧ getOrderMessages user id db' = Ok 200 (o_messages o ++ [m])%list.
Proof.
  intros Ho Hb Href. unfold sendOrderMessage. rewrite Hb, Ho, Href.
  eexists _, _. split; [reflexivity |]. cbn [om_content om_sender om_timestamp om_read].
  split; [reflexivity |]. split.
  { cbn in Hb. apply orb_false_elim in Hb as [_ Hlen].
    change (trim (default "" (Some content))) with (trim content).
    intros Hempty. rewrite Hempty in Hlen. discriminate Hlen. }
  repeat (split; [reflexivity |]).
  unfold getOrderMessages. cbn [orders set_orders]. rewrite lookup_insert_eq.
  unfold refused in *. cbn [o_buyer o_seller]. by rewrite Href.
Qed.

(** An administrator, whose [_id] is the ObjectId that [protect] attaches,
    writes a text that begins with a no-break space and ends with a
    space: the stored text is 'Any news?'. *)
Lemma sendOrderMessage_then_get_witness :
  orders Sample.db0 !! Sample.order1 = Some (Sample.mk_order pending)
  ∧ blank (Some (bytes [194; 160]%nat ++ "Any news? ")) = false
  ∧ refused Sample.root_req (Sample.mk_order pending) = false
  ∧ ∃ db' m,
      sendOrderMessage 1000 Sample.root_req Sample.order1
        (Some (bytes [194; 160]%nat ++ "Any news? ")) Sample.db0 = (db', Ok 200 m)
      ∧ om_content m = "Any news?"
      ∧ om_timestamp m = 1000 ∧ om_read m = false
      ∧ getOrderMessages Sample.root_req Sample.order1 db'
        = Ok 200 (o_messages (Sample.mk_order pending) ++ [m])%list.
Proof.
  split; [reflexivity |]. split; [reflexivity |]. split; [reflexivity |].
  destruct (sendOrderMessage_then_get 1000 Sample.root_req Sample.order1
              (bytes [194; 160]%nat ++ "Any news? ") Sample.db0
              (Sample.mk_order pending) eq_refl eq_refl eq_refl)
    as (db' & m & Hsend & Hcontent & _ & _ & Htime & Hread & Hget).
  exists db', m. split; [exact Hsend |]. split; [| done].
  rewrite Hcontent. reflexivity.
Defined.

(** X7.  For a caller that [protect] has authenticated and who is not an
    admin, the order's messages can be neither read nor extended: both
    handlers answer 403 on every existing order, for its buyer and seller
    too. *)
Theorem order_messages_admin_only (secret : string) (now : Z)
    (token : option Auth.Token) (caller : ReqUser) (id : string)
    (content : string) (db : DB) (o : Order) :
  Auth.protect secret now token db = Next caller →
  orders db !! id = Some o →
  ru_role caller ≠ "admin" →
  blank (Some content) = false →
  getOrderMessages caller id db = Fail 403 "Not authorized to view this order"
  ∧ sendOrderMessage now caller id (Some content) db
    = (db, Fail 403 "Not authorized to send messages to this order").
Proof.
  intros Hp Ho Hrole Hb.
  destruct (protect_attaches_document _ _ _ _ _ Hp) as (uid & u & _ & ->).
  apply String.eqb_neq in Hrole.
  unfold getOrderMessages, sendOrderMessage. rewrite Hb, Ho.
  unfold refused. rewrite Hrole, !user_document_strict_neq. done.
Qed.

Lemma order_messages_admin_only_witness :
  Auth.protect Sample.secret 2000
    (Some (Auth.jwt_sign Sample.alice "client" Sample.secret 1000)) Sample.db0
    = Next Sample.alice_req
  ∧ o_buyer (Sample.mk_order pending) = ru_id Sample.alice_req
  ∧ getOrderMessages Sample.alice_req Sample.order1 Sample.db0
    = Fail 403 "Not authorized to view this order"
  ∧ sendOrderMessage 2000 Sample.alice_req Sample.order1 (Some "Any news?")
      Sample.db0
    = (Sample.db0, Fail 403 "Not authorized to send messages to this order").
Proof.
  split; [reflexivity |]. split; [reflexivity |].
  apply (order_messages_admin_only Sample.secret 2000
           (Some (Auth.jwt_sign Sample.alice "client" Sample.secret 1000))
           Sample.alice_req Sample.order1 "Any news?" Sample.db0
           (Sample.mk_order pending));
    first [reflexivity | discriminate].
Defined.

End OrderExtras.

(** ** Reviews: editing, deleting, and the one-review-per-order rule over
       whole request sequences *)

Section ReviewExtras.

Import Reviews ReviewEdits.

Lemma findById_review_id (id : string) (l : list Review) (review : Review) :
  findById id l = Some review → r_id review = id ∧ review ∈ l.
Proof.
  unfold findById. intros H. apply List.find_some in H as [Hin H].
  split; [by apply String.eqb_eq | by apply list_elem_of_In].
Qed.

(** Two members of a list that both satisfy [p] are equal when at most one
    member does. *)
Lemma filter_at_most_one {A} (p : A → bool) (l : list A) (x y : A) :
  (length (List.filter p l) ≤ 1)%nat → x ∈ l → y ∈ l →
  p x = true → p y = true → x = y.
Proof.
  induction l as [| z l IH]; intros Hlen Hx Hy Hpx Hpy.
  { by apply elem_of_nil in Hx. }
  cbn in Hlen. apply elem_of_cons in Hx, Hy.
  assert (∀ w, w ∈ l → p w = true → (1 ≤ length (List.filter p l))%nat) as Hpos.
  { intros w Hw Hpw. apply list_elem_of_In in Hw.
    assert (In w (List.filter p l)) as Hin by (apply List.filter_In; done).
    destruct (List.filter p l); [done | cbn; lia]. }
  destruct (p z) eqn:Hpz; cbn in Hlen.
  - destruct Hx as [-> | Hx], Hy as [-> | Hy]; try done.
    + specialize (Hpos _ Hy Hpy). lia.
    + specialize (Hpos _ Hx Hpx). lia.
    + specialize (Hpos _ Hx Hpx). lia.
  - destruct Hx as [-> | Hx]; [congruence |].
    destruct Hy as [-> | Hy]; [congruence |]. by apply IH.
Qed.

Lemma createReview_at_most_one (newId : string) (errors : list string)
    (user : ReqUser) (orderId : string) (rating : Z) (comment : string)
    (db : DB) (oid : string) :
  (reviews_of oid db ≤ 1)%nat →
  (reviews_of oid (fst (createReview newId errors user orderId rating comment db))
   ≤ 1)%nat.
Proof.
  intros Hle. unfold createReview.
  destruct errors; [| done].
  destruct (orders db !! orderId); [| done].
  destruct (negb _); [done |]. destruct (negb _); [done |].
  destruct (findOne_order orderId (reviews db)) eqn:Hf; [done |].
  destruct (negb _); [done |]. cbn [fst].
  by apply (reviews_of_append orderId).
Qed.

Lemma updateReview_at_most_one (errors : list string) (user : ReqUser)
    (id : string) (rating : option Z) (comment : option string) (db : DB)
    (oid : string) :
  (reviews_of oid db ≤ 1)%nat →
  (reviews_of oid (fst (updateReview errors user id rating comment db)) ≤ 1)%nat.
Proof.
  intros Hle. unfold updateReview.
  destruct errors; [| done].
  destruct (findById id (reviews db)) as [review |] eqn:Hf; [| done].
  destruct (negb _); [done |]. destruct (negb _); [done |]. cbn [fst].
  unfold reviews_of in *. cbn [reviews set_reviews].
  rewrite filter_update_first; [done |].
  intros x Hx. unfold findById in Hf. rewrite Hf in Hx. by injection Hx as <-.
Qed.

(** X8.  Whatever sequence of create, update and delete requests is served, an
    order never has more than one review: the rule holds after the
    sequence if it held before, in particular from an empty collection. *)
Theorem reviews_stay_single (reqs : list Request) (db : DB) :
  (∀ oid, (reviews_of oid db ≤ 1)%nat) →
  ∀ oid, (reviews_of oid (run reqs db) ≤ 1)%nat.
Proof.
  unfold run. revert db.
  induction reqs as [| req reqs IH]; intros db Hinv; cbn; [done |].
  apply IH. intros oid. specialize (Hinv oid).
  destruct req as [newId errors user orderId rating comment
                  | errors user id rating comment | user id]; cbn [handle].
  - by apply createReview_at_most_one.
  - by apply updateReview_at_most_one.
  - by apply deleteReview_at_most_one.
Qed.

(** Alice reviews [order2], edits the review, and asks to review the same
    order once more: one review is stored for it. *)
Lemma reviews_stay_single_witness :
  (∀ oid, (reviews_of oid Sample.db_completed ≤ 1)%nat)
  ∧ (reviews_of Sample.order2 (run Sample.review_requests Sample.db_completed)
     ≤ 1)%nat
  ∧ reviews_of Sample.order2 (run Sample.review_requests Sample.db_completed)
    = 1%nat.
Proof.
  assert (∀ oid, (reviews_of oid Sample.db_completed ≤ 1)%nat) as Hinv
    by (intros oid; cbn; lia).
  split; [exact Hinv |]. split; [| reflexivity].
  apply (reviews_stay_single Sample.review_requests Sample.db_completed Hinv).
Defined.



(** X10.  After the author has deleted a review, no review with that id is
    stored, the other reviews are kept, and (each order having had one
    review at most) the order has no review any more, so that the buyer's
    next [createReview] for it is accepted again. *)
Theorem deleteReview_reopens_order (user : ReqUser) (id : string) (db db' : DB)
    (review : Review) :
  findById id (reviews db) = Some review →
  deleteReview user id db = (db', Ok 200 tt) →
  (∀ oid, (reviews_of oid db ≤ 1)%nat) →
  r_reviewer review = ru_id user
  ∧ findById id (reviews db') = None
  ∧ findOne_order (r_order review) (reviews db') = None
  ∧ (∀ other, other ∈ reviews db → r_id other ≠ id → other ∈ reviews db')
  ∧ orders db' = orders db
  ∧ ∀ newId rating comment order,
      orders db !! r_order review = Some order →
      o_buyer order = ru_id user → o_status order = completed →
      schema_ok rating comment = true →
      succeeded (snd (createReview newId [] user (r_order review) rating comment db'))
      = true.
Proof.
  intros Hf. unfold deleteReview. rewrite Hf.
  destruct (r_reviewer review =? ru_id user)%string eqn:Hrev; cbn [negb];
    [| discriminate].
  apply String.eqb_eq in Hrev. intros [= <-] Hinv.
  cbn [reviews set_reviews orders].
  destruct (findById_review_id _ _ _ Hf) as [Hid Hin].
  assert (findOne_order (r_order review)
            (List.filter (λ r, negb (r_id r =? id)%string) (reviews db)) = None)
    as Hnone.
  { unfold findOne_order.
    destruct (List.find _ _) as [x |] eqn:Hx; [| done]. exfalso.
    apply List.find_some in Hx as [Hxin Hxo].
    apply List.filter_In in Hxin as [Hxin Hxid].
    apply list_elem_of_In in Hxin.
    assert (x = review) as ->.
    { apply (filter_at_most_one (λ r, (r_order r =? r_order review)%string)
               (reviews db)); try done.
      - apply (Hinv (r_order review)).
      - apply String.eqb_refl. }
    rewrite Hid, String.eqb_refl in Hxid. discriminate. }
  split; [done |]. split.
  { unfold findById. destruct (List.find _ _) as [x |] eqn:Hx; [| done]. exfalso.
    apply List.find_some in Hx as [Hxin Hxid].
    apply List.filter_In in Hxin as [_ Hne]. by rewrite Hxid in Hne. }
  split; [exact Hnone |]. split.
  { intros other Ho Hne. apply list_elem_of_In, List.filter_In.
    split; [by apply list_elem_of_In |].
    apply String.eqb_neq in Hne. by rewrite Hne. }
  split; [done |].
  intros newId rating comment order Ho Hb Hs Hok. unfold createReview.
  cbn [orders set_reviews reviews]. rewrite Ho, Hb, String.eqb_refl. cbn [negb].
  rewrite bool_decide_eq_true_2 by done. cbn [negb].
  by rewrite Hnone, Hok.
Qed.

Lemma deleteReview_reopens_order_witness :
  findById Sample.review1 (reviews Sample.db_reviewed) = Some Sample.alice_review
  ∧ deleteReview Sample.alice_req Sample.review1 Sample.db_reviewed
    = (Sample.db_completed, Ok 200 tt)
  ∧ findOne_order Sample.order2 (reviews Sample.db_completed) = None.
Proof.
  assert (deleteReview Sample.alice_req Sample.review1 Sample.db_reviewed
          = (Sample.db_completed, Ok 200 tt)) as Hrun by reflexivity.
  split; [reflexivity |]. split; [exact Hrun |].
  apply (deleteReview_reopens_order Sample.alice_req Sample.review1
           Sample.db_reviewed Sample.db_completed Sample.alice_review eq_refl Hrun).
  intros oid. unfold reviews_of.
  change (reviews Sample.db_reviewed) with [Sample.alice_review].
  cbn [List.filter]. destruct (_ =? oid)%string; cbn [length]; lia.
Defined.

End ReviewExtras.

(** ** Accounts: registration, password change, and who gets past [protect] *)

Section AccountExtras.

Import Auth Accounts.

Lemma findOne_email_None (email : string) (us : gmap string User) :
  findOne_email email us = None →
  ∀ i u, us !! i = Some u → u_email u ≠ email.
Proof.
  unfold findOne_email. intros Hnone i u Hu He.
  apply elem_of_map_to_list, list_elem_of_In in Hu.
  pose proof (List.find_none _ _ Hnone _ Hu) as Hf. cbn in Hf.
  apply String.eqb_neq in Hf. done.
Qed.

Lemma findOne_email_present (email : string) (us : gmap string User) (i : string)
    (u : User) :
  us !! i = Some u → u_email u = email → is_Some (findOne_email email us).
Proof.
  intros Hu He. destruct (findOne_email email us) eqn:Hf; [done |].
  by destruct (findOne_email_None _ _ Hf i u Hu).
Qed.

(** After an insert under key [k], the search by the new document's email
    finds that document, provided every other holder of the email is
    excluded. *)
Lemma findOne_email_insert (email : string) (us : gmap string User) (k : string)
    (u : User) :
  u_email u = email →
  (∀ i v, i ≠ k → us !! i = Some v → u_email v ≠ email) →
  findOne_email email (<[k := u]> us) = Some (k, u).
Proof.
  intros He Hothers.
  destruct (findOne_email_present email (<[k := u]> us) k u) as [[i v] Hf];
    [apply lookup_insert_eq | done |].
  rewrite Hf. apply findOne_email_lookup in Hf as [Hv Hev].
  destruct (decide (i = k)) as [-> | Hne].
  - rewrite lookup_insert_eq in Hv. by injection Hv as <-.
  - rewrite lookup_insert_ne in Hv by done. by destruct (Hothers i v Hne Hv).
Qed.

(** X11.  [register] keeps the emails of the stored users distinct, stores
    nothing when the normalised email is already in use (a valid request
    is then answered 400 or 500), and otherwise stores at most one new
    user, under the new id, with the normalised email, the hashed password
    and the flags of a fresh account. *)
Theorem register_keeps_emails_unique (toLowerCase : string → string)
    (bcrypt_hash : string → string → string)
    (JWT_SECRET : string) (runSettersOnQuery : bool) (now : Z)
    (newId salt : string) (errors : list string)
    (name email password role : string) (db db' : DB) (r : RegisterReply) :
  register toLowerCase bcrypt_hash JWT_SECRET runSettersOnQuery now newId salt errors name
    email password role db = (db', r) →
  users db !! newId = None →
  emails_unique (users db) →
  emails_unique (users db')
  ∧ (∀ i u, users db !! i = Some u → u_email u = stored_email toLowerCase email →
       db' = db
       ∧ (errors = [] →
          ∃ code msg, r = RegisterRejected code msg ∧ (code = 400 ∨ code = 500)))
  ∧ (db' = db
     ∨ ∃ user, db' = set_users (insert newId user) db
               ∧ u_email user = stored_email toLowerCase email
               ∧ u_password user = bcrypt_hash salt password
               ∧ u_role user = role ∧ role ∈ roles
               ∧ u_isActive user = true ∧ u_isSuspended user = false
               ∧ u_totalOrders user = 0 ∧ u_totalEarnings user = 0).
Proof.
  unfold register. intros Hrun Hfresh Huniq.
  destruct errors as [| e errors].
  2:{ injection Hrun as <- <-. split; [done |]. split; [| by left]. done. }
  destruct (findOne_email _ (users db)) as [found |].
  { injection Hrun as <- <-. split; [done |]. split; [| by left].
    intros i u _ _. split; [done |]. intros _. eexists _, _. split; [done | by left]. }
  destruct (truthy (trim name) && truthy (stored_email toLowerCase email) && truthy password
            && bool_decide (role ∈ roles)) eqn:Hvalid; cbn [negb] in Hrun.
  2:{ injection Hrun as <- <-. split; [done |]. split; [| by left].
      intros i u _ _. split; [done |]. intros _. eexists _, _. split; [done | by right]. }
  unfold email_taken in Hrun.
  destruct (findOne_email (stored_email toLowerCase email) (users db)) as [found |] eqn:Htaken.
  { injection Hrun as <- <-. split; [done |]. split; [| by left].
    intros i u _ _. split; [done |]. intros _. eexists _, _. split; [done | by right]. }
  injection Hrun as <- <-. cbn [users set_users]. split; [| split].
  - intros i j u v Hu Hv He.
    destruct (decide (i = newId)) as [-> | Hi], (decide (j = newId)) as [-> | Hj];
      try done.
    + rewrite lookup_insert_eq in Hu. rewrite lookup_insert_ne in Hv by done.
      injection Hu as <-. cbn in He.
      by destruct (findOne_email_None _ _ Htaken j v Hv).
    + rewrite lookup_insert_eq in Hv. rewrite lookup_insert_ne in Hu by done.
      injection Hv as <-. cbn in He.
      by destruct (findOne_email_None _ _ Htaken i u Hu).
    + rewrite lookup_insert_ne in Hu, Hv by done. by apply (Huniq i j u v).
  - intros i u Hu He. by destruct (findOne_email_None _ _ Htaken i u Hu).
  - right. eexists. split; [reflexivity |]. cbn.
    apply andb_prop in Hvalid as [_ Hrole]. apply bool_decide_eq_true_1 in Hrole.
    done.
Qed.

(** The users of the sample database have distinct emails. *)
Lemma db0_emails_unique : emails_unique (users Sample.db0).
Proof.
  intros i j u v Hu Hv He.
  assert (∀ k w, users Sample.db0 !! k = Some w →
          (k = Sample.alice ∧ w = Sample.alice_doc)
          ∨ (k = Sample.bob ∧ w = Sample.bob_doc)
          ∨ (k = Sample.carol ∧ w = Sample.carol_doc)) as Hcases.
  { intros k w. unfold Sample.db0. cbn [users].
    destruct (decide (k = Sample.alice)) as [-> | Ha].
    { rewrite lookup_insert_eq. intros [= <-]. auto. }
    rewrite lookup_insert_ne by done.
    destruct (decide (k = Sample.bob)) as [-> | Hb].
    { rewrite lookup_insert_eq. intros [= <-]. auto. }
    rewrite lookup_insert_ne by done.
    destruct (decide (k = Sample.carol)) as [-> | Hc].
    { rewrite lookup_insert_eq. intros [= <-]. auto. }
    rewrite lookup_insert_ne by done. by rewrite lookup_empty. }
  destruct (Hcases i u Hu) as [[-> ->] | [[-> ->] | [-> ->]]],
           (Hcases j v Hv) as [[-> ->] | [[-> ->] | [-> ->]]];
    first [reflexivity | discriminate He].
Qed.

(** Dave registers with Alice's address in capitals: nothing is stored. *)
Lemma register_keeps_emails_unique_witness :
  users Sample.db0 !! Sample.dave = None
  ∧ users Sample.db0 !! Sample.alice = Some Sample.alice_doc
  ∧ u_email Sample.alice_doc = stored_email Sample.toy_lower " Alice@Example.com"
  ∧ fst (register Sample.toy_lower Sample.toy_hash Sample.secret false 1000 Sample.dave "salt" []
           "Dave" " Alice@Example.com" "pw-d" "client" Sample.db0) = Sample.db0.
Proof.
  split; [reflexivity |]. split; [reflexivity |]. split; [reflexivity |].
  pose proof db0_emails_unique as Huniq.
  destruct (register_keeps_emails_unique Sample.toy_lower Sample.toy_hash Sample.secret false 1000
              Sample.dave "salt" [] "Dave" " Alice@Example.com" "pw-d" "client"
              Sample.db0 _ _ (surjective_pairing _) eq_refl Huniq)
    as (_ & Hdup & _).
  apply (Hdup Sample.alice Sample.alice_doc eq_refl eq_refl).
Defined.

(** X12.  A successful registration can be used at once: the cookie's token is
    accepted by [protect] until 24 hours after the start of the second in
    which it was signed, and attaches the new user; from then on it is
    refused.  A login with the same password and an email that the
    schema's setters bring to the same stored form (the one given at
    registration in particular) succeeds for that user, given that
    [bcrypt.compare] accepts a password against its own hash. *)
Theorem register_then_login (toLowerCase : string → string)
    (bcrypt_hash : string → string → string)
    (bcrypt_compare : string → string → bool)
    (JWT_SECRET : string) (runSettersOnQuery : bool) (now : Z)
    (newId salt : string) (errors : list string)
    (name email password role : string) (db db' : DB)
    (cookie : Token) (profile : Profile) :
  (∀ salt p, bcrypt_compare p (bcrypt_hash salt p) = true) →
  register toLowerCase bcrypt_hash JWT_SECRET runSettersOnQuery now newId salt errors name
    email password role db = (db', Registered cookie profile) →
  p__id profile = newId ∧ p_email profile = stored_email toLowerCase email
  ∧ p_role profile = role
  ∧ ∃ user,
      users db' !! newId = Some user
      ∧ (∀ now', now' < 1000 * (now / 1000) + one_day →
           protect JWT_SECRET now' (Some cookie) db' = Next (user_document newId user))
      ∧ (∀ now', 1000 * (now / 1000) + one_day ≤ now' →
           protect JWT_SECRET now' (Some cookie) db'
           = Reject 401 "Token is not valid")
      ∧ ∀ now' email', stored_email toLowerCase email' = stored_email toLowerCase email →
          ∃ token shown,
            login toLowerCase bcrypt_compare JWT_SECRET now' [] email' (Some password) db'
              = LoginOk token shown token
            ∧ lu__id shown = newId.
Proof.
  intros Hbcrypt. unfold register.
  destruct errors as [| e errors]; [| discriminate].
  destruct (findOne_email _ (users db)); [discriminate |].
  destruct (truthy (trim name) && truthy (stored_email toLowerCase email) && truthy password
            && bool_decide (role ∈ roles)) eqn:Hvalid; cbn [negb]; [| discriminate].
  unfold email_taken.
  destruct (findOne_email (stored_email toLowerCase email) (users db)) eqn:Htaken;
    [discriminate |].
  intros [= <- <- <-]. cbn [p__id p_email p_role users set_users].
  repeat (split; [reflexivity |]).
  eexists. split; [apply lookup_insert_eq |]. split; [| split].
  - intros now' Hlt. unfold protect, generateToken.
    rewrite (jwt_verify_sign _ _ _ _ _ Hlt). cbn [users set_users].
    rewrite lookup_insert_eq. cbn.
    apply andb_prop in Hvalid as [_ Hrole]. apply bool_decide_eq_true_1 in Hrole.
    rewrite bool_decide_eq_true_2; [done |].
    unfold roles, validRoles in *.
    repeat (apply elem_of_cons in Hrole as [-> | Hrole];
            [by apply (bool_decide_unpack _) |]).
    by apply elem_of_nil in Hrole.
  - intros now' Hle. unfold protect, generateToken.
    by rewrite (jwt_verify_expired _ _ _ _ _ Hle).
  - intros now' email' Hsame. unfold login. cbn [users set_users]. rewrite Hsame.
    rewrite (findOne_email_insert (stored_email toLowerCase email)); [| done |].
    + cbn. rewrite Hbcrypt. cbn. eexists _, _. split; reflexivity.
    + intros i v _ Hv. by apply (findOne_email_None _ _ Htaken i v).
Qed.

(** Dave registers at 1.5 s and logs in with his address as he typed it;
    his cookie is good until 86401 s. *)
Lemma register_then_login_witness :
  (∀ salt p, Sample.toy_compare p (Sample.toy_hash salt p) = true)
  ∧ ∃ db' cookie profile,
      register Sample.toy_lower Sample.toy_hash Sample.secret true 1500 Sample.dave "salt" []
        " Dave " "Dave@Example.com " "pw-d" "client" Sample.db0
      = (db', Registered cookie profile)
      ∧ p_email profile = "dave@example.com"
      ∧ protect Sample.secret 86401000 (Some cookie) db'
        = Reject 401 "Token is not valid"
      ∧ ∃ token shown,
          login Sample.toy_lower Sample.toy_compare Sample.secret 5000 [] "Dave@Example.com "
            (Some "pw-d") db'
          = LoginOk token shown token
          ∧ lu__id shown = Sample.dave.
Proof.
  assert (∀ salt p, Sample.toy_compare p (Sample.toy_hash salt p) = true) as Hb.
  { intros salt p. unfold Sample.toy_compare, Sample.toy_hash. apply String.eqb_refl. }
  split; [exact Hb |].
  eexists _, _, _. split; [reflexivity |]. split; [reflexivity |].
  destruct (register_then_login Sample.toy_lower Sample.toy_hash Sample.toy_compare Sample.secret
              true 1500 Sample.dave "salt" [] " Dave " "Dave@Example.com " "pw-d"
              "client" Sample.db0 _ _ _ Hb eq_refl)
    as (_ & _ & _ & user & _ & _ & Hexpired & Hlogin).
  split.
  - apply (Hexpired 86401000). by apply (bool_decide_unpack _).
  - exact (Hlogin 5000 "Dave@Example.com " eq_refl).
Defined.

(** X13.  [changePassword] stores nothing unless the current password matches;
    when it succeeds it changes nothing of the caller's account but the
    stored hash, which becomes the hash of the new password, unless the new
    password is, character for character, the stored hash itself: the
    field then counts as unmodified and the hash stays.  The emails of the
    stored users being distinct, a login with an email that the setters
    bring to that account's email is accepted from then on exactly for the
    passwords that [bcrypt.compare] accepts against the hash now stored. *)
Theorem changePassword_then_login (toLowerCase : string → string)
    (bcrypt_hash : string → string → string)
    (bcrypt_compare : string → string → bool) (JWT_SECRET salt : string)
    (user : ReqUser) (current new : string) (db db' : DB) (reply : Z * string)
    (u : User) :
  users db !! ru_id user = Some u →
  emails_unique (users db) →
  changePassword bcrypt_hash bcrypt_compare salt user (Some current) (Some new) db
    = (db', reply) →
  (bcrypt_compare current (u_password u) = false → db' = db ∧ fst reply = 400)
  ∧ (fst reply = 200 →
     bcrypt_compare current (u_password u) = true
     ∧ ∃ u', users db' = <[ru_id user := u']> (users db)
             ∧ u_password u'
               = (if String.eqb new (u_password u) then u_password u
                  else bcrypt_hash salt new)
             ∧ u_email u' = u_email u ∧ u_role u' = u_role u
             ∧ u_name u' = u_name u
             ∧ u_isActive u' = u_isActive u ∧ u_isSuspended u' = u_isSuspended u
             ∧ u_totalOrders u' = u_totalOrders u
             ∧ u_totalEarnings u' = u_totalEarnings u
             ∧ ∀ now email password,
                 stored_email toLowerCase email = u_email u →
                 (∃ token shown,
                    login toLowerCase bcrypt_compare JWT_SECRET now [] email (Some password) db'
                    = LoginOk token shown token ∧ lu__id shown = ru_id user)
                 ↔ bcrypt_compare password (u_password u') = true).
Proof.
  intros Hu Huniq. unfold changePassword.
  destruct (negb (truthy current) || negb (truthy new)).
  { intros [= <- <-]. cbn. split; [done | discriminate]. }
  rewrite Hu.
  destruct (bcrypt_compare current (u_password u)) eqn:Hcur; cbn [negb].
  2:{ intros [= <- <-]. cbn. split; [done | discriminate]. }
  intros [= <- <-]. cbn [fst users set_users]. split; [discriminate |].
  intros _. split; [done |]. eexists. split; [reflexivity |].
  cbn [u_password u_email u_role u_name u_isActive u_isSuspended u_totalOrders
       u_totalEarnings].
  repeat (split; [reflexivity |]).
  intros now email password Hemail. unfold login. cbn [users set_users].
  rewrite Hemail.
  rewrite (findOne_email_insert (u_email u)); [| done |].
  - cbn [u_password].
    destruct (bcrypt_compare password
                (if String.eqb new (u_password u) then u_password u
                 else bcrypt_hash salt new)); cbn.
    + split; [done |]. intros _. eexists _, _. split; reflexivity.
    + split; [| discriminate]. intros (? & ? & ? & _). discriminate.
  - intros i v Hne Hv He. apply Hne. symmetry in He. by apply (Huniq _ _ _ _ Hv Hu).
Qed.

(** Alice replaces her password: the old one no longer logs her in, the
    new one does. *)
Lemma changePassword_then_login_witness :
  users Sample.db0 !! ru_id Sample.alice_req = Some Sample.alice_doc
  ∧ ∃ db',
      changePassword Sample.toy_hash Sample.toy_compare "salt" Sample.alice_req
        (Some "pw-a") (Some "pw-new") Sample.db0
      = (db', (200, "Password updated successfully"))
      ∧ (∃ token shown,
           login Sample.toy_lower Sample.toy_compare Sample.secret 2000 [] "Alice@Example.com"
             (Some "pw-new") db' = LoginOk token shown token
           ∧ lu__id shown = Sample.alice)
      ∧ ¬ ∃ token shown,
           login Sample.toy_lower Sample.toy_compare Sample.secret 2000 [] "Alice@Example.com"
             (Some "pw-a") db' = LoginOk token shown token
           ∧ lu__id shown = Sample.alice.
Proof.
  split; [reflexivity |].
  eexists. split; [reflexivity |].
  destruct (changePassword_then_login Sample.toy_lower Sample.toy_hash Sample.toy_compare
              Sample.secret "salt" Sample.alice_req "pw-a" "pw-new" Sample.db0
              _ _ Sample.alice_doc eq_refl db0_emails_unique eq_refl) as [_ Hok].
  destruct (Hok eq_refl) as (_ & u' & _ & Hpw & _ & _ & _ & _ & _ & _ & _ & Hlogin).
  change (String.eqb "pw-new" (u_password Sample.alice_doc)) with false in Hpw.
  split.
  - apply (Hlogin 2000 "Alice@Example.com" "pw-new" eq_refl).
    rewrite Hpw. reflexivity.
  - intros Hold. apply (Hlogin 2000 "Alice@Example.com" "pw-a" eq_refl) in Hold.
    rewrite Hpw in Hold. discriminate Hold.
Defined.

End AccountExtras.

(** ** The rate limiter *)

Section LimiterExtras.

Import Limiter.

Lemma filter_window_later (windowMs t t' : Z) (l : list Z) :
  t ≤ t' →
  List.filter (fun time => t' - windowMs <? time)
    (List.filter (fun time => t - windowMs <? time) l)
  = List.filter (fun time => t' - windowMs <? time) l.
Proof.
  intros Hle. induction l as [| x l IH]; [reflexivity |]. cbn.
  destruct (t - windowMs <? x) eqn:H1; cbn; destruct (t' - windowMs <? x) eqn:H2;
    try (by rewrite IH); lia.
Qed.

Lemma filter_length_le_list {A} (f : A → bool) (l : list A) :
  (length (List.filter f l) ≤ length l)%nat.
Proof. induction l as [| x l IH]; cbn; [lia |]. destruct (f x); cbn; lia. Qed.

Lemma recent_later (windowMs t t' : Z) (l : list Z) :
  t ≤ t' → (recent windowMs t' l ≤ recent windowMs t l)%nat.
Proof.
  intros Hle. unfold recent. rewrite <- (filter_window_later windowMs t t' l Hle).
  apply filter_length_le_list.
Qed.

Lemma times_of_app (key : string) (passed : list (string * Z)) (k : string) (now : Z) :
  times_of key (passed ++ [(k, now)])
  = (times_of key passed ++ if String.eqb k key then [now] else [])%list.
Proof.
  unfold times_of. rewrite List.filter_app, List.map_app. cbn.
  by destruct (String.eqb k key).
Qed.

Lemma in_window_le_recent (windowMs t : Z) (l : list Z) :
  (in_window windowMs t l ≤ recent windowMs t l)%nat.
Proof.
  unfold in_window, recent. induction l as [| x l IH]; cbn; [lia |].
  destruct (t - windowMs <? x); cbn; [| lia]. destruct (x <=? t); cbn; lia.
Qed.

(** One call of the middleware: the answer depends only on the number of
    recent times of the key among those let through, and the stored lists
    keep tracking them. *)
Lemma rateLimit_tracks (maxRequests : nat) (windowMs last : Z) (key : string)
    (now : Z) (requests requests' : gmap string (list Z)) (ok : bool)
    (passed : list (string * Z)) :
  tracks windowMs last requests passed →
  last ≤ now →
  rateLimit maxRequests windowMs key now requests = (requests', ok) →
  ok = negb (maxRequests <=? recent windowMs now (times_of key passed))%nat
  ∧ tracks windowMs now requests'
      (if ok then (passed ++ [(key, now)])%list else passed).
Proof.
  intros Htracks Hlast. unfold rateLimit.
  set (requests1 := match requests !! key with
                    | Some _ => requests | None => <[key := []]> requests end).
  assert (∀ k, default [] (requests1 !! k) = default [] (requests !! k)) as Hsame.
  { intros k. unfold requests1. destruct (requests !! key) eqn:Hkey; [done |].
    destruct (decide (k = key)) as [-> | Hne].
    - by rewrite lookup_insert_eq, Hkey.
    - by rewrite lookup_insert_ne. }
  rewrite Hsame, (Htracks key now Hlast).
  fold (recent windowMs now (times_of key passed)).
  destruct (maxRequests <=? recent windowMs now (times_of key passed))%nat eqn:Hfull;
    intros [= <- <-]; (split; [reflexivity |]).
  - intros k t Ht. rewrite Hsame. apply Htracks. lia.
  - intros k t Ht. rewrite times_of_app, List.filter_app.
    destruct (decide (key = k)) as [-> | Hne].
    + rewrite lookup_insert_eq, String.eqb_refl. cbn [default]. unfold id.
      rewrite List.filter_app. by rewrite filter_window_later.
    + rewrite lookup_insert_ne by done. rewrite Hsame.
      apply String.eqb_neq in Hne. rewrite Hne. cbn [List.filter].
      rewrite app_nil_r. apply Htracks. lia.
Qed.

Lemma serve_bounded (maxRequests : nat) (windowMs : Z) (events : list (string * Z)) :
  ∀ (last : Z) (requests requests' : gmap string (list Z))
    (passed passed' : list (string * Z)),
  tracks windowMs last requests passed →
  (∀ key t, (in_window windowMs t (times_of key passed) ≤ maxRequests)%nat) →
  ascending last events →
  serve maxRequests windowMs events requests passed = (requests', passed') →
  ∀ key t, (in_window windowMs t (times_of key passed') ≤ maxRequests)%nat.
Proof.
  induction events as [| [k now] events IH];
    intros last requests requests' passed passed' Htracks Hbound Hasc Hserve.
  { cbn in Hserve. by injection Hserve as <- <-. }
  cbn in Hasc. destruct Hasc as [Hlast Hasc]. cbn [serve] in Hserve.
  destruct (rateLimit maxRequests windowMs k now requests) as [requests1 ok] eqn:Hrate.
  destruct (rateLimit_tracks _ _ _ _ _ _ _ _ _ Htracks Hlast Hrate) as [Hok Htracks1].
  apply (IH now requests1 requests' _ passed' Htracks1); [| done | done].
  intros key t. destruct ok; [| apply Hbound].
  rewrite times_of_app. destruct (String.eqb k key) eqn:Hk;
    [| rewrite app_nil_r; apply Hbound].
  apply String.eqb_eq in Hk as ->.
  symmetry in Hok. apply negb_true_iff, Nat.leb_gt in Hok.
  unfold in_window. rewrite List.filter_app, length_app. cbn [List.filter].
  destruct ((t - windowMs <? now) && (now <=? t)) eqn:Hin; cbn [length].
  - apply andb_prop in Hin as [_ Hin]. apply Z.leb_le in Hin.
    pose proof (in_window_le_recent windowMs t (times_of key passed)) as H1.
    pose proof (recent_later windowMs now t (times_of key passed) Hin) as H2.
    unfold in_window in H1. lia.
  - specialize (Hbound key t). unfold in_window in Hbound. lia.
Qed.

(** X14.  The limiter keeps its promise on every window, not only on those that
    end at a request: when the clock does not go backwards, no key is let
    through more than [maxRequests] times within any span of [windowMs]. *)
Theorem rateLimit_window_bound (maxRequests : nat) (windowMs start : Z)
    (events : list (string * Z)) (requests' : gmap string (list Z))
    (passed : list (string * Z)) :
  ascending start events →
  serve maxRequests windowMs events ∅ [] = (requests', passed) →
  ∀ key t, (in_window windowMs t (times_of key passed) ≤ maxRequests)%nat.
Proof.
  intros Hasc Hserve.
  apply (serve_bounded maxRequests windowMs events start ∅ requests' [] passed);
    [| | done | done].
  - intros key t _. by rewrite lookup_empty.
  - intros key t. cbn. lia.
Qed.

(** Two requests per second: Alice's third request is refused, the later
    ones pass once the first ones have left the window. *)
Lemma rateLimit_window_bound_witness :
  ascending 0 Sample.visits
  ∧ snd (serve 2 1000 Sample.visits ∅ [])
    = [(Sample.alice, 0); (Sample.alice, 10); (Sample.bob, 30);
       (Sample.alice, 1005); (Sample.alice, 1011)]
  ∧ (in_window 1000 1010
       (times_of Sample.alice (snd (serve 2 1000 Sample.visits ∅ []))) ≤ 2)%nat.
Proof.
  assert (ascending 0 Sample.visits) as Hasc by (cbn; lia).
  split; [exact Hasc |]. split; [reflexivity |].
  apply (rateLimit_window_bound 2 1000 0 Sample.visits
           (fst (serve 2 1000 Sample.visits ∅ [])) _ Hasc (surjective_pairing _)).
Defined.

Lemma tracks_later (windowMs last b : Z) (requests : gmap string (list Z))
    (passed : list (string * Z)) :
  tracks windowMs last requests passed → last ≤ b →
  tracks windowMs b requests passed.
Proof. intros H Hle key t Ht. apply H. lia. Qed.

Lemma ascending_earlier (events : list (string * Z)) (last last' : Z) :
  ascending last events → last' ≤ last → ascending last' events.
Proof. destruct events as [| [k now] events]; cbn; [done |]. intros [H1 H2] Hle. split; [lia | done]. Qed.

Lemma serve_tracks (maxRequests : nat) (windowMs b : Z) (events : list (string * Z)) :
  ∀ (last : Z) (requests requests' : gmap string (list Z))
    (passed passed' : list (string * Z)),
  tracks windowMs last requests passed →
  ascending last events → last ≤ b →
  Forall (λ e, snd e ≤ b) events →
  Forall (λ e, snd e ≤ b) passed →
  serve maxRequests windowMs events requests passed = (requests', passed') →
  tracks windowMs b requests' passed' ∧ Forall (λ e, snd e ≤ b) passed'.
Proof.
  induction events as [| [k now] events IH];
    intros last requests requests' passed passed' Htracks Hasc Hlast Hev Hpassed Hserve.
  { cbn in Hserve. injection Hserve as <- <-. split; [| done].
    by apply (tracks_later _ last). }
  cbn in Hasc. destruct Hasc as [Hnow Hasc]. cbn [serve] in Hserve.
  apply Forall_cons in Hev as [Hk Hev]. cbn in Hk.
  destruct (rateLimit maxRequests windowMs k now requests) as [requests1 ok] eqn:Hrate.
  destruct (rateLimit_tracks _ _ _ _ _ _ _ _ _ Htracks Hnow Hrate) as [_ Htracks1].
  apply (IH now requests1 requests' _ passed' Htracks1); try done.
  destruct ok; [| done]. apply Forall_app. split; [done |]. by apply Forall_singleton.
Qed.

Lemma recent_in_window (windowMs now : Z) (times : list Z) :
  Forall (λ time, time ≤ now) times →
  recent windowMs now times = in_window windowMs now times.
Proof.
  unfold recent, in_window. induction 1 as [| x l Hx _ IH]; [reflexivity |]. cbn.
  apply Z.leb_le in Hx. rewrite Hx, andb_true_r.
  destruct (now - windowMs <? x); cbn; by rewrite IH.
Qed.

(** X15.  The limiter refuses nothing it should let through: after requests
    whose times do not go backwards, a request is refused exactly when
    [maxRequests] requests of its key were let through in the window that
    ends now. *)
Theorem rateLimit_refuses_at_limit_only (maxRequests : nat) (windowMs start : Z)
    (events : list (string * Z)) (requests : gmap string (list Z))
    (passed : list (string * Z)) (key : string) (now : Z) :
  ascending start events →
  Forall (λ e, snd e ≤ now) events →
  serve maxRequests windowMs events ∅ [] = (requests, passed) →
  snd (rateLimit maxRequests windowMs key now requests)
  = (in_window windowMs now (times_of key passed) <? maxRequests)%nat.
Proof.
  intros Hasc Hev Hserve.
  assert (tracks windowMs (Z.min start now) ∅ []) as Hinit.
  { intros k t _. by rewrite lookup_empty. }
  assert (ascending (Z.min start now) events) as Hasc'.
  { apply (ascending_earlier _ start); [done | lia]. }
  destruct (serve_tracks maxRequests windowMs now events (Z.min start now) ∅ requests
              [] passed Hinit Hasc' (Z.le_min_r _ _) Hev (Forall_nil_2 _) Hserve)
    as [Htracks Hpassed].
  destruct (rateLimit maxRequests windowMs key now requests) as [requests' ok] eqn:Hrate.
  destruct (rateLimit_tracks _ _ _ _ _ _ _ _ _ Htracks (Z.le_refl now) Hrate) as [-> _].
  cbn [snd]. rewrite recent_in_window.
  - destruct (Nat.leb_spec maxRequests (in_window windowMs now (times_of key passed)));
      destruct (Nat.ltb_spec (in_window windowMs now (times_of key passed)) maxRequests);
      cbn; first [reflexivity | lia].
  - unfold times_of. apply Forall_forall. intros x Hx.
    apply list_elem_of_In, in_map_iff in Hx as (e & <- & He).
    apply filter_In in He as [He _].
    rewrite Forall_forall in Hpassed. apply Hpassed. by apply list_elem_of_In.
Qed.

(** After the sample requests Alice has two requests in the window that
    ends at 1500 and is refused; Bob has none and is let through. *)
Lemma rateLimit_refuses_at_limit_only_witness :
  ascending 0 Sample.visits
  ∧ Forall (λ e, snd e ≤ 1500) Sample.visits
  ∧ snd (rateLimit 2 1000 Sample.alice 1500 (fst (serve 2 1000 Sample.visits ∅ [])))
    = false
  ∧ snd (rateLimit 2 1000 Sample.bob 1500 (fst (serve 2 1000 Sample.visits ∅ [])))
    = true.
Proof.
  assert (ascending 0 Sample.visits) as Hasc by (cbn; lia).
  assert (Forall (λ e, snd e ≤ 1500) Sample.visits) as Hev.
  { unfold Sample.visits. repeat (apply Forall_cons; split; [cbn; lia |]).
    apply Forall_nil_2. }
  split; [exact Hasc |]. split; [exact Hev |]. split.
  - rewrite (rateLimit_refuses_at_limit_only 2 1000 0 Sample.visits _ _ Sample.alice
               1500 Hasc Hev (surjective_pairing _)).
    reflexivity.
  - rewrite (rateLimit_refuses_at_limit_only 2 1000 0 Sample.visits _ _ Sample.bob
               1500 Hasc Hev (surjective_pairing _)).
    reflexivity.
Defined.

End LimiterExtras.

(** ** Access control and the gig image routes *)

Section GigExtras.

Import Auth GigImages GigRoutes.

(** X16.  [authorizeRoles] behind [protect] decides by the role stored for the
    token's user at the time of the request: the caller it lets through is
    an active, unsuspended stored user whose role is among the required
    ones, the token is unexpired and signed with the server's secret, and
    the role recorded in the token plays no part. *)
Theorem protect_then_authorizeRoles (secret : string) (now : Z) (t : Token)
    (db : DB) (caller : ReqUser) (required : list string) :
  protect secret now (Some t) db = Next caller →
  authorizeRoles required caller = Next tt →
  tk_key t = secret ∧ now < tk_exp t
  ∧ (∃ u, users db !! tk_id t = Some u ∧ caller = user_document (tk_id t) u
          ∧ u_isActive u = true ∧ u_isSuspended u = false ∧ u_role u ∈ required)
  ∧ ∀ role',
      protect secret now
        (Some {| tk_id := tk_id t; tk_role := role'; tk_exp := tk_exp t;
                 tk_key := tk_key t |}) db = Next caller.
Proof.
  unfold protect, jwt_verify. cbn [tk_id tk_role tk_exp tk_key].
  destruct (String.eqb (tk_key t) secret) eqn:Hkey; [| discriminate].
  destruct (now <? tk_exp t) eqn:Hexp; [| discriminate]. cbn [andb].
  destruct (users db !! tk_id t) as [u |] eqn:Hu; [| discriminate].
  destruct (u_isActive u) eqn:Hact; [| discriminate]. cbn [negb].
  destruct (u_isSuspended u) eqn:Hsus; [discriminate |].
  destruct (bool_decide (u_role u ∈ validRoles)); [| discriminate]. cbn [negb].
  intros [= <-]. unfold authorizeRoles. cbn [ru_role user_document].
  destruct (bool_decide (u_role u ∈ required)) eqn:Hrole; [| discriminate].
  intros _. apply bool_decide_eq_true_1 in Hrole.
  split; [by apply String.eqb_eq |]. split; [lia |]. split; [| done].
  by exists u.
Qed.

(** Bob's token, even with the role 'admin' written into it, gets him
    through a freelancer-only route as the freelancer he is stored as. *)
Lemma protect_then_authorizeRoles_witness :
  protect Sample.secret 2000
    (Some (generateToken Sample.secret 1000 Sample.bob Sample.bob_doc)) Sample.db0
  = Next Sample.bob_req
  ∧ authorizeRoles ["freelancer"] Sample.bob_req = Next tt
  ∧ protect Sample.secret 2000
      (Some {| tk_id := Sample.bob; tk_role := "admin"; tk_exp := 1000 + one_day;
               tk_key := Sample.secret |}) Sample.db0
    = Next Sample.bob_req.
Proof.
  split; [reflexivity |]. split; [reflexivity |].
  destruct (protect_then_authorizeRoles Sample.secret 2000
              (generateToken Sample.secret 1000 Sample.bob Sample.bob_doc) Sample.db0
              Sample.bob_req ["freelancer"] eq_refl eq_refl) as (_ & _ & _ & Hrole).
  apply (Hrole "admin").
Defined.

(** X17.  The image handlers repeat the ownership check of [canModifyGig] with
    [req.user._id] itself in place of its string: behind [protect] the
    middleware lets the gig's seller through, and each of the three
    handlers then refuses every caller who is not an administrator,
    the seller included, and stores nothing. *)
Theorem image_routes_refuse_seller (secret : string) (now : Z)
    (token : option Token) (db : DB) (caller : ReqUser) (id : string) (gig : Gig) :
  protect secret now token db = Next caller →
  gigs db !! id = Some gig →
  (g_seller gig = ru_id caller → canModifyGig caller id db = Next gig)
  ∧ (ru_role caller ≠ "admin" →
     ∀ (i : Z) (files : list File), 0 ≤ i →
       patch_primary caller id (Some i) db
         = (db, Fail 403 "Not authorized to modify this gig")
       ∧ delete_image caller id (Some i) db
         = (db, Fail 403 "Not authorized to modify this gig")
       ∧ addImages caller id files db
         = (db, Fail 403 "Not authorized to modify this gig")).
Proof.
  intros Hprotect Hgig.
  apply protect_attaches_document in Hprotect as (uid & u & _ & ->).
  cbn [ru_id ru_role user_document]. split.
  - intros Hseller. unfold canModifyGig. rewrite Hgig.
    cbn [ru__id ru_role user_document toString].
    by rewrite Hseller, String.eqb_refl.
  - intros Hrole i files Hi. apply String.eqb_neq in Hrole.
    assert (not_owner (user_document uid u) gig = true) as Hno.
    { unfold not_owner. cbn. by rewrite Hrole. }
    assert ((i <? 0) = false) as Hneg by lia.
    unfold patch_primary, delete_image, canModifyGig, setPrimaryImage, removeImage,
      addImages.
    rewrite Hgig, Hno, Hneg. cbn [ru_role ru__id user_document toString].
    rewrite Hrole. cbn [negb andb].
    destruct (negb (String.eqb (g_seller gig) uid)); cbn [andb]; done.
Qed.

(** Bob sells [gig1]: the middleware lets him through and the handler
    refuses him. *)
Lemma image_routes_refuse_seller_witness :
  protect Sample.secret 2000
    (Some (generateToken Sample.secret 1000 Sample.bob Sample.bob_doc))
    Sample.db_gallery = Next Sample.bob_req
  ∧ canModifyGig Sample.bob_req Sample.gig1 Sample.db_gallery = Next Sample.gallery
  ∧ patch_primary Sample.bob_req Sample.gig1 (Some 1) Sample.db_gallery
    = (Sample.db_gallery, Fail 403 "Not authorized to modify this gig").
Proof.
  split; [reflexivity |].
  destruct (image_routes_refuse_seller Sample.secret 2000
              (Some (generateToken Sample.secret 1000 Sample.bob Sample.bob_doc))
              Sample.db_gallery Sample.bob_req Sample.gig1 Sample.gallery
              eq_refl eq_refl) as [Hpass Hrefuse].
  split; [apply Hpass; reflexivity |].
  apply (Hrefuse ltac:(discriminate) 1 []). lia.
Defined.

Lemma mark_primary_lookup (l : list Image) :
  ∀ (index imageIndex : Z) (j : nat),
    mark_primary index imageIndex l !! j
    = with_isPrimary (index + Z.of_nat j =? imageIndex) <$> (l !! j).
Proof.
  induction l as [| img l IH]; intros index imageIndex j; [by destruct j |].
  destruct j as [| j]; cbn [mark_primary].
  - cbn. by rewrite Z.add_0_r.
  - change ((?x :: ?r) !! S j) with (r !! j). rewrite IH.
    by replace (index + 1 + Z.of_nat j) with (index + Z.of_nat (S j)) by lia.
Qed.

Lemma mark_primary_length (l : list Image) (index imageIndex : Z) :
  length (mark_primary index imageIndex l) = length l.
Proof. revert index. induction l as [| img l IH]; intros index; cbn; [done |]. by rewrite IH. Qed.

Lemma mark_primary_exactly_one (l : list Image) :
  ∀ index imageIndex : Z,
    index ≤ imageIndex < index + Z.of_nat (length l) →
    primaries (mark_primary index imageIndex l) = 1%nat.
Proof.
  induction l as [| img l IH]; intros index imageIndex Hi; [cbn in Hi; lia |].
  cbn [mark_primary]. change (?x :: ?r) with ([x] ++ r)%list. rewrite primaries_app.
  destruct (index =? imageIndex) eqn:He.
  - rewrite mark_primary_above by lia. reflexivity.
  - rewrite IH; [reflexivity |]. cbn [length] in Hi. lia.
Qed.

Lemma find_mark_primary (l : list Image) :
  ∀ index imageIndex : Z,
    index ≤ imageIndex →
    List.find i_isPrimary (mark_primary index imageIndex l)
    = with_isPrimary true <$> (l !! Z.to_nat (imageIndex - index)).
Proof.
  induction l as [| img l IH]; intros index imageIndex Hi; [done |].
  cbn [mark_primary List.find i_isPrimary with_isPrimary].
  destruct (index =? imageIndex) eqn:He.
  - apply Z.eqb_eq in He as ->. by rewrite Z.sub_diag.
  - rewrite IH by lia.
    replace (Z.to_nat (imageIndex - index))
      with (S (Z.to_nat (imageIndex - (index + 1)))) by lia.
    reflexivity.
Qed.

Lemma nth_error_lookup {A} (l : list A) (i : nat) : nth_error l i = l !! i.
Proof. revert i. induction l as [| x l IH]; intros [| i]; cbn; try done. Qed.

Lemma promote_first_exactly_one (l : list Image) :
  primaries l = 0%nat → l ≠ [] → primaries (promote_first l) = 1%nat.
Proof.
  destruct l as [| img l]; [done |]. unfold primaries. cbn.
  destruct (i_isPrimary img); cbn; [discriminate |]. by intros ->.
Qed.

Lemma promote_first_urls (l : list Image) :
  List.map i_url (promote_first l) = List.map i_url l.
Proof. by destruct l. Qed.

(** X18.  [PATCH /api/gigs/:id/images/primary] with an integer index.  The
    index check of the model method never fires behind the handler's own
    checks; a refusal stores nothing; and on success the gig keeps its
    images in their order, exactly the image at the given index is flagged
    primary, and the virtual [primaryImage] is that image's url. *)
Theorem patch_primary_outcome (user : ReqUser) (id : string) (i : Z)
    (db db' : DB) (r : reply (list Image)) :
  patch_primary user id (Some i) db = (db', r) →
  status_of r ≠ 500
  ∧ (succeeded r = false → db' = db)
  ∧ ∀ imgs, r = Ok 200 imgs →
      ∃ gig chosen,
        gigs db !! id = Some gig ∧ 0 ≤ i
        ∧ g_images gig !! Z.to_nat i = Some chosen
        ∧ db' = set_gigs (insert id (with_images imgs gig)) db
        ∧ length imgs = length (g_images gig)
        ∧ (∀ j img, g_images gig !! j = Some img →
             imgs !! j = Some (with_isPrimary (Z.of_nat j =? i) img))
        ∧ primaries imgs = 1%nat
        ∧ primaryImage (with_images imgs gig) = Some (i_url chosen).
Proof.
  unfold patch_primary, canModifyGig.
  destruct (gigs db !! id) as [gig |] eqn:Hgig.
  2:{ intros [= <- <-]. cbn. split; [lia |]. split; [done | discriminate]. }
  destruct (negb (String.eqb (g_seller gig) (toString (ru__id user)))
            && negb (String.eqb (ru_role user) "admin")).
  { intros [= <- <-]. cbn. split; [lia |]. split; [done | discriminate]. }
  unfold GigRoutes.setPrimaryImage. rewrite Hgig.
  destruct (i <? 0) eqn:Hneg.
  { intros [= <- <-]. cbn. split; [lia |]. split; [done | discriminate]. }
  destruct (not_owner user gig).
  { intros [= <- <-]. cbn. split; [lia |]. split; [done | discriminate]. }
  destruct (Z.of_nat (length (g_images gig)) <=? i) eqn:Hlen.
  { intros [= <- <-]. cbn. split; [lia |]. split; [done | discriminate]. }
  unfold GigImages.setPrimaryImage, valid_index.
  assert ((0 <=? i) && (i <? Z.of_nat (length (g_images gig))) = true) as ->.
  { apply andb_true_intro. split; lia. }
  intros [= <- <-]. cbn [status_of succeeded g_images with_images].
  split; [lia |]. split; [discriminate |].
  intros imgs [= <-].
  destruct (lookup_lt_is_Some_2 (g_images gig) (Z.to_nat i)) as [chosen Hchosen];
    [lia |].
  exists gig, chosen. split; [done |]. split; [lia |]. split; [done |].
  split; [done |]. split; [apply mark_primary_length |]. split; [| split].
  - intros j img Hj. rewrite mark_primary_lookup, Hj. reflexivity.
  - apply mark_primary_exactly_one. lia.
  - unfold primaryImage. cbn [g_images with_images].
    rewrite find_mark_primary by lia. rewrite Z.sub_0_r, Hchosen. reflexivity.
Qed.

(** The administrator makes the second image of the gallery primary. *)
Lemma patch_primary_outcome_witness :
  ∃ db' imgs,
    patch_primary Sample.root_req Sample.gig1 (Some 1) Sample.db_gallery
    = (db', Ok 200 imgs)
    ∧ primaries imgs = 1%nat
    ∧ primaryImage (with_images imgs Sample.gallery) = Some "/uploads/back.png".
Proof.
  eexists _, _. split; [reflexivity |].
  destruct (patch_primary_outcome Sample.root_req Sample.gig1 1 Sample.db_gallery
              _ _ eq_refl) as (_ & _ & Hok).
  destruct (Hok _ eq_refl) as (gig & chosen & Hgig & _ & Hchosen & _ & _ & _ & Hone & Hurl).
  split; [exact Hone |].
  injection Hgig as <-. injection Hchosen as <-. exact Hurl.
Defined.

(** X19.  [DELETE /api/gigs/:id/images/:imageIndex]: on success the image at
    the index is gone and the others keep their order; a gig with one
    primary image still has exactly one as long as an image remains, and
    a gig with at most one never gets a second. *)
Theorem delete_image_outcome (user : ReqUser) (id : string) (i : Z)
    (db db' : DB) (imgs : list Image) :
  delete_image user id (Some i) db = (db', Ok 200 imgs) →
  ∃ gig removed,
    gigs db !! id = Some gig ∧ 0 ≤ i
    ∧ g_images gig !! Z.to_nat i = Some removed
    ∧ db' = set_gigs (insert id (with_images imgs gig)) db
    ∧ List.map i_url imgs
      = List.map i_url (take (Z.to_nat i) (g_images gig)
                        ++ drop (S (Z.to_nat i)) (g_images gig))%list
    ∧ (primaries (g_images gig) ≤ 1 → primaries imgs ≤ 1)%nat
    ∧ (primaries (g_images gig) = 1%nat → imgs ≠ [] → primaries imgs = 1%nat).
Proof.
  unfold delete_image, canModifyGig.
  destruct (gigs db !! id) as [gig |] eqn:Hgig; [| discriminate].
  destruct (negb (String.eqb (g_seller gig) (toString (ru__id user)))
            && negb (String.eqb (ru_role user) "admin")); [discriminate |].
  unfold GigRoutes.removeImage. rewrite Hgig.
  destruct (i <? 0) eqn:Hneg; [discriminate |].
  destruct (not_owner user gig); [discriminate |].
  destruct (Z.of_nat (length (g_images gig)) <=? i) eqn:Hlen; [discriminate |].
  destruct (GigImages.removeImage i gig) as [gig' |] eqn:Hrm; [| discriminate].
  intros [= <- <-].
  pose proof (removeImage_at_most_one i gig gig' Hrm) as Hmost.
  unfold GigImages.removeImage in Hrm.
  destruct (valid_index i gig); [| discriminate].
  destruct (nth_error (g_images gig) (Z.to_nat i)) as [removed |] eqn:Hn;
    [| discriminate].
  injection Hrm as <-. cbn [g_images with_images] in *.
  pose proof (primaries_remove _ _ _ Hn) as Hsplit.
  exists gig, removed. split; [done |]. split; [lia |].
  split; [by rewrite <- nth_error_lookup |].
  split; [reflexivity |].
  set (rest := (firstn (Z.to_nat i) (g_images gig)
                ++ skipn (S (Z.to_nat i)) (g_images gig))%list) in *.
  split; [| split; [done |]].
  - destruct (i_isPrimary removed && (0 <? length rest)%nat);
      [apply promote_first_urls | reflexivity].
  - intros Hone. destruct (i_isPrimary removed); cbn [andb].
    + destruct (0 <? length rest)%nat eqn:Hrest.
      * intros _. apply promote_first_exactly_one; [lia |].
        apply Nat.ltb_lt in Hrest. by destruct rest; cbn in Hrest; [lia |].
      * apply Nat.ltb_ge in Hrest. destruct rest; [done | cbn in Hrest; lia].
    + intros _. lia.
Qed.

(** The administrator removes the primary image of the gallery: the other
    image is left, and is now the primary one. *)
Lemma delete_image_outcome_witness :
  ∃ db' imgs,
    delete_image Sample.root_req Sample.gig1 (Some 0) Sample.db_gallery
    = (db', Ok 200 imgs)
    ∧ List.map i_url imgs = ["/uploads/back.png"]
    ∧ primaries imgs = 1%nat.
Proof.
  eexists _, _. split; [reflexivity |].
  destruct (delete_image_outcome Sample.root_req Sample.gig1 0 Sample.db_gallery
              _ _ eq_refl) as (gig & removed & Hgig & _ & _ & _ & Hurls & _ & Hone).
  injection Hgig as <-. split; [exact Hurls |].
  apply Hone; [reflexivity | discriminate].
Defined.

Lemma find_uploaded (files : list File) :
  List.find i_isPrimary (processUploadedFiles files) = None.
Proof. induction files as [| f files IH]; [done |]. cbn. apply IH. Qed.

Lemma primaries_uploaded (files : list File) :
  primaries (processUploadedFiles files) = 0%nat.
Proof.
  unfold primaries. induction files as [| f files IH]; [done |]. cbn. apply IH.
Qed.

(** X20.  [POST /api/gigs/:id/images] appends the uploads as they come from
    [processUploadedFiles], none of them flagged: the number of primary
    images does not change, so the first upload of a gig without images is
    not flagged (the handler does not go through the model's [addImage]),
    and the virtual [primaryImage] then falls back to it; a gig that had
    images keeps its [primaryImage]. *)
Theorem addImages_outcome (user : ReqUser) (id : string) (files : list File)
    (db db' : DB) (imgs : list Image) :
  addImages user id files db = (db', Ok 200 imgs) →
  ∃ gig first,
    gigs db !! id = Some gig ∧ head files = Some first
    ∧ db' = set_gigs (insert id (with_images imgs gig)) db
    ∧ length imgs = (length (g_images gig) + length files)%nat
    ∧ List.map i_url imgs
      = (List.map i_url (g_images gig)
         ++ List.map (λ f, ("/uploads/" ++ f_filename f)%string) files)%list
    ∧ primaries imgs = primaries (g_images gig)
    ∧ primaryImage (with_images imgs gig)
      = match g_images gig with
        | [] => Some ("/uploads/" ++ f_filename first)
        | _ :: _ => primaryImage gig
        end.
Proof.
  unfold addImages.
  destruct (gigs db !! id) as [gig |] eqn:Hgig; [| discriminate].
  destruct (not_owner user gig); [discriminate |].
  destruct files as [| first files]; [discriminate |].
  change (g_images (with_images ?l gig)) with l. cbv zeta.
  generalize (processUploadedFiles (first :: files)) (find_uploaded (first :: files))
    (primaries_uploaded (first :: files))
    (List.map_map _ _ _
       : List.map i_url (processUploadedFiles (first :: files))
         = List.map (λ f, ("/uploads/" ++ f_filename f)%string) (first :: files))
    (length_map _ _
       : length (processUploadedFiles (first :: files)) = length (first :: files))
    (eq_refl : head (List.map i_url (processUploadedFiles (first :: files)))
               = Some ("/uploads/" ++ f_filename first)%string).
  intros new Hfind Hnone Hurls Hlen Hhead [= <- <-].
  exists gig, first. split; [done |]. split; [done |]. split; [done |].
  split; [| split; [| split]].
  - by rewrite length_app, Hlen.
  - by rewrite List.map_app, Hurls.
  - rewrite primaries_app, Hnone. lia.
  - unfold primaryImage. cbn [g_images with_images].
    destruct (g_images gig) as [| img l] eqn:Himgs.
    + cbn [app]. rewrite Hfind. destruct new as [| n new]; [discriminate Hhead |].
      cbn in Hhead. by injection Hhead as ->.
    + destruct (List.find i_isPrimary (img :: l)) as [primary |] eqn:Hold.
      * by rewrite (find_app_Some _ _ _ _ Hold).
      * rewrite (find_app_None _ _ _ Hold), Hfind. reflexivity.
Qed.

(** The administrator uploads two files to the gig that has no image:
    none is flagged, and [primaryImage] is the first of them. *)
Lemma addImages_outcome_witness :
  ∃ db' imgs,
    addImages Sample.root_req Sample.gig1 Sample.uploads Sample.db0
    = (db', Ok 200 imgs)
    ∧ primaries imgs = 0%nat
    ∧ primaryImage (with_images imgs Sample.logo_gig) = Some "/uploads/a.png".
Proof.
  eexists _, _. split; [reflexivity |].
  destruct (addImages_outcome Sample.root_req Sample.gig1 Sample.uploads Sample.db0
              _ _ eq_refl)
    as (gig & first & Hgig & Hfirst & _ & _ & _ & Hprim & Hurl).
  injection Hgig as <-. injection Hfirst as <-.
  split; [exact Hprim | exact Hurl].
Defined.

End GigExtras.

(** ** Conversations: the counters and the unread messages *)

Section InboxExtras.

Import Messaging Inbox.

Lemma length_filter_none {A} (f : A → bool) (l : list A) :
  (∀ x, x ∈ l → f x = false) → length (List.filter f l) = 0%nat.
Proof.
  induction l as [| x l IH]; intros H; [done |]. cbn.
  rewrite (H x) by apply list_elem_of_here.
  apply IH. intros y Hy. apply H. by apply list_elem_of_further.
Qed.

Lemma length_filter_ext {A} (f g : A → bool) (l : list A) :
  (∀ x, x ∈ l → f x = g x) →
  length (List.filter f l) = length (List.filter g l).
Proof.
  induction l as [| x l IH]; intros H; [done |]. cbn.
  rewrite (H x) by apply list_elem_of_here.
  assert (length (List.filter f l) = length (List.filter g l)) as Hl.
  { apply IH. intros y Hy. apply H. by apply list_elem_of_further. }
  destruct (g x); cbn; by rewrite Hl.
Qed.

Lemma length_filter_map {A B} (f : B → bool) (g : A → B) (l : list A) :
  length (List.filter f (List.map g l)) = length (List.filter (λ x, f (g x)) l).
Proof.
  induction l as [| x l IH]; [done |]. cbn. destruct (f (g x)); cbn; by rewrite IH.
Qed.

(** A list of two entries that contains two different users contains
    nobody else. *)
Lemma two_members (parts : list string) (u p s : string) :
  length parts = 2%nat → u ∈ parts → p ∈ parts → p ≠ u → s ∈ parts →
  s = u ∨ s = p.
Proof.
  intros Hlen Hu Hp Hne Hs.
  destruct parts as [| a [| b [| ? ?]]]; try discriminate.
  apply list_elem_of_In in Hu, Hp, Hs. cbn in Hu, Hp, Hs.
  destruct Hu as [<- | [<- | []]], Hp as [<- | [<- | []]], Hs as [<- | [<- | []]];
    auto; congruence.
Qed.

Lemma createConversation_consistent (newId : string) (errors : list string)
    (user : ReqUser) (participantId : string) (orderId gigId : option string)
    (db : DB) :
  consistent db →
  consistent (fst (createConversation newId errors user participantId orderId gigId db)).
Proof.
  intros Hdb. pose proof Hdb as [Hmsg Hcnt]. unfold createConversation.
  destruct errors; [| exact Hdb].
  destruct (users db !! participantId); [| exact Hdb].
  destruct (List.find (between (ru_id user) participantId) (conversations db));
    [exact Hdb |].
  cbn [fst]. split.
  - intros m Hm. destruct (Hmsg m Hm) as (c & Hc & Hs). exists c. split; [| done].
    cbn [conversations set_conversations]. unfold findById in *.
    by apply find_app_Some.
  - intros cid c. cbn [conversations set_conversations]. unfold findById.
    destruct (List.find (λ c, String.eqb (c_id c) cid) (conversations db))
      as [c0 |] eqn:Hold.
    + rewrite (find_app_Some _ _ _ _ Hold). intros [= <-]. exact (Hcnt cid c0 Hold).
    + rewrite (find_app_None _ _ _ Hold). cbn [List.find c_id].
      destruct (String.eqb newId cid) eqn:He; [| discriminate].
      intros [= <-]. cbn [c_participants]. split; [done |]. intros q _.
      unfold unread. cbn [c_unreadCount]. rewrite lookup_empty. cbn [default].
      unfold unread_messages. cbn [messages set_conversations].
      rewrite length_filter_none; [done |].
      intros m Hm. destruct (Hmsg m Hm) as (c & Hc & _).
      destruct (String.eqb (m_conversation m) cid) eqn:Hmc; [| done].
      apply String.eqb_eq in Hmc. rewrite Hmc in Hc. unfold findById in Hc.
      congruence.
Qed.

(** What a successful [sendMessage] appends to the messages. *)
Lemma sendMessage_appends (now : Z) (newId : string) (errors : list string)
    (user : ReqUser) (cid content messageType : string) (attachments : list string)
    (db db' : DB) (r : reply Message) :
  sendMessage now newId errors user cid content messageType attachments db = (db', r) →
  succeeded r = true →
  ∃ m, messages db' = (messages db ++ [m])%list
       ∧ m_conversation m = cid ∧ m_sender m = ru_id user ∧ m_read m = false.
Proof.
  unfold sendMessage.
  destruct errors; [| intros [= <- <-]; discriminate].
  destruct (findById cid (conversations db)); [| intros [= <- <-]; discriminate].
  destruct (negb (includes (ru_id user) c)); [intros [= <- <-]; discriminate |].
  destruct (bool_decide (c_status c = c_blocked)); [intros [= <- <-]; discriminate |].
  destruct (negb (message_ok content messageType));
    [intros [= <- <-]; discriminate |].
  intros [= <- <-] _. eexists. split; [reflexivity |]. done.
Qed.

Lemma sendMessage_consistent (now : Z) (newId : string) (errors : list string)
    (user : ReqUser) (cid content messageType : string) (attachments : list string)
    (db : DB) :
  consistent db →
  consistent
    (fst (sendMessage now newId errors user cid content messageType attachments db)).
Proof.
  intros Hdb. pose proof Hdb as [Hmsg Hcnt].
  destruct (sendMessage now newId errors user cid content messageType attachments db)
    as [db' r] eqn:Hrun. cbn [fst].
  destruct (sendMessage_cases _ _ _ _ _ _ _ _ _ _ _ Hrun)
    as [[_ ->] | (Hok & c & c' & Hc & Hin & Hsave & Hid & Hparts & _ & Hcounts)];
    [exact Hdb |].
  destruct (sendMessage_appends _ _ _ _ _ _ _ _ _ _ _ Hrun Hok)
    as (new & Hnew & Hnc & Hns & Hnr).
  pose proof (findById_id _ _ _ Hc) as Hcid.
  assert (findById cid (conversations db') = Some c') as Hc'.
  { rewrite Hsave. apply (findById_save_eq cid _ c c' Hc). congruence. }
  assert (∀ cid', cid' ≠ cid →
          findById cid' (conversations db') = findById cid' (conversations db))
    as Hother.
  { intros cid' Hne. rewrite Hsave. apply findById_save_ne. congruence. }
  destruct (Hcnt cid c Hc) as [Hlen Hc_counts].
  split.
  - intros m Hm. rewrite Hnew in Hm. apply elem_of_app in Hm as [Hm | Hm].
    + destruct (Hmsg m Hm) as (c0 & Hc0 & Hs0).
      destruct (decide (m_conversation m = cid)) as [He | Hne].
      * rewrite He in *. exists c'. split; [done |]. rewrite Hparts. congruence.
      * exists c0. by rewrite Hother.
    + apply list_elem_of_singleton in Hm as ->. exists c'.
      rewrite Hnc, Hns, Hparts. done.
  - intros cid' c0 Hc0.
    assert (∀ q, unread_messages db' cid' q
                 = (unread_messages db cid' q
                    + if String.eqb cid cid' && negb (String.eqb (ru_id user) q)
                      then 1 else 0)%nat) as Hcount.
    { intros q. unfold unread_messages. rewrite Hnew.
      rewrite List.filter_app, length_app. cbn [List.filter]. rewrite Hnc, Hns, Hnr.
      rewrite andb_true_r.
      by destruct (String.eqb cid cid' && negb (String.eqb (ru_id user) q)). }
    destruct (decide (cid' = cid)) as [-> | Hne].
    + rewrite Hc' in Hc0. injection Hc0 as <-. rewrite Hparts. split; [done |].
      intros q Hq. rewrite Hcount, String.eqb_refl. cbn [andb negb].
      destruct (decide (q = ru_id user)) as [-> | Hqu].
      * rewrite String.eqb_refl. cbn [negb]. unfold unread. rewrite Hcounts.
        rewrite bump_fold_sender.
        pose proof (Hc_counts (ru_id user) Hin) as H.
        unfold unread in H. lia.
      * assert (String.eqb (ru_id user) q = false) as ->
          by (apply String.eqb_neq; congruence).
        cbn [negb]. unfold unread. rewrite Hcounts.
        rewrite (bump_fold_other _ _ _ _ Hqu).
        rewrite (occurs_once (ru_id user) q _ (or_introl Hlen) Hin Hq Hqu).
        pose proof (Hc_counts q Hq) as H.
        unfold unread in H. lia.
    + rewrite Hother in Hc0 by done.
      destruct (Hcnt cid' c0 Hc0) as [Hlen0 Hcounts0]. split; [done |].
      intros q Hq. rewrite Hcount.
      assert (String.eqb cid cid' = false) as ->
        by (apply String.eqb_neq; congruence).
      cbn [andb]. rewrite Nat.add_0_r. by apply Hcounts0.
Qed.

Lemma markAsRead_consistent (now : Z) (user : ReqUser) (cid : string) (db : DB) :
  consistent db → consistent (fst (markAsRead now user cid db)).
Proof.
  intros Hdb. pose proof Hdb as [Hmsg Hcnt].
  destruct (markAsRead now user cid db) as [db' r] eqn:Hrun. cbn [fst].
  destruct (markAsRead_cases _ _ _ _ _ _ Hrun)
    as [[_ ->] | (Hok & Hmsgs & c & c' & Hc & Hin & Hsave & Hid & Hparts & _ & Hcounts)];
    [exact Hdb |].
  pose proof (findById_id _ _ _ Hc) as Hcid.
  assert (findById cid (conversations db') = Some c') as Hc'.
  { rewrite Hsave. apply (findById_save_eq cid _ c c' Hc). congruence. }
  assert (∀ cid', cid' ≠ cid →
          findById cid' (conversations db') = findById cid' (conversations db))
    as Hother.
  { intros cid' Hne. rewrite Hsave. apply findById_save_ne. congruence. }
  destruct (Hcnt cid c Hc) as [Hlen Hc_counts].
  assert (∀ m, m_conversation (mark now cid (ru_id user) m) = m_conversation m
               ∧ m_sender (mark now cid (ru_id user) m) = m_sender m) as Hkeeps.
  { intros m. unfold mark.
    by destruct (String.eqb (m_conversation m) cid
                 && negb (String.eqb (m_sender m) (ru_id user)) && negb (m_read m)). }
  split.
  - intros m' Hm'. rewrite Hmsgs in Hm'.
    apply list_elem_of_In, in_map_iff in Hm' as (m & <- & Hm).
    apply list_elem_of_In in Hm.
    destruct (Hkeeps m) as [-> ->].
    destruct (Hmsg m Hm) as (c0 & Hc0 & Hs0).
    destruct (decide (m_conversation m = cid)) as [He | Hne].
    + rewrite He in *. exists c'. split; [done |]. rewrite Hparts. congruence.
    + exists c0. by rewrite Hother.
  - intros cid' c0 Hc0.
    destruct (decide (cid' = cid)) as [-> | Hne].
    + rewrite Hc' in Hc0. injection Hc0 as <-. rewrite Hparts. split; [done |].
      intros q Hq. unfold unread_messages. rewrite Hmsgs, length_filter_map.
      unfold unread. rewrite Hcounts.
      destruct (decide (q = ru_id user)) as [-> | Hqu].
      * rewrite lookup_insert_eq. cbn [default].
        rewrite length_filter_none; [done |].
        intros m _. unfold mark.
        destruct (String.eqb (m_conversation m) cid
                  && negb (String.eqb (m_sender m) (ru_id user)) && negb (m_read m))
          eqn:Hm; [| exact Hm].
        cbn [m_conversation m_sender m_read]. by rewrite andb_false_r.
      * rewrite lookup_insert_ne by done.
        pose proof (Hc_counts q Hq) as H. unfold unread, unread_messages in H.
        rewrite H. f_equal. apply length_filter_ext. intros m Hm. unfold mark.
        destruct (String.eqb (m_conversation m) cid
                  && negb (String.eqb (m_sender m) (ru_id user)) && negb (m_read m))
          eqn:Hmatch; [| reflexivity].
        cbn [m_conversation m_sender m_read].
        apply andb_prop in Hmatch as [Hmatch _].
        apply andb_prop in Hmatch as [Hmc Hms].
        apply String.eqb_eq in Hmc. apply negb_true_iff, String.eqb_neq in Hms.
        destruct (Hmsg m Hm) as (c0 & Hc0 & Hs0).
        rewrite Hmc, Hc in Hc0. injection Hc0 as <-.
        destruct (two_members _ _ _ _ Hlen Hin Hq Hqu Hs0) as [Hs | Hs]; [done |].
        rewrite Hs, String.eqb_refl. cbn [negb]. by rewrite !andb_false_r.
    + rewrite Hother in Hc0 by done.
      destruct (Hcnt cid' c0 Hc0) as [Hlen0 Hcounts0]. split; [done |].
      intros q Hq. rewrite (Hcounts0 q Hq). unfold unread_messages.
      rewrite Hmsgs, length_filter_map. f_equal. symmetry.
      apply length_filter_ext. intros m Hm. unfold mark.
      destruct (String.eqb (m_conversation m) cid
                && negb (String.eqb (m_sender m) (ru_id user)) && negb (m_read m))
        eqn:Hmatch; [| reflexivity].
      cbn [m_conversation m_sender m_read].
      apply andb_prop in Hmatch as [Hmatch _].
      apply andb_prop in Hmatch as [Hmc _]. apply String.eqb_eq in Hmc.
      assert (String.eqb (m_conversation m) cid' = false) as ->
        by (apply String.eqb_neq; congruence).
      reflexivity.
Qed.

Lemma handle_consistent (req : Request) (db : DB) :
  consistent db → consistent (handle req db).
Proof.
  destruct req; cbn [handle].
  - apply createConversation_consistent.
  - apply sendMessage_consistent.
  - apply markAsRead_consistent.
Qed.

(** X21.  The counter that the conversation controller keeps for a participant
    is the number of messages of the conversation that others sent and
    that are still unread: this holds when no conversation or message is
    stored, and [createConversation], [sendMessage] and [markAsRead], in
    any order and by any callers, keep it. *)
Theorem counters_count_unread_messages (reqs : list Request) (db : DB)
    (cid p : string) (c : Conversation) :
  consistent db →
  findById cid (conversations (run reqs db)) = Some c →
  p ∈ c_participants c →
  unread_in (run reqs db) cid p = Z.of_nat (unread_messages (run reqs db) cid p).
Proof.
  intros Hdb. assert (consistent (run reqs db)) as [_ Hcnt].
  { revert db Hdb. unfold run.
    induction reqs as [| req reqs IH]; intros db Hdb; cbn [fold_left]; [done |].
    apply IH. by apply handle_consistent. }
  intros Hc Hp. unfold unread_in. rewrite Hc.
  by apply (Hcnt cid c Hc).
Qed.

(** After the sample requests Alice has one unread message, Bob's answer,
    and her counter is 1. *)
Lemma counters_count_unread_messages_witness :
  consistent Sample.db0
  ∧ ∃ c,
      findById Sample.chat1 (conversations (run Sample.chat_requests Sample.db0))
      = Some c
      ∧ Sample.alice ∈ c_participants c
      ∧ unread_messages (run Sample.chat_requests Sample.db0) Sample.chat1 Sample.alice
        = 1%nat
      ∧ unread_in (run Sample.chat_requests Sample.db0) Sample.chat1 Sample.alice = 1.
Proof.
  assert (consistent Sample.db0) as Hdb.
  { split.
    - intros m Hm. cbn in Hm. by apply elem_of_nil in Hm.
    - intros cid c Hc. discriminate Hc. }
  split; [exact Hdb |].
  eexists. split; [reflexivity |].
  assert (Sample.alice ∈ [Sample.alice; Sample.bob]) as Hin
    by apply list_elem_of_here.
  split; [exact Hin |]. split; [reflexivity |].
  rewrite (counters_count_unread_messages Sample.chat_requests Sample.db0
             Sample.chat1 Sample.alice _ Hdb eq_refl Hin).
  reflexivity.
Defined.

End InboxExtras.

(** ** Order threads: the one counter of a thread *)

Section ThreadExtras.

Import OrderThread ThreadRead.

Lemma removelast_map {A B} (g : A → B) (l : list A) :
  removelast (List.map g l) = List.map g (removelast l).
Proof.
  induction l as [| x l IH]; [done |].
  destruct l as [| y l]; [done |].
  change (g x :: removelast (List.map g (y :: l)) = g x :: List.map g (removelast (y :: l))).
  by rewrite IH.
Qed.

(** An update of the messages that keeps their order ids does not change
    which messages are on a page. *)
Lemma page_of_map (g : TMessage → TMessage) (orderId : string) (skip limit : nat)
    (l : list TMessage) :
  (∀ m, tm_order (g m) = tm_order m) →
  page_of orderId skip limit (List.map g l)
  = (List.map g (fst (page_of orderId skip limit l)), snd (page_of orderId skip limit l)).
Proof.
  intros Hg. unfold page_of. cbv zeta. cbn [fst snd].
  rewrite filter_map_swap.
  rewrite (List.filter_ext (λ a, String.eqb (tm_order (g a)) orderId)
             (λ m, String.eqb (tm_order m) orderId)) by (intros a; by rewrite Hg).
  rewrite <- map_rev, skipn_map, firstn_map, length_map.
  destruct (limit <? length _)%nat; [by rewrite removelast_map | done].
Qed.

(** One fetch of a page, pages being numbered from 1: the counter of the
    thread goes down by the number of messages on the page that the caller
    did not send, and the page holds as many of those afterwards as
    before. *)
Lemma get_messages_step (me orderId : string) (page limit : nat) (db : TDB)
    (c : TConversation) :
  (1 ≤ page)%nat →
  List.find (for_order orderId) (t_conversations db) = Some c →
  (∃ c',
     List.find (for_order orderId)
       (t_conversations (fst (get_messages me orderId page limit db))) = Some c'
     ∧ tc_unreadCount c'
       = tc_unreadCount c - Z.of_nat (others_on_page me orderId page limit db))
  ∧ others_on_page me orderId page limit (fst (get_messages me orderId page limit db))
    = others_on_page me orderId page limit db.
Proof.
  intros Hpage1 Hc. unfold get_messages, skip_of, others_on_page, others_of.
  assert ((page =? 0)%nat = false) as -> by (apply Nat.eqb_neq; lia). cbn [andb].
  destruct (page_of orderId ((page - 1) * limit) limit (t_messages db))
    as [msgs hasMore] eqn:Hpage.
  cbn [fst]. unfold includes_new_object. cbn [negb andb].
  rewrite <- (length_map tm_id
                (List.filter (λ msg, negb (String.eqb (tm_sender msg) me)) msgs)).
  destruct (List.map tm_id
              (List.filter (λ msg, negb (String.eqb (tm_sender msg) me)) msgs))
    as [| id ids] eqn:Hids.
  - cbn [fst length]. rewrite Hpage. cbn [fst]. split.
    + exists c. split; [done | lia].
    + rewrite <- (length_map tm_id), Hids. reflexivity.
  - cbn [fst t_conversations t_messages]. split.
    + eexists. split.
      * apply (find_update_first _ _ _ c Hc).
        apply List.find_some in Hc as [_ Hc]. exact Hc.
      * reflexivity.
    + rewrite page_of_map.
      2:{ intros m. by destruct (bool_decide (tm_id m ∈ id :: ids)). }
      rewrite Hpage. cbn [fst]. rewrite length_filter_map.
      rewrite <- Hids, length_map.
      apply length_filter_ext. intros m _.
      by destruct (bool_decide _).
Qed.

(** X22.  Fetching a page of an order thread, pages being numbered from 1,
    lowers the thread's counter by the number of messages on the page that
    others sent, whether or not the caller had read them: the same page
    fetched [n] times lowers it [n] times.  A request for page 0 with a
    positive limit asks the database to skip a negative number of
    messages: it is answered 500 and nothing is written. *)
Theorem get_messages_counts_again (me orderId : string) (page limit : nat)
    (db : TDB) (c : TConversation) (n : nat) (reader : string) :
  List.find (for_order orderId) (t_conversations db) = Some c →
  ((1 ≤ page)%nat →
   unread_in (Nat.iter n (λ d, fst (get_messages me orderId page limit d)) db)
     orderId reader
   = tc_unreadCount c
     - Z.of_nat n * Z.of_nat (others_on_page me orderId page limit db))
  ∧ (page = 0%nat → (0 < limit)%nat →
     get_messages me orderId page limit db
     = (db, TError 500 "Error fetching messages")).
Proof.
  intros Hc. split.
  - intros Hpage. revert db c Hc. induction n as [| n IH]; intros db c Hc.
    + cbn [Nat.iter nat_rect]. unfold unread_in. rewrite Hc. lia.
    + rewrite Nat.iter_succ_r.
      destruct (get_messages_step me orderId page limit db c Hpage Hc)
        as [(c' & Hc' & Hcount) Hothers].
      rewrite (IH _ c' Hc'), Hothers, Hcount. lia.
  - intros -> Hlimit. unfold get_messages, skip_of.
    by rewrite (proj2 (Nat.ltb_lt 0 limit) Hlimit).
Qed.

(** Bob opens the thread with Alice's two messages three times: the
    counter, 2 at first, is then -4.  His request for page 0 is answered
    500. *)
Lemma get_messages_counts_again_witness :
  List.find (for_order Sample.order1) (t_conversations Sample.tdb2)
  = Some {| tc_order := Sample.order1; tc_participants := [Sample.alice; Sample.bob];
            tc_lastMessage := Some Sample.msg2; tc_unreadCount := 2;
            tc_updatedAt := 1001 |}
  ∧ unread_in
      (Nat.iter 3 (λ d, fst (get_messages Sample.bob Sample.order1 1 20 d)) Sample.tdb2)
      Sample.order1 Sample.bob = -4
  ∧ get_messages Sample.bob Sample.order1 0 20 Sample.tdb2
    = (Sample.tdb2, TError 500 "Error fetching messages").
Proof.
  split; [reflexivity |].
  destruct (get_messages_counts_again Sample.bob Sample.order1 1 20 Sample.tdb2 _ 3
              Sample.bob eq_refl) as [Hcount _].
  split; [rewrite Hcount; [reflexivity | lia] |].
  destruct (get_messages_counts_again Sample.bob Sample.order1 0 20 Sample.tdb2 _ 0
              Sample.bob eq_refl) as [_ Hzero].
  apply Hzero; [reflexivity | lia].
Defined.

Lemma addToSet_member (x : string) (l : list string) : x ∈ addToSet x l.
Proof.
  unfold addToSet. destruct (decide (x ∈ l)) as [Hin | Hout].
  - by rewrite bool_decide_eq_true_2.
  - rewrite bool_decide_eq_false_2 by done. apply elem_of_app. right.
    apply list_elem_of_here.
Qed.

(** X23.  [POST /mark-as-read] overwrites the thread's one counter with the
    caller's own count: the messages of the order that others sent, that
    the caller had not read and that the request does not name.  Whoever
    asks for the counter afterwards is shown that number, which is never
    negative. *)
Theorem mark_as_read_recounts (me order : string) (id : string) (ids : list string)
    (db db' : TDB) (r : treply bool) (c : TConversation) (reader : string) :
  truthy order = true →
  List.find (for_order order) (t_conversations db) = Some c →
  mark_as_read me (Some order) (Some (id :: ids)) db = (db', r) →
  r = TOk 200 true
  ∧ unread_in db' order reader
    = Z.of_nat
        (length
           (List.filter
              (λ m, unread_by me order m && negb (bool_decide (tm_id m ∈ id :: ids)))
              (t_messages db)))
  ∧ 0 ≤ unread_in db' order reader.
Proof.
  intros Horder Hc. unfold mark_as_read. rewrite Horder. cbn [negb].
  intros [= <- <-]. split; [reflexivity |].
  assert (∀ n, unread_in
                 {| t_messages := n;
                    t_conversations :=
                      update_first (for_order order)
                        (λ c, {| tc_order := tc_order c;
                                 tc_participants := tc_participants c;
                                 tc_lastMessage := tc_lastMessage c;
                                 tc_unreadCount :=
                                   Z.of_nat
                                     (length (List.filter (unread_by me order) n));
                                 tc_updatedAt := tc_updatedAt c |})
                        (t_conversations db) |} order reader
               = Z.of_nat (length (List.filter (unread_by me order) n))) as Hcount.
  { intros n. unfold unread_in. cbn [t_conversations].
    rewrite (find_update_first _ _ _ c Hc); [reflexivity |].
    apply List.find_some in Hc as [_ Hc]. exact Hc. }
  rewrite Hcount. split; [| lia]. f_equal. rewrite length_filter_map.
  apply length_filter_ext. intros m _. unfold unread_by.
  destruct (bool_decide (tm_id m ∈ id :: ids)); cbn [andb negb].
  - destruct (String.eqb (tm_sender m) me) eqn:Hs; cbn [negb andb].
    + rewrite Hs. cbn [negb]. by rewrite !andb_false_r.
    + cbn [tm_order tm_readBy tm_sender]. rewrite Hs.
      rewrite (bool_decide_eq_true_2 _ (addToSet_member me (tm_readBy m))).
      cbn [negb]. by rewrite !andb_false_r.
  - by rewrite andb_true_r.
Qed.

(** Bob marks Alice's first message as read: the counter becomes 1, his
    count of unread messages, for Alice as well. *)
Lemma mark_as_read_recounts_witness :
  truthy Sample.order1 = true
  ∧ ∃ db',
      mark_as_read Sample.bob (Some Sample.order1) (Some [Sample.msg1]) Sample.tdb2
      = (db', TOk 200 true)
      ∧ unread_in db' Sample.order1 Sample.alice = 1.
Proof.
  split; [reflexivity |]. eexists. split; [reflexivity |].
  destruct (mark_as_read_recounts Sample.bob Sample.order1 Sample.msg1 []
              Sample.tdb2 _ _ _ Sample.alice eq_refl eq_refl eq_refl)
    as (_ & Hcount & _).
  rewrite Hcount. reflexivity.
Defined.

Lemma addToSet_mono (x y : string) (l : list string) : y ∈ l → y ∈ addToSet x l.
Proof.
  intros Hy. unfold addToSet. destruct (bool_decide (x ∈ l)); [done |].
  apply elem_of_app. by left.
Qed.

Lemma addToSet_NoDup (x : string) (l : list string) : NoDup l → NoDup (addToSet x l).
Proof.
  intros Hl. unfold addToSet. destruct (decide (x ∈ l)) as [Hin | Hout].
  - by rewrite bool_decide_eq_true_2.
  - rewrite bool_decide_eq_false_2 by done. apply NoDup_app. split; [done |].
    split; [| apply NoDup_singleton].
    intros y Hy Hyx. apply list_elem_of_singleton in Hyx as ->. done.
Qed.

Lemma map_update_first {A B} (g : A → B) (p : A → bool) (f : A → A) (l : list A) :
  (∀ x, g (f x) = g x) → List.map g (update_first p f l) = List.map g l.
Proof.
  intros Hg. induction l as [| y l IH]; [done |]. cbn.
  destruct (p y); cbn; [by rewrite Hg | by rewrite IH].
Qed.

(** A search by a test that the update does not affect finds the same
    document as before, or its updated version. *)
Lemma find_update_first_keeps {A} (q p : A → bool) (f : A → A) (l : list A) (c : A) :
  (∀ x, q (f x) = q x) → List.find q l = Some c →
  List.find q (update_first p f l) = Some c
  ∨ List.find q (update_first p f l) = Some (f c).
Proof.
  intros Hq. induction l as [| y l IH]; [done |]. cbn.
  destruct (p y); cbn.
  - rewrite Hq. destruct (q y); [| by left]. intros [= ->]. by right.
  - destruct (q y); [by left | exact IH].
Qed.

(** The three handlers touch a conversation only in ways that keep its
    order and do not drop participants, and a message only by adding a
    reader. *)
Lemma well_formed_update (db : TDB) (p : TConversation → bool)
    (f : TConversation → TConversation) (g : TMessage → TMessage) :
  (∀ c, tc_order (f c) = tc_order c) →
  (∀ c, NoDup (tc_participants c) → NoDup (tc_participants (f c))) →
  (∀ m, tm_sender (g m) = tm_sender m
        ∧ ∀ x, x ∈ tm_readBy m → x ∈ tm_readBy (g m)) →
  well_formed db →
  well_formed {| t_conversations := update_first p f (t_conversations db);
                 t_messages := List.map g (t_messages db) |}.
Proof.
  intros Hord Hnd Hg (Hone & Hdup & Hmsg). unfold well_formed.
  cbn [t_conversations t_messages]. split; [| split].
  - by rewrite map_update_first.
  - apply Forall_update_first; [done |]. intros c Hc. apply Hnd.
    rewrite Forall_forall in Hdup. apply Hdup.
    apply List.find_some in Hc as [Hc _]. by apply list_elem_of_In.
  - intros m' Hm'. apply list_elem_of_In, in_map_iff in Hm' as (m & <- & Hm).
    apply list_elem_of_In in Hm. destruct (Hg m) as (-> & Hread).
    by apply Hread, Hmsg.
Qed.

Lemma threaded_update (db : TDB) (p : TConversation → bool)
    (f : TConversation → TConversation) (g : TMessage → TMessage) :
  (∀ c, tc_order (f c) = tc_order c) →
  (∀ c x, x ∈ tc_participants c → x ∈ tc_participants (f c)) →
  (∀ m, tm_order (g m) = tm_order m ∧ tm_sender (g m) = tm_sender m) →
  threaded db →
  threaded {| t_conversations := update_first p f (t_conversations db);
              t_messages := List.map g (t_messages db) |}.
Proof.
  intros Hord Hparts Hg Hmsg m' Hm'. cbn [t_conversations t_messages] in *.
  apply list_elem_of_In, in_map_iff in Hm' as (m & <- & Hm).
  apply list_elem_of_In in Hm. destruct (Hg m) as (-> & ->).
  destruct (Hmsg m Hm) as (c & Hc & Hs).
  assert (∀ x, for_order (tm_order m) (f x) = for_order (tm_order m) x) as Hq.
  { intros x. unfold for_order. by rewrite Hord. }
  destruct (find_update_first_keeps (for_order (tm_order m)) p f
              (t_conversations db) c Hq Hc) as [H | H].
  - by exists c.
  - exists (f c). split; [done |]. by apply Hparts.
Qed.

Lemma map_id_eq {A} (g : A → A) (l : list A) : (∀ x, g x = x) → List.map g l = l.
Proof. intros Hg. induction l as [| x l IH]; cbn; [done |]. by rewrite Hg, IH. Qed.

(** The conversations after the update of a successful post. *)
Lemma upsert_on_send_well_formed (now : Z) (newId senderId recipient orderId : string)
    (db : TDB) :
  well_formed db →
  NoDup (List.map tc_order
           (upsert_on_send now newId senderId recipient orderId (t_conversations db)))
  ∧ Forall (λ c, NoDup (tc_participants c))
      (upsert_on_send now newId senderId recipient orderId (t_conversations db)).
Proof.
  intros Hdb. unfold upsert_on_send.
  destruct (List.find (for_order orderId) (t_conversations db)) as [c0 |] eqn:Hfind.
  - assert (well_formed
              {| t_conversations :=
                   update_first (for_order orderId)
                     (on_send now newId senderId recipient) (t_conversations db);
                 t_messages := List.map (λ m, m) (t_messages db) |})
      as (Hone & Hdup & _); [| done].
    apply well_formed_update; try done.
    intros c Hc. cbn. by apply addToSet_NoDup, addToSet_NoDup.
  - destruct Hdb as (Hone & Hdup & _). split.
    + rewrite List.map_app. apply NoDup_app. split; [done |].
      split; [| apply NoDup_singleton].
      intros o Ho Hnew. cbn in Hnew. apply list_elem_of_singleton in Hnew as ->.
      apply list_elem_of_In, in_map_iff in Ho as (c & Hc & Hin).
      pose proof (List.find_none _ _ Hfind c Hin) as Hno. unfold for_order in Hno.
      rewrite Hc, String.eqb_refl in Hno. discriminate.
    + apply Forall_app. split; [done |]. apply Forall_singleton. cbn.
      apply addToSet_NoDup, addToSet_NoDup, NoDup_nil_2.
Qed.

Lemma post_message_well_formed (now : Z) (newId senderId : string)
    (content : option string) (orderId : string) (recipientId : option string)
    (files : list string) (db : TDB) :
  well_formed db →
  well_formed (fst (post_message now newId senderId content orderId recipientId files db)).
Proof.
  intros Hdb. unfold post_message.
  destruct (_ && bool_decide (files = [])); [exact Hdb |].
  assert (∀ m, m ∈ (t_messages db
                     ++ [{| tm_id := newId; tm_content := trim (default "" content);
                            tm_sender := senderId; tm_order := orderId;
                            tm_readBy := [senderId]; tm_attachments := files |}])%list
               → tm_sender m ∈ tm_readBy m) as Hmsgs.
  { intros m Hm. apply elem_of_app in Hm as [Hm | Hm].
    - destruct Hdb as (_ & _ & Hmsg). by apply Hmsg.
    - apply list_elem_of_singleton in Hm as ->. apply list_elem_of_here. }
  destruct recipientId as [recipient |]; cbn [fst].
  - destruct (upsert_on_send_well_formed now newId senderId recipient orderId db Hdb)
      as [Hone Hdup].
    split; [done |]. split; [done |]. exact Hmsgs.
  - destruct Hdb as (Hone & Hdup & _). split; [done |]. split; [done |]. exact Hmsgs.
Qed.

Lemma post_message_threaded (now : Z) (newId senderId : string)
    (content : option string) (orderId recipient : string)
    (files : list string) (db : TDB) :
  threaded db →
  threaded
    (fst (post_message now newId senderId content orderId (Some recipient) files db)).
Proof.
  intros Hdb. unfold post_message.
  destruct (_ && bool_decide (files = [])); [exact Hdb |]. cbn [fst].
  set (message := {| tm_id := newId; tm_content := trim (default "" content);
                     tm_sender := senderId; tm_order := orderId;
                     tm_readBy := [senderId]; tm_attachments := files |}).
  assert (∀ c, senderId ∈ tc_participants
                              (on_send now newId senderId recipient c)) as Hsender.
  { intros c. cbn. apply addToSet_mono, addToSet_member. }
  unfold upsert_on_send. cbn [t_conversations t_messages].
  destruct (List.find (for_order orderId) (t_conversations db)) as [c0 |] eqn:Hfind.
  - assert (threaded
              {| t_conversations :=
                   update_first (for_order orderId)
                     (on_send now newId senderId recipient) (t_conversations db);
                 t_messages := List.map (λ m, m) (t_messages db) |}) as Hold.
    { apply threaded_update; try done.
      intros c x Hx. cbn. by apply addToSet_mono, addToSet_mono. }
    unfold threaded in Hold. cbn [t_conversations t_messages] in Hold.
    rewrite map_id_eq in Hold by done.
    intros m Hm. cbn [t_conversations t_messages] in *.
    apply elem_of_app in Hm as [Hm | Hm]; [by apply Hold |].
    apply list_elem_of_singleton in Hm as ->. cbn [tm_sender tm_order message].
    eexists. split; [| apply Hsender].
    apply (find_update_first _ _ _ c0 Hfind).
    apply List.find_some in Hfind as [_ Hfind]. exact Hfind.
  - intros m Hm. cbn [t_conversations t_messages] in *.
    apply elem_of_app in Hm as [Hm | Hm].
    + destruct (Hdb m Hm) as (c & Hc & Hs). exists c. split; [| done].
      by apply find_app_Some.
    + apply list_elem_of_singleton in Hm as ->. cbn [tm_sender tm_order message].
      eexists. split; [| apply Hsender].
      rewrite (find_app_None _ _ _ Hfind). cbn. unfold for_order. cbn.
      by rewrite String.eqb_refl.
Qed.

Lemma get_messages_keeps (me orderId : string) (page limit : nat) (db : TDB) :
  (well_formed db → well_formed (fst (get_messages me orderId page limit db)))
  ∧ (threaded db → threaded (fst (get_messages me orderId page limit db))).
Proof.
  unfold get_messages. destruct (skip_of page limit) as [skip |]; [| done].
  destruct (page_of orderId skip limit (t_messages db)) as [msgs hasMore].
  destruct (List.map tm_id _) as [| id ids]; [done |]. cbn [fst].
  split; intros Hdb.
  - apply well_formed_update; try done.
    intros m. destruct (bool_decide (tm_id m ∈ id :: ids)); [| done].
    cbn. split; [done |]. intros x. apply addToSet_mono.
  - apply threaded_update; try done.
    intros m. by destruct (bool_decide (tm_id m ∈ id :: ids)).
Qed.

Lemma mark_as_read_keeps (me : string) (orderId : option string)
    (messageIds : option (list string)) (db : TDB) :
  (well_formed db → well_formed (fst (mark_as_read me orderId messageIds db)))
  ∧ (threaded db → threaded (fst (mark_as_read me orderId messageIds db))).
Proof.
  unfold mark_as_read.
  destruct orderId as [order |]; [| done].
  destruct messageIds as [[| id ids] |]; [done | | done].
  destruct (negb (truthy order)); [done |]. cbn [fst].
  split; intros Hdb.
  - apply well_formed_update; try done.
    intros m. destruct (bool_decide (tm_id m ∈ id :: ids) && _); [| done].
    cbn. split; [done |]. intros x. apply addToSet_mono.
  - apply threaded_update; try done.
    intros m. by destruct (bool_decide (tm_id m ∈ id :: ids) && _).
Qed.

(** X24.  Whatever is posted, fetched and marked on the order threads, by
    whomever and in whatever order, the store stays well formed: an order
    never gets a second conversation, a conversation never lists a
    participant twice, and every message has its sender among its readers.
    As long as every post carries a recipient that casts to an ObjectId,
    every message also has the conversation of its order, with its sender
    among the participants.  A post with text whose recipient does not
    cast is answered 500 after its message has been stored: the
    conversations are as before, and in a thread without conversation the
    message is left without one. *)
Theorem order_threads_stay_well_formed (reqs : list Request) (db : TDB) :
  well_formed db →
  well_formed (run reqs db)
  ∧ (threaded db → Forall castable reqs → threaded (run reqs db))
  ∧ ∀ (now : Z) (newId senderId text orderId : string) (files : list string),
      truthy text = true →
      ∃ m, post_message now newId senderId (Some text) orderId None files db
           = ({| t_conversations := t_conversations db;
                 t_messages := (t_messages db ++ [m])%list |},
              TError 500 "Error sending message")
           ∧ tm_order m = orderId ∧ tm_sender m = senderId
           ∧ (List.find (for_order orderId) (t_conversations db) = None →
              ¬ threaded {| t_conversations := t_conversations db;
                            t_messages := (t_messages db ++ [m])%list |}).
Proof.
  intros Hdb. split; [| split].
  - revert db Hdb. unfold run.
    induction reqs as [| req reqs IH]; intros db Hdb; cbn [fold_left]; [done |].
    apply IH. destruct req; cbn [handle].
    + by apply post_message_well_formed.
    + by apply get_messages_keeps.
    + by apply mark_as_read_keeps.
  - clear Hdb. revert db. unfold run.
    induction reqs as [| req reqs IH]; intros db Hdb Hreqs; cbn [fold_left]; [done |].
    apply Forall_cons in Hreqs as [Hreq Hreqs].
    apply IH; [| done]. destruct req; cbn [handle].
    + cbn in Hreq. destruct Hreq as [recipient ->]. by apply post_message_threaded.
    + by apply get_messages_keeps.
    + by apply mark_as_read_keeps.
  - intros now newId senderId text orderId files Htext. unfold post_message.
    rewrite Htext. cbn [negb andb]. eexists. split; [reflexivity |].
    cbn [tm_order tm_sender]. split; [done |]. split; [done |].
    intros Hnone Hthreaded.
    destruct (Hthreaded
                {| tm_id := newId; tm_content := trim (default "" (Some text));
                   tm_sender := senderId; tm_order := orderId;
                   tm_readBy := [senderId]; tm_attachments := files |})
      as (c & Hc & _).
    + cbn [t_messages]. apply elem_of_app. right. apply list_elem_of_here.
    + cbn [t_conversations tm_order] in Hc. congruence.
Qed.

(** From the empty store: three posts in one order, a fetch and a mark give
    one conversation with two participants. *)
Lemma order_threads_stay_well_formed_witness :
  well_formed Sample.tdb0
  ∧ threaded Sample.tdb0
  ∧ Forall castable Sample.thread_requests
  ∧ List.map (λ c, (tc_order c, tc_participants c))
      (t_conversations (run Sample.thread_requests Sample.tdb0))
    = [(Sample.order1, [Sample.alice; Sample.bob])]
  ∧ NoDup (List.map tc_order
             (t_conversations (run Sample.thread_requests Sample.tdb0)))
  ∧ threaded (run Sample.thread_requests Sample.tdb0).
Proof.
  assert (well_formed Sample.tdb0) as Hdb.
  { split; [apply NoDup_nil_2 |]. split; [apply Forall_nil_2 |].
    intros m Hm. by apply elem_of_nil in Hm. }
  assert (threaded Sample.tdb0) as Hthreaded.
  { intros m Hm. by apply elem_of_nil in Hm. }
  assert (Forall castable Sample.thread_requests) as Hreqs.
  { unfold Sample.thread_requests.
    repeat (apply Forall_cons; split; [cbn; eauto |]). apply Forall_nil_2. }
  split; [exact Hdb |]. split; [exact Hthreaded |]. split; [exact Hreqs |].
  split; [reflexivity |].
  destruct (order_threads_stay_well_formed Sample.thread_requests Sample.tdb0 Hdb)
    as ((Hone & _) & Hkeeps & _).
  split; [exact Hone |]. by apply Hkeeps.
Defined.

End ThreadExtras.

(** ** Account deletion *)

Section AdminExtras.

Import Admin.

Lemma filter_none_inv {A} (f : A → bool) (l : list A) (x : A) :
  length (List.filter f l) = 0%nat → x ∈ l → f x = false.
Proof.
  intros Hlen Hx. destruct (f x) eqn:Hf; [| done].
  assert (In x (List.filter f l)) as Hin.
  { apply filter_In. split; [by apply list_elem_of_In | done]. }
  destruct (List.filter f l); [destruct Hin | discriminate].
Qed.

(** X25.  [deleteUser] deletes an account only when none of its orders is
    pending, accepted, in progress or delivered and none of its gigs is
    active; it then removes the user document and nothing else, so the
    account's other orders and gigs, its reviews, conversations and
    messages stay, and refer to a user that no longer exists. *)
Theorem deleteUser_removes_only_the_account (id : string) (db db' : DB)
    (r : reply string) :
  deleteUser id db = (db', r) →
  (succeeded r = false → db' = db)
  ∧ (succeeded r = true →
     is_Some (users db !! id)
     ∧ users db' = delete id (users db)
     ∧ gigs db' = gigs db ∧ orders db' = orders db ∧ reviews db' = reviews db
     ∧ conversations db' = conversations db ∧ messages db' = messages db
     ∧ (∀ oid o, orders db' !! oid = Some o → o_buyer o = id ∨ o_seller o = id →
          users db' !! id = None
          ∧ (o_status o = completed ∨ o_status o = cancelled ∨ o_status o = disputed))
     ∧ (∀ gid g, gigs db' !! gid = Some g → g_seller g = id →
          g_status g ≠ g_active)).
Proof.
  unfold deleteUser. destruct (users db !! id) as [u |] eqn:Hu.
  2:{ intros [= <- <-]. split; [done | discriminate]. }
  destruct (0 <? activeOrders id db)%nat eqn:Ho.
  { intros [= <- <-]. split; [done | discriminate]. }
  destruct (0 <? activeGigs id db)%nat eqn:Hg.
  { intros [= <- <-]. split; [done | discriminate]. }
  cbn [orb]. intros [= <- <-]. split; [discriminate |]. intros _.
  cbn [users gigs orders reviews conversations messages set_users].
  split; [done |]. repeat (split; [reflexivity |]).
  apply Nat.ltb_ge in Ho, Hg. unfold activeOrders in Ho. unfold activeGigs in Hg.
  split.
  - intros oid o Hoid Hparty. split; [apply lookup_delete_eq |].
    assert (length
              (List.filter
                 (λ p : string * Order,
                    (String.eqb (o_buyer p.2) id || String.eqb (o_seller p.2) id)
                    && bool_decide
                         (o_status p.2 ∈ [pending; accepted; in_progress; delivered]))
                 (map_to_list (orders db))) = 0%nat) as Hnone by lia.
    apply (filter_none_inv _ _ (oid, o)) in Hnone;
      [| by apply elem_of_map_to_list].
    cbn [snd] in Hnone.
    assert (String.eqb (o_buyer o) id || String.eqb (o_seller o) id = true) as Hp.
    { destruct Hparty as [-> | ->]; rewrite String.eqb_refl; [done |].
      by rewrite orb_true_r. }
    rewrite Hp in Hnone. cbn [andb] in Hnone.
    destruct (o_status o); try (by auto); by vm_compute in Hnone.
  - intros gid g Hgid Hseller Hactive.
    assert (length
              (List.filter
                 (λ p : string * Gig,
                    String.eqb (g_seller p.2) id
                    && bool_decide (g_status p.2 = g_active))
                 (map_to_list (gigs db))) = 0%nat) as Hnone by lia.
    apply (filter_none_inv _ _ (gid, g)) in Hnone;
      [| by apply elem_of_map_to_list].
    cbn [snd] in Hnone. rewrite Hseller, String.eqb_refl in Hnone.
    by rewrite bool_decide_eq_true_2 in Hnone.
Qed.

(** Dave has no orders and no gigs: his account is deleted, and the
    conversation Alice opened with him stays. *)
Lemma deleteUser_removes_only_the_account_witness :
  ∃ db',
    deleteUser Sample.dave
      (fst (Messaging.createConversation Sample.chat2 [] Sample.alice_req
              Sample.dave None None Sample.db_dave))
    = (db', Ok 200 "User deleted successfully")
    ∧ conversations db' = [Sample.chat_dave].
Proof.
  eexists. split; [reflexivity |].
  destruct (deleteUser_removes_only_the_account Sample.dave
              (fst (Messaging.createConversation Sample.chat2 [] Sample.alice_req
                      Sample.dave None None Sample.db_dave)) _ _ eq_refl)
    as [_ Hok].
  destruct (Hok eq_refl) as (_ & _ & _ & _ & _ & Hconv & _).
  exact Hconv.
Defined.

End AdminExtras.
